(** * Deed validation pipeline of [app.py]: a shallow embedding and its properties

    The validators of [app.py] ([normalize_county], [text_amount_to_number],
    [validate_dates], [validate_money], [calculate_tax]) and the part of
    [process_deed] that follows extraction are embedded as executable
    functions.

    Conventions of the embedding:
    - a Python [str] is a [string]; each character is read as the code point
      of the same number, so the strings covered are those over U+0000..U+00FF;
    - a raised exception is a value of [exn], and a function that may raise
      returns a [result];
    - a Python [float] is an IEEE 754 binary64 value, a [spec_float] with
      precision 53 and maximal exponent 1024;
    - the two library calls whose code is not part of [app.py],
      [dateutil.parser.parse] and the scorer behind
      [rapidfuzz.process.extractOne], are parameters of the functions that
      call them;
    - [extract_with_llm] and [load_counties] read from outside: what they
      return is the input of [process_deed] here, and what [process_deed]
      prints on success is its result. *)

From Stdlib Require Import ZArith QArith Qabs Bool List Ascii String Lia.
From Stdlib Require Import Floats.SpecFloat.
Import ListNotations.

Local Open Scope string_scope.
Local Open Scope Z_scope.

(** ** Strings *)

Module Str.

(** Code point of a character. *)
Definition ord (c : ascii) : N := N_of_ascii c.

(** [c.lower()] on one code point below 256: the letters A..Z and the
    Latin-1 capitals U+00C0..U+00DE, the multiplication sign U+00D7
    excepted, move up by 32; every other code point stays. *)
Definition lower_char (c : ascii) : ascii :=
  let n := ord c in
  if ((65 <=? n) && (n <=? 90))%N then ascii_of_N (n + 32)
  else if ((192 <=? n) && (n <=? 222) && negb (n =? 215))%N
       then ascii_of_N (n + 32)
  else c.

(** [s.lower()] *)
Fixpoint lower (s : string) : string :=
  match s with
  | EmptyString => EmptyString
  | String c s' => String (lower_char c) (lower s')
  end.

(** [s.startswith(p)] *)
Fixpoint startswith (p s : string) : bool :=
  match p, s with
  | EmptyString, _ => true
  | String _ _, EmptyString => false
  | String a p', String b s' => Ascii.eqb a b && startswith p' s'
  end.

(** [sub in s]: [sub] occurs in [s] as a contiguous substring. *)
Fixpoint contains (sub s : string) : bool :=
  startswith sub s ||
  match s with
  | EmptyString => false
  | String _ s' => contains sub s'
  end.

(** [c] matches the regular-expression class [\d]; below U+0100 the only
    decimal digits are 0..9. *)
Definition is_digit (c : ascii) : bool :=
  let n := ord c in ((48 <=? n) && (n <=? 57))%N.

Definition is_dot (c : ascii) : bool := Ascii.eqb c ".".

Fixpoint filter (f : ascii -> bool) (s : string) : string :=
  match s with
  | EmptyString => EmptyString
  | String c s' => if f c then String c (filter f s') else filter f s'
  end.

Fixpoint forallb (f : ascii -> bool) (s : string) : bool :=
  match s with
  | EmptyString => true
  | String c s' => f c && forallb f s'
  end.

Fixpoint existsb (f : ascii -> bool) (s : string) : bool :=
  match s with
  | EmptyString => false
  | String c s' => f c || existsb f s'
  end.

End Str.

(** ** Written amounts *)

(** [text_amount_to_number]: the running [total] starts at 0 and each of the
    two [if] statements adds its amount when its phrase occurs in the
    lowercased text. *)
Definition text_amount_to_number (text_amount : string) : Z :=
  let text_amount := Str.lower text_amount in
  let total := 0 in
  let total :=
    if Str.contains "one million" text_amount then total + 1000000 else total in
  let total :=
    if Str.contains "two hundred thousand" text_amount then total + 200000
    else total in
  total.

(** The vocabulary of the converter, as a table of phrases and amounts. *)
Definition vocabulary : list (string * Z) :=
  [("one million", 1000000); ("two hundred thousand", 200000)].

(** Sum of the amounts of the phrases of a table that occur in a text. *)
Fixpoint sum_found (table : list (string * Z)) (text : string) : Z :=
  match table with
  | [] => 0
  | (phrase, amount) :: rest =>
      (if Str.contains phrase text then amount else 0) + sum_found rest text
  end.

(** [sub] occurs in [s]: some text before it and some text after it. *)
Definition occurs_in (sub s : string) : Prop :=
  exists pre post, s = pre ++ sub ++ post.

(** The alphabet, in small letters and in capitals. *)
Definition small_letters : string := "abcdefghijklmnopqrstuvwxyz".
Definition capital_letters : string := "ABCDEFGHIJKLMNOPQRSTUVWXYZ".

(** The character of [target] at the place [c] has in [source]; [c] itself
    when it is not in [source]. *)
Fixpoint translate (source target : string) (c : ascii) : ascii :=
  match source, target with
  | String x source', String y target' =>
      if Ascii.eqb c x then y else translate source' target' c
  | _, _ => c
  end.

(** The capital of a small letter of the alphabet; any other character is
    its own. *)
Definition capital (c : ascii) : ascii :=
  translate small_letters capital_letters c.

(** A text in capitals. *)
Fixpoint capitals (s : string) : string :=
  match s with
  | EmptyString => EmptyString
  | String c s' => String (capital c) (capitals s')
  end.

(** Two texts that are the same but for the case of the letters of the
    alphabet. *)
Fixpoint same_letters (a b : string) : bool :=
  match a, b with
  | EmptyString, EmptyString => true
  | String x a', String y b' =>
      Ascii.eqb (capital x) (capital y) && same_letters a' b'
  | _, _ => false
  end.

(** [phrase] occurs in [s] in some case: a part of [s] is [phrase] but for
    the case of its letters. *)
Definition occurs_in_any_case (phrase s : string) : Prop :=
  exists pre part post,
    s = pre ++ part ++ post /\ same_letters part phrase = true.

(** A character of the phrases of the vocabulary: below U+0080 and not a
    capital letter. *)
Definition plain_char (c : ascii) : bool :=
  ((Str.ord c <? 128) && negb ((65 <=? Str.ord c) && (Str.ord c <=? 90)))%N.

(** ** Exceptions and results *)

(** The exceptions [app.py] can end with after extraction, named by the kind
    of failure they report. The three [raise ValueError(...)] statements carry
    the values their messages print. *)
Inductive exn : Type :=
| NoMatchError (input : string)
    (** [ValueError(f"Unknown county: {input_county}")] *)
| DateOrderError (signed recorded : Z * Z * Z)
    (** [ValueError("INVALID DATE ORDER: Recorded {recorded.date()} before
        Signed {signed.date()}")], dates as (year, month, day) *)
| MoneyMismatchError (numeric : spec_float) (text : Z)
    (** [ValueError(f"MONEY MISMATCH: Numeric={numeric_value} vs
        Text={text_value}")] *)
| MalformedAmountError (stripped : string)
    (** the [ValueError] of [float(...)]: could not convert string to float *)
| DateParseError (text : string)
    (** the error of [date_parser.parse] on a string it cannot read *)
| UnpackNoneError
    (** the [TypeError] of unpacking [None] into three names *)
| NaiveAwareError
    (** the [TypeError] of [<] between a datetime without time zone and one
        with: can't compare offset-naive and offset-aware datetimes *)
| StopIteration.
    (** [next] on an exhausted generator *)

Inductive result (A : Type) : Type :=
| Ok (a : A)
| Raise (e : exn).
Arguments Ok {A} a.
Arguments Raise {A} e.

Definition bind {A B : Type} (r : result A) (k : A -> result B) : result B :=
  match r with
  | Ok a => k a
  | Raise e => Raise e
  end.

Notation "x <- r ;; k" := (bind r (fun x => k))
  (at level 61, r at next level, right associativity).
Notation "r ;;; k" := (bind r (fun _ => k))
  (at level 61, right associativity).

(** ** Binary64 numbers *)

Module Float.

Definition prec : Z := 53.
Definition emax : Z := 1024.

Definition float : Type := spec_float.

(** [float(n)] for an integer [n]: the nearest binary64 number. *)
Definition of_Z (n : Z) : float := binary_normalize prec emax n 0 false.

Definition sub : float -> float -> float := SFsub prec emax.
Definition mul : float -> float -> float := SFmul prec emax.
Definition abs : float -> float := SFabs.
Definition ltb : float -> float -> bool := SFltb.

(** The nearest binary64 number to [n / 10 ^ k], for [n >= 0]: the value
    [float] gives to a decimal numeral with digits [n] of which [k] come
    after the point. *)
Definition of_decimal (n : Z) (k : nat) : float :=
  match n with
  | Zpos p =>
      SFdiv prec emax (S754_finite false p 0)
            (S754_finite false (Z.to_pos (10 ^ Z.of_nat k)) 0)
  | _ => S754_zero false
  end.

(** Value of a string of digits read in base ten, continuing from [acc]. *)
Fixpoint digits_value (acc : Z) (s : string) : Z :=
  match s with
  | EmptyString => acc
  | String c s' => digits_value (10 * acc + (Z.of_N (Str.ord c) - 48)) s'
  end.

(** The text before the first point, and the text after it when there is
    a point. *)
Fixpoint split_point (s : string) : string * option string :=
  match s with
  | EmptyString => (EmptyString, None)
  | String c s' =>
      if Str.is_dot c then (EmptyString, Some s')
      else let '(a, b) := split_point s' in (String c a, b)
  end.

(** [float(s)] for a string [s] of digits and points, which is all that
    [re.sub(r"[^\d.]", "", ...)] leaves: digits with at most one point
    among them and at least one digit; anything else raises [ValueError],
    here [None]. *)
Definition of_string (s : string) : option float :=
  match split_point s with
  | (whole, None) =>
      if Str.forallb Str.is_digit whole && negb (String.eqb whole "")
      then Some (of_decimal (digits_value 0 whole) 0)
      else None
  | (whole, Some frac) =>
      if Str.forallb Str.is_digit whole && Str.forallb Str.is_digit frac
         && negb (String.eqb whole "" && String.eqb frac "")
      then Some (of_decimal (digits_value 0 (whole ++ frac))
                            (String.length frac))
      else None
  end.

(** The exact value of a finite binary64 number, as a rational: the
    mantissa times two to the exponent, with the sign. *)
Definition to_Q (x : float) : Q :=
  match x with
  | S754_finite s m e =>
      let q := if 0 <=? e then inject_Z (Zpos m * 2 ^ e)
               else Qmake (Zpos m) (Z.to_pos (2 ^ (- e))) in
      if s then Qopp q else q
  | _ => 0%Q
  end.

(** The exponent of the binary64 numbers of magnitude about [2 ^ e]. *)
Definition fexp64 (e : Z) : Z := Z.max (e - 53) (-1074).

(** The binary64 number of sign [s], mantissa [m] of at most 53 digits, or
    [2 ^ 53], and exponent [e]: what rounding ends with. *)
Definition pack (s : bool) (m e : Z) : float :=
  if m =? 0 then S754_zero s
  else if m <? 2 ^ 53 then
    if e <=? 971 then S754_finite s (Z.to_pos m) e else S754_infinity s
  else
    if e + 1 <=? 971 then S754_finite s (Z.to_pos (m / 2)) (e + 1)
    else S754_infinity s.

(** A binary64 number that is zero, positive or plus infinity. *)
Definition is_nonneg (x : float) : Prop :=
  match x with
  | S754_zero s => s = false
  | S754_infinity s => s = false
  | S754_nan => False
  | S754_finite s m e => s = false /\ bounded prec emax m e = true
  end.

End Float.

(** ** The validators of the amount and the tax *)

(** A character the class [[^\d.]] does not match: a digit or a point. *)
Definition kept (c : ascii) : bool := Str.is_digit c || Str.is_dot c.

(** [re.sub(r"[^\d.]", "", s)]: every character that is neither a digit nor
    a point is replaced by nothing. *)
Definition strip_amount (s : string) : string := Str.filter kept s.

(** [float(re.sub(r"[^\d.]", "", amount_numeric))] *)
Definition numeric_value_of (amount_numeric : string) : result Float.float :=
  let stripped := strip_amount amount_numeric in
  match Float.of_string stripped with
  | Some x => Ok x
  | None => Raise (MalformedAmountError stripped)
  end.

(** [validate_money]: returns nothing, or raises. *)
Definition validate_money (amount_numeric amount_text : string) : result unit :=
  numeric_value <- numeric_value_of amount_numeric ;;
  let text_value := text_amount_to_number amount_text in
  if Float.ltb (Float.of_Z 1)
               (Float.abs (Float.sub numeric_value (Float.of_Z text_value)))
  then Raise (MoneyMismatchError numeric_value text_value)
  else Ok tt.

(** The two amounts differ by more than one unit, in exact arithmetic; an
    infinite amount differs from any number by more than that. *)
Definition exceeds_tolerance (numeric_value : Float.float) (text_value : Z)
  : Prop :=
  match numeric_value with
  | S754_infinity _ => True
  | S754_nan => False
  | _ => (1 < Qabs (Float.to_Q numeric_value - inject_Z text_value))%Q
  end.

(** The number a string of digits writes: each digit with the weight of its
    place. *)
Fixpoint positional (s : string) : Z :=
  match s with
  | EmptyString => 0
  | String c s' =>
      (Z.of_N (Str.ord c) - 48) * 10 ^ Z.of_nat (String.length s')
      + positional s'
  end.

(** The value of the decimal numeral with the digits [whole] before the
    point and the digits [frac] after it. *)
Definition decimal_value (whole frac : string) : Q :=
  (inject_Z (positional whole)
   + Qmake (positional frac) (Z.to_pos (10 ^ Z.of_nat (String.length frac))))%Q.

(** Where the remainder [R] of a division by [D] lies in [0, D): at zero,
    below the middle, at the middle or above it. *)
Definition located (R D : Z) (l : location) : Prop :=
  match l with
  | loc_Exact => R = 0
  | loc_Inexact Lt => 0 < 2 * R < D
  | loc_Inexact Eq => 2 * R = D
  | loc_Inexact Gt => D < 2 * R
  end.

(** A shifted mantissa with its two bits, for the quotient of [N] by [D]. *)
Definition record_located (N D : Z) (mrs : shr_record) : Prop :=
  0 <= shr_m mrs
  /\ 0 <= N - shr_m mrs * D < D
  /\ located (N - shr_m mrs * D) D (loc_of_shr_record mrs).

(** A finite binary64 number. *)
Definition finite_number (y : Float.float) : Prop :=
  match y with
  | S754_zero _ => True
  | S754_finite _ m e => bounded Float.prec Float.emax m e = true
  | _ => False
  end.

(** The least number that rounds to infinity: the middle of the greatest
    binary64 number and [2 ^ 1024]. *)
Definition overflow_threshold : Z := (2 ^ 54 - 1) * 2 ^ 970.

(** [x] is what a number [v >= 0] rounds to: a finite binary64 number that
    no other is nearer to [v], for [v] below the threshold of overflow, and
    plus infinity from the threshold on. *)
Definition nearest_to (v : Q) (x : Float.float) : Prop :=
  match x with
  | S754_nan => False
  | S754_infinity s => s = false /\ (inject_Z overflow_threshold <= v)%Q
  | _ =>
      Float.is_nonneg x
      /\ (v < inject_Z overflow_threshold)%Q
      /\ forall y : Float.float,
           finite_number y ->
           (Qabs (Float.to_Q x - v) <= Qabs (Float.to_Q y - v))%Q
  end.

(** [calculate_tax] *)
Definition calculate_tax (amount_numeric : string) (tax_rate : Float.float)
  : result Float.float :=
  numeric_value <- numeric_value_of amount_numeric ;;
  Ok (Float.mul numeric_value tax_rate).

(** ** Dates *)

Module Date.

(** A [datetime.datetime]: its fields, and the offset from UTC of its time
    zone, in seconds, [None] when it has no time zone. *)
Record datetime : Type := mk_datetime {
  year : Z; month : Z; day : Z;
  hour : Z; minute : Z; second : Z; microsecond : Z;
  utcoffset : option Z
}.

(** [dt.date()] *)
Definition date (dt : datetime) : Z * Z * Z := (year dt, month dt, day dt).

(** Comparison of two sequences of numbers, first difference first. *)
Fixpoint lex_compare (a b : list Z) : comparison :=
  match a, b with
  | [], [] => Eq
  | [], _ :: _ => Lt
  | _ :: _, [] => Gt
  | x :: a', y :: b' =>
      match x ?= y with
      | Eq => lex_compare a' b'
      | c => c
      end
  end.

Definition fields (dt : datetime) : list Z :=
  [year dt; month dt; day dt; hour dt; minute dt; second dt; microsecond dt].

Definition leap (y : Z) : bool :=
  ((y mod 4 =? 0) && negb (y mod 100 =? 0)) || (y mod 400 =? 0).

(** [dt.toordinal()]: the number of the day, 1 for 1 January of year 1. *)
Definition days_before_year (y : Z) : Z :=
  let y1 := y - 1 in y1 * 365 + y1 / 4 - y1 / 100 + y1 / 400.

Definition days_before_month (y m : Z) : Z :=
  nth (Z.to_nat (m - 1)) [0; 31; 59; 90; 120; 151; 181; 212; 243; 273; 304; 334] 0
  + (if (2 <? m) && leap y then 1 else 0).

Definition toordinal (dt : datetime) : Z :=
  days_before_year (year dt) + days_before_month (year dt) (month dt) + day dt.

(** Microseconds from the start of day 0 to the time the fields show. *)
Definition wall_clock (dt : datetime) : Z :=
  (((toordinal dt * 24 + hour dt) * 60 + minute dt) * 60 + second dt) * 1000000
  + microsecond dt.

(** The same, for a datetime at [offset] seconds from UTC, on the clock of
    UTC. *)
Definition instant (dt : datetime) (offset : Z) : Z :=
  wall_clock dt - offset * 1000000.

(** The comparison behind [a < b] on datetimes. Two datetimes without time
    zone, or at the same offset, compare by their fields, the year first;
    two datetimes at different offsets compare as instants; one with a time
    zone and one without do not compare, and [<] raises [TypeError]. *)
Definition compare (a b : datetime) : option comparison :=
  match utcoffset a, utcoffset b with
  | None, None => Some (lex_compare (fields a) (fields b))
  | Some oa, Some ob =>
      if oa =? ob then Some (lex_compare (fields a) (fields b))
      else Some (instant a oa ?= instant b ob)
  | _, _ => None
  end.

(** [a < b], [None] when it raises. *)
Definition ltb (a b : datetime) : option bool :=
  match compare a b with
  | Some Lt => Some true
  | Some _ => Some false
  | None => None
  end.

(** Order of calendar dates: [a] is on or before [b]. *)
Definition date_le (a b : Z * Z * Z) : Prop :=
  let '(ya, ma, da) := a in
  let '(yb, mb, db) := b in
  ya < yb \/ (ya = yb /\ (ma < mb \/ (ma = mb /\ da <= db))).

(** Ranges of the fields of a [datetime]. *)
Definition days_in_month (y m : Z) : Z :=
  if m =? 2 then (if leap y then 29 else 28)
  else if (m =? 4) || (m =? 6) || (m =? 9) || (m =? 11) then 30
  else 31.

Definition valid_date (y m d : Z) : bool :=
  (1 <=? y) && (y <=? 9999) && (1 <=? m) && (m <=? 12)
  && (1 <=? d) && (d <=? days_in_month y m).

Definition valid_time (h mi s : Z) : bool :=
  (0 <=? h) && (h <=? 23) && (0 <=? mi) && (mi <=? 59)
  && (0 <=? s) && (s <=? 59).

End Date.

Section ValidateDates.

(** [date_parser.parse]: the datetime read from a string, or [None] when
    the parser raises. *)
Variable parse : string -> option Date.datetime.

Definition parse_date (text : string) : result Date.datetime :=
  match parse text with
  | Some dt => Ok dt
  | None => Raise (DateParseError text)
  end.

(** [validate_dates] *)
Definition validate_dates (date_signed date_recorded : string) : result unit :=
  signed <- parse_date date_signed ;;
  recorded <- parse_date date_recorded ;;
  match Date.ltb recorded signed with
  | None => Raise NaiveAwareError
  | Some true =>
      Raise (DateOrderError (Date.date signed) (Date.date recorded))
  | Some false => Ok tt
  end.

End ValidateDates.

(** ** A reader of ISO dates

    A parser for [YYYY-MM-DD], optionally followed by a space or [T] and
    [HH:MM] or [HH:MM:SS], and then optionally by an offset from UTC,
    [+HH:MM], [-HH:MM] or [Z]. It stands for [date_parser.parse] where the
    validator is run on concrete strings: on these formats the library reads
    the same fields, a date without a time is read as midnight, and a time
    with an offset is read as a datetime with that time zone. It reads no
    other format. *)
Module Iso.

Definition digit (c : ascii) : option Z :=
  if Str.is_digit c then Some (Z.of_N (Str.ord c) - 48) else None.

Definition two (a b : ascii) : option Z :=
  match digit a, digit b with
  | Some x, Some y => Some (10 * x + y)
  | _, _ => None
  end.

Definition four (a b c d : ascii) : option Z :=
  match two a b, two c d with
  | Some x, Some y => Some (100 * x + y)
  | _, _ => None
  end.

(** The offset after the time, in seconds: nothing, [Z], or a sign and
    [HH:MM]. The outer [None] is a text that is no offset. *)
Definition parse_offset (s : string) : option (option Z) :=
  match s with
  | EmptyString => Some None
  | String z EmptyString => if Ascii.eqb z "Z" then Some (Some 0) else None
  | String sign (String h1 (String h2 (String c (String m1 (String m2 EmptyString))))) =>
      if Ascii.eqb c ":" then
        match two h1 h2, two m1 m2 with
        | Some h, Some mi =>
            if (h <=? 23) && (mi <=? 59) then
              if Ascii.eqb sign "+" then Some (Some (h * 3600 + mi * 60))
              else if Ascii.eqb sign "-" then Some (Some (- (h * 3600 + mi * 60)))
              else None
            else None
        | _, _ => None
        end
      else None
  | _ => None
  end.

(** The seconds after [HH:MM], when they are written, and what follows. *)
Definition parse_seconds (s : string) : option (Z * string) :=
  match s with
  | String c (String s1 (String s2 rest)) =>
      if Ascii.eqb c ":" then
        match two s1 s2 with
        | Some sec => Some (sec, rest)
        | None => None
        end
      else Some (0, s)
  | _ => Some (0, s)
  end.

(** The time after the date: nothing, or a separator, [HH:MM], the seconds
    when written, and the offset when written. *)
Definition parse_time (s : string) : option (Z * Z * Z * option Z) :=
  match s with
  | EmptyString => Some (0, 0, 0, None)
  | String sep (String h1 (String h2 (String c1 (String m1 (String m2 rest))))) =>
      if (Ascii.eqb sep " " || Ascii.eqb sep "T") && Ascii.eqb c1 ":" then
        match two h1 h2, two m1 m2, parse_seconds rest with
        | Some h, Some mi, Some (sec, rest') =>
            match parse_offset rest' with
            | Some offset => Some (h, mi, sec, offset)
            | None => None
            end
        | _, _, _ => None
        end
      else None
  | _ => None
  end.

Definition parse (s : string) : option Date.datetime :=
  match s with
  | String y1 (String y2 (String y3 (String y4 (String c1
      (String m1 (String m2 (String c2 (String d1 (String d2 rest))))))))) =>
      if Ascii.eqb c1 "-" && Ascii.eqb c2 "-" then
        match four y1 y2 y3 y4, two m1 m2, two d1 d2, parse_time rest with
        | Some y, Some m, Some d, Some (h, mi, sec, offset) =>
            if Date.valid_date y m d && Date.valid_time h mi sec
            then Some (Date.mk_datetime y m d h mi sec 0 offset)
            else None
        | _, _, _, _ => None
        end
      else None
  | _ => None
  end.

(** The text [YYYY-MM-DD] of a date. *)
Definition digit_char (n : Z) : ascii := ascii_of_N (Z.to_N (48 + n mod 10)).

Definition show2 (n : Z) (rest : string) : string :=
  String (digit_char (n / 10)) (String (digit_char n) rest).

Definition show_date (y m d : Z) : string :=
  show2 (y / 100) (show2 y (String "-" (show2 m (String "-" (show2 d ""))))).

End Iso.

(** ** The county registry and its resolver *)

(** An entry of [counties.json]. *)
Record county_record : Type := mk_county_record {
  name : string;
  tax_rate : Float.float
}.

(** [a < b] on scores. *)
Definition score_ltb (a b : Q) : bool := negb (Qle_bool b a).

(** The greatest of a list of scores, when there is one. *)
Fixpoint best_score (scores : list Q) : option Q :=
  match scores with
  | [] => None
  | s :: rest =>
      match best_score rest with
      | None => Some s
      | Some b => Some (if score_ltb s b then b else s)
      end
  end.

Section Resolver.

(** The scorer [process.extractOne] applies to the query and each choice;
    its scores are numbers between 0 and 100. *)
Variable scorer : string -> string -> Q.

(** The loop of [process.extractOne]: [result] is the best choice so far,
    with its score and its position, and a later choice replaces it only
    with a strictly greater score. *)
Fixpoint extractOne_loop (query : string) (choices : list string) (key : nat)
         (result : option (string * Q * nat)) : option (string * Q * nat) :=
  match choices with
  | [] => result
  | choice :: rest =>
      let score := scorer query choice in
      let result :=
        match result with
        | None => Some (choice, score, key)
        | Some (_, best, _) =>
            if score_ltb best score then Some (choice, score, key) else result
        end in
      extractOne_loop query rest (S key) result
  end.

(** [process.extractOne(query, choices)]: the first choice of greatest
    score, or [None] when there is no choice. *)
Definition extractOne (query : string) (choices : list string)
  : option (string * Q * nat) :=
  extractOne_loop query choices 0%nat None.

(** What the loop of [extractOne] keeps true of its running result after
    the choices [seen]. *)
Definition loop_invariant (query : string) (seen : list string) (key : nat)
           (result : option (string * Q * nat)) : Prop :=
  key = List.length seen /\
  match result with
  | None => seen = []
  | Some (m, sc, k) =>
      sc = scorer query m
      /\ nth_error seen k = Some m
      /\ (forall c, In c seen -> (scorer query c <= sc)%Q)
      /\ (forall j c, (j < k)%nat -> nth_error seen j = Some c ->
                      (scorer query c < sc)%Q)
  end.

(** [normalize_county] *)
Definition normalize_county (input_county : string) (counties : list county_record)
  : result string :=
  let names := map name counties in
  match extractOne input_county names with
  | None => Raise UnpackNoneError
  | Some (best_match, score, _) =>
      if score_ltb score 70 then Raise (NoMatchError input_county)
      else Ok best_match
  end.

(** The score [normalize_county] compares with 70. *)
Definition match_score (input_county : string) (counties : list county_record)
  : option Q :=
  match extractOne input_county (map name counties) with
  | None => None
  | Some (_, score, _) => Some score
  end.

End Resolver.

(** ** The run of [process_deed] after extraction *)

(** The fields [extract_with_llm] returns. *)
Record deed : Type := mk_deed {
  doc_id : string;
  county : string;
  state : string;
  date_signed : string;
  date_recorded : string;
  grantor : string;
  grantee : string;
  amount_numeric : string;
  amount_text : string;
  apn : string;
  status : string
}.


(** What a successful run prints. *)
Record summary : Type := mk_summary {
  normalized_county : string;
  rate : Float.float;
  tax_due : Float.float
}.

(** [next(c["tax_rate"] for c in counties if c["name"] == normalized_county)] *)
Fixpoint next_tax_rate (normalized : string) (counties : list county_record)
  : result Float.float :=
  match counties with
  | [] => Raise StopIteration
  | c :: rest =>
      if String.eqb (name c) normalized then Ok (tax_rate c)
      else next_tax_rate normalized rest
  end.

Section ProcessDeed.

Variable parse : string -> option Date.datetime.
Variable scorer : string -> string -> Q.

(** [process_deed], from the extracted [data] and the loaded [counties]
    on. *)
Definition process_deed (data : deed) (counties : list county_record)
  : result summary :=
  normalized <- normalize_county scorer (county data) counties ;;
  rate <- next_tax_rate normalized counties ;;
  validate_dates parse (date_signed data) (date_recorded data) ;;;
  validate_money (amount_numeric data) (amount_text data) ;;;
  due <- calculate_tax (amount_numeric data) rate ;;
  Ok (mk_summary normalized rate due).

End ProcessDeed.

(** ** A scorer and a registry for concrete runs

    The scorer counts the positions at which two strings agree. It has the
    properties the statement about exact names asks of the library's scorer:
    a string scores 100 against itself, no score is above 100, and two
    different strings score less than 100. *)
Module Sample.

Fixpoint agreeing (a b : string) : nat :=
  match a, b with
  | String x a', String y b' =>
      ((if Ascii.eqb x y then 1 else 0) + agreeing a' b')%nat
  | _, _ => 0%nat
  end.

Definition scorer (a b : string) : Q :=
  if String.eqb a b then 100%Q
  else
    let n := Nat.max (String.length a) (String.length b) in
    inject_Z (Z.of_nat (agreeing a b) * 99 / Z.of_nat n).

(** The same scorer, but that an empty string scores 0 against any string,
    itself included, as the library's default scorer does. *)
Definition scorer_empty_zero (a b : string) : Q :=
  if String.eqb a "" || String.eqb b "" then 0%Q else scorer a b.

(** The registry used in the examples. *)
Definition counties : list county_record :=
  [ mk_county_record "Santa Clara" (Float.of_decimal 1 2);
    mk_county_record "Santa Cruz" (Float.of_decimal 125 4);
    mk_county_record "San Mateo" (Float.of_decimal 1 2) ].

End Sample.


(** ** Further definitions: datetimes as instants *)

(** Time of day of a datetime, in microseconds since midnight. *)
Definition time_of_day (dt : Date.datetime) : Z :=
  ((Date.hour dt * 60 + Date.minute dt) * 60 + Date.second dt) * 1000000
  + Date.microsecond dt.

(** The ranges [datetime] keeps its time fields in. *)
Definition time_in_range (dt : Date.datetime) : Prop :=
  0 <= Date.hour dt < 24 /\ 0 <= Date.minute dt < 60
  /\ 0 <= Date.second dt < 60 /\ 0 <= Date.microsecond dt < 1000000.

(** Order of calendar dates: [a] is before [b]. *)
Definition date_lt (a b : Z * Z * Z) : Prop :=
  let '(ya, ma, da) := a in
  let '(yb, mb, db) := b in
  ya < yb \/ (ya = yb /\ (ma < mb \/ (ma = mb /\ da < db))).

(** ** Further definitions: amounts *)

(** Number of points in a string. *)
Fixpoint count_points (s : string) : nat :=
  match s with
  | EmptyString => 0%nat
  | String c s' => ((if Str.is_dot c then 1 else 0) + count_points s')%nat
  end.

(** A binary64 number that is zero or positive, and not infinite. *)
Definition is_finite_nonneg (x : Float.float) : Prop :=
  Float.is_nonneg x /\ x <> S754_infinity false.

(** ** Further definitions: the dictionaries [process_deed] reads

    [extract_with_llm] returns the object [json.loads] builds and
    [load_counties] a list of such objects; [process_deed] and
    [normalize_county] read them by key, and a key that is absent raises
    [KeyError]. Here the values of the extracted fields are strings, and an
    entry of the registry is reduced to the two keys that are read. *)
Module Json.

(** A dictionary with string values. *)
Definition dict : Type := list (string * string).

(** [d[key]], [None] when the key is absent. *)
Fixpoint get (d : dict) (key : string) : option string :=
  match d with
  | [] => None
  | (k, v) :: rest => if String.eqb k key then Some v else get rest key
  end.

(** An entry of the registry: the values of ["name"] and ["tax_rate"],
    [None] for an absent key. *)
Record entry : Type := mk_entry {
  entry_name : option string;
  entry_tax_rate : option Float.float
}.

(** How a run ends: a value, a [KeyError], or one of the exceptions of the
    validators. *)
Inductive outcome (A : Type) : Type :=
| Returned (a : A)
| KeyError (key : string)
| Failed (e : exn).
Arguments Returned {A} a.
Arguments KeyError {A} key.
Arguments Failed {A} e.

Definition and_then {A B : Type} (o : outcome A) (k : A -> outcome B)
  : outcome B :=
  match o with
  | Returned a => k a
  | KeyError key => KeyError key
  | Failed e => Failed e
  end.

(** The outcome of a call of one of the validators. *)
Definition call {A : Type} (r : result A) : outcome A :=
  match r with
  | Ok a => Returned a
  | Raise e => Failed e
  end.

(** [d[key]] *)
Definition item (d : dict) (key : string) : outcome string :=
  match get d key with
  | Some v => Returned v
  | None => KeyError key
  end.

(** [[c["name"] for c in counties]] *)
Fixpoint names_of (counties : list entry) : outcome (list string) :=
  match counties with
  | [] => Returned []
  | c :: rest =>
      match entry_name c with
      | None => KeyError "name"
      | Some n => and_then (names_of rest) (fun ns => Returned (n :: ns))
      end
  end.

(** [next(c["tax_rate"] for c in counties if c["name"] == normalized_county)] *)
Fixpoint next_tax_rate (normalized : string) (counties : list entry)
  : outcome Float.float :=
  match counties with
  | [] => Failed StopIteration
  | c :: rest =>
      match entry_name c with
      | None => KeyError "name"
      | Some n =>
          if String.eqb n normalized then
            match entry_tax_rate c with
            | Some r => Returned r
            | None => KeyError "tax_rate"
            end
          else next_tax_rate normalized rest
      end
  end.

Section Run.

Variable parse : string -> option Date.datetime.
Variable scorer : string -> string -> Q.

(** [normalize_county], its registry a list of dictionaries. *)
Definition normalize_county (input_county : string) (counties : list entry)
  : outcome string :=
  and_then (names_of counties) (fun names =>
  match extractOne scorer input_county names with
  | None => Failed UnpackNoneError
  | Some (best_match, score, _) =>
      if score_ltb score 70 then Failed (NoMatchError input_county)
      else Returned best_match
  end).

(** [process_deed] from the dictionary [data] and the list [counties] on:
    the arguments of a call are looked up before the call. *)
Definition process_deed (data : dict) (counties : list entry)
  : outcome summary :=
  and_then (item data "county") (fun county =>
  and_then (normalize_county county counties) (fun normalized =>
  and_then (next_tax_rate normalized counties) (fun rate =>
  and_then (item data "date_signed") (fun signed =>
  and_then (item data "date_recorded") (fun recorded =>
  and_then (call (validate_dates parse signed recorded)) (fun _ =>
  and_then (item data "amount_numeric") (fun numeric =>
  and_then (item data "amount_text") (fun text =>
  and_then (call (validate_money numeric text)) (fun _ =>
  and_then (item data "amount_numeric") (fun numeric' =>
  and_then (call (calculate_tax numeric' rate)) (fun due =>
  Returned (mk_summary normalized rate due)))))))))))).

End Run.

(** The entry of a registry record: both keys are there. *)
Definition of_record (c : county_record) : entry :=
  mk_entry (Some (name c)) (Some (tax_rate c)).

(** The dictionary of a record of extracted fields. *)
Definition of_deed (d : deed) : dict :=
  [ ("doc_id", doc_id d); ("county", county d); ("state", state d);
    ("date_signed", date_signed d); ("date_recorded", date_recorded d);
    ("grantor", grantor d); ("grantee", grantee d);
    ("amount_numeric", amount_numeric d); ("amount_text", amount_text d);
    ("apn", apn d); ("status", status d) ].

End Json.
(** * Properties *)

(** ** Strings *)

Lemma startswith_spec (p s : string) :
  Str.startswith p s = true <-> exists post, s = p ++ post.
Proof.
  revert s; induction p as [|a p IH]; intros s; simpl.
  - split; [intros _; now exists s | reflexivity].
  - destruct s as [|b s].
    + split; [discriminate | intros [post H]; discriminate].
    + rewrite andb_true_iff, Ascii.eqb_eq, IH. split.
      * intros [-> [post ->]]. now exists post.
      * intros [post H]. injection H as -> ->. split; [reflexivity | now exists post].
Qed.

Lemma contains_spec (sub s : string) :
  Str.contains sub s = true <-> occurs_in sub s.
Proof.
  unfold occurs_in. induction s as [|c s IH].
  - simpl. rewrite orb_false_r, startswith_spec. split.
    + intros [post H]. now exists "", post.
    + intros [pre [post H]]. destruct pre; [now exists post | discriminate].
  - cbn [Str.contains]. rewrite orb_true_iff, startswith_spec, IH. split.
    + intros [[post H] | [pre [post H]]].
      * now exists "", post.
      * exists (String c pre), post. simpl. now rewrite H.
    + intros [pre [post H]]. destruct pre as [|c' pre].
      * left. now exists post.
      * right. simpl in H. injection H as _ H. now exists pre, post.
Qed.

Lemma lower_char_idempotent (c : ascii) :
  Str.lower_char (Str.lower_char c) = Str.lower_char c.
Proof.
  destruct c as [[] [] [] [] [] [] [] []]; reflexivity.
Qed.

Lemma lower_idempotent (s : string) : Str.lower (Str.lower s) = Str.lower s.
Proof.
  induction s as [|c s IH]; simpl; [reflexivity|].
  now rewrite lower_char_idempotent, IH.
Qed.

(** ** Written amounts *)

Lemma text_amount_to_number_eq (s : string) :
  text_amount_to_number s =
  (if Str.contains "one million" (Str.lower s) then 1000000 else 0)
  + (if Str.contains "two hundred thousand" (Str.lower s) then 200000 else 0).
Proof.
  unfold text_amount_to_number.
  destruct (Str.contains "one million" _), (Str.contains "two hundred thousand" _);
    reflexivity.
Qed.

(** *** Letters of either case *)

Lemma lower_char_capital (c : ascii) :
  Str.lower_char (capital c) = Str.lower_char c.
Proof.
  destruct c as [[] [] [] [] [] [] [] []]; reflexivity.
Qed.

Lemma capital_lower_plain (c : ascii) :
  plain_char (Str.lower_char c) = true -> capital (Str.lower_char c) = capital c.
Proof.
  destruct c as [[] [] [] [] [] [] [] []]; intros H;
    first [reflexivity | discriminate H].
Qed.

Lemma lower_char_plain (c : ascii) :
  plain_char c = true -> Str.lower_char c = c.
Proof.
  destruct c as [[] [] [] [] [] [] [] []]; intros H;
    first [reflexivity | discriminate H].
Qed.

Lemma lower_char_same (c p : ascii) :
  plain_char p = true ->
  Str.lower_char c = p <-> Ascii.eqb (capital c) (capital p) = true.
Proof.
  intros Hp. rewrite Ascii.eqb_eq. split.
  - intros <-. symmetry. now apply capital_lower_plain.
  - intros H. rewrite <- (lower_char_capital c), H, lower_char_capital.
    now apply lower_char_plain.
Qed.

Lemma lower_same_letters (part phrase : string) :
  Str.forallb plain_char phrase = true ->
  Str.lower part = phrase <-> same_letters part phrase = true.
Proof.
  revert part; induction phrase as [|p phrase IH]; intros [|c part] Hp; simpl.
  - split; reflexivity.
  - split; discriminate.
  - split; discriminate.
  - simpl in Hp. apply andb_true_iff in Hp as [Hp Hps].
    rewrite andb_true_iff, <- (lower_char_same c p Hp), <- (IH part Hps).
    split; [intros [= -> ->]; auto | intros [-> ->]; reflexivity].
Qed.

Lemma same_letters_lower (a b : string) :
  same_letters a b = true -> Str.lower a = Str.lower b.
Proof.
  revert b; induction a as [|x a IH]; intros [|y b]; simpl;
    try reflexivity; try discriminate.
  rewrite andb_true_iff, Ascii.eqb_eq. intros [Hc Hs].
  rewrite <- (lower_char_capital x), Hc, lower_char_capital.
  now rewrite (IH b Hs).
Qed.

Lemma lower_capitals (s : string) : Str.lower (capitals s) = Str.lower s.
Proof.
  induction s as [|c s IH]; simpl; [reflexivity|].
  now rewrite lower_char_capital, IH.
Qed.

Lemma lower_app (a b : string) :
  Str.lower (a ++ b) = Str.lower a ++ Str.lower b.
Proof.
  induction a as [|c a IH]; simpl; [reflexivity | now rewrite IH].
Qed.

Lemma lower_split (s a b : string) :
  Str.lower s = a ++ b ->
  exists sa sb, s = sa ++ sb /\ Str.lower sa = a /\ Str.lower sb = b.
Proof.
  revert s; induction a as [|c a IH]; intros s H.
  - exists "", s. auto.
  - destruct s as [|x s]; [discriminate|].
    simpl in H. injection H as Hc H.
    destruct (IH s H) as (sa & sb & -> & Ha & Hb).
    exists (String x sa), sb. simpl. now rewrite Hc, Ha.
Qed.

(** A phrase occurs in the lowercased text exactly when it occurs in the
    text in some case. *)
Lemma occurs_in_lower (phrase s : string) :
  Str.forallb plain_char phrase = true ->
  occurs_in phrase (Str.lower s) <-> occurs_in_any_case phrase s.
Proof.
  intros Hp. unfold occurs_in, occurs_in_any_case. split.
  - intros (pre & post & H).
    destruct (lower_split s pre (phrase ++ post) H) as (spre & rest & -> & _ & H').
    destruct (lower_split rest phrase post H') as (part & spost & -> & Hpart & _).
    exists spre, part, spost. split; [reflexivity|].
    now apply lower_same_letters.
  - intros (pre & part & post & -> & H).
    exists (Str.lower pre), (Str.lower post).
    rewrite !lower_app. now rewrite (proj2 (lower_same_letters part phrase Hp) H).
Qed.

Lemma text_amount_same_letters (s s' : string) :
  same_letters s s' = true -> text_amount_to_number s = text_amount_to_number s'.
Proof.
  intros H. rewrite !text_amount_to_number_eq.
  now rewrite (same_letters_lower s s' H).
Qed.

Lemma text_amount_same_phrases (s s' : string) :
  (Str.contains "one million" (Str.lower s) = true
   <-> Str.contains "one million" (Str.lower s') = true) ->
  (Str.contains "two hundred thousand" (Str.lower s) = true
   <-> Str.contains "two hundred thousand" (Str.lower s') = true) ->
  text_amount_to_number s = text_amount_to_number s'.
Proof.
  intros H1 H2. rewrite !text_amount_to_number_eq.
  destruct (Str.contains "one million" (Str.lower s)),
           (Str.contains "one million" (Str.lower s')),
           (Str.contains "two hundred thousand" (Str.lower s)),
           (Str.contains "two hundred thousand" (Str.lower s'));
    try reflexivity;
    try (destruct H1 as [H1 H1']; (specialize (H1 eq_refl) || specialize (H1' eq_refl)); discriminate);
    try (destruct H2 as [H2 H2']; (specialize (H2 eq_refl) || specialize (H2' eq_refl)); discriminate).
Qed.

(** C5. The written-amount converter lowercases its input and returns the sum
    of the amounts of the vocabulary phrases that occur in the lowercased
    text: 1,000,000 when "one million" occurs and 200,000 when "two hundred
    thousand" occurs, occurrence being that of a contiguous substring. A
    phrase occurs in the lowercased text exactly when a part of the text is
    the phrase but for the case of its letters, by the table of the 26
    letters, so the phrases are found in capitals and in mixed case. Two
    texts in which the same vocabulary phrases occur convert to the same
    number, so nothing else in a text contributes. *)
Theorem text_amount_to_number_additive (s : string) :
  text_amount_to_number s = sum_found vocabulary (Str.lower s)
  /\ (exists found_million found_two_hundred : bool,
        (found_million = true <-> occurs_in "one million" (Str.lower s))
        /\ (found_million = true <-> occurs_in_any_case "one million" s)
        /\ (found_two_hundred = true
            <-> occurs_in "two hundred thousand" (Str.lower s))
        /\ (found_two_hundred = true
            <-> occurs_in_any_case "two hundred thousand" s)
        /\ text_amount_to_number s =
             (if found_million then 1000000 else 0)
             + (if found_two_hundred then 200000 else 0))
  /\ (forall s' : string,
        (occurs_in "one million" (Str.lower s)
         <-> occurs_in "one million" (Str.lower s')) ->
        (occurs_in "two hundred thousand" (Str.lower s)
         <-> occurs_in "two hundred thousand" (Str.lower s')) ->
        text_amount_to_number s = text_amount_to_number s')
  /\ (forall s' : string,
        (occurs_in_any_case "one million" s
         <-> occurs_in_any_case "one million" s') ->
        (occurs_in_any_case "two hundred thousand" s
         <-> occurs_in_any_case "two hundred thousand" s') ->
        text_amount_to_number s = text_amount_to_number s')
  /\ text_amount_to_number "ONE MILLION TWO HUNDRED THOUSAND DOLLARS" = 1200000
  /\ text_amount_to_number "Two Hundred Thousand" = 200000
  /\ text_amount_to_number "oNE mILLION" = 1000000
  /\ text_amount_to_number "ONE  MILLION" = 0.
Proof.
  assert (P1 : Str.forallb plain_char "one million" = true) by reflexivity.
  assert (P2 : Str.forallb plain_char "two hundred thousand" = true) by reflexivity.
  split; [|split; [|split; [|split; [|repeat split]]]].
  - rewrite text_amount_to_number_eq. simpl. lia.
  - exists (Str.contains "one million" (Str.lower s)),
           (Str.contains "two hundred thousand" (Str.lower s)).
    rewrite <- !(occurs_in_lower _ s) by reflexivity.
    rewrite !contains_spec.
    repeat (split; [reflexivity|]).
    apply text_amount_to_number_eq.
  - intros s' H1 H2. rewrite <- !contains_spec in H1, H2.
    now apply text_amount_same_phrases.
  - intros s' H1 H2.
    rewrite <- !(occurs_in_lower _ _ P1) in H1.
    rewrite <- !(occurs_in_lower _ _ P2) in H2.
    rewrite <- !contains_spec in H1, H2.
    now apply text_amount_same_phrases.
Qed.

Example text_amount_sample :
  text_amount_to_number "One Million Two Hundred Thousand Dollars" = 1200000.
Proof. reflexivity. Qed.

Example text_amount_unknown_words :
  text_amount_to_number "One Million Two Hundred Fifty Thousand Dollars" = 1000000.
Proof. reflexivity. Qed.

Lemma text_amount_to_number_values (s : string) :
  In (text_amount_to_number s) [0; 200000; 1000000; 1200000].
Proof.
  rewrite text_amount_to_number_eq.
  destruct (Str.contains "one million" _), (Str.contains "two hundred thousand" _);
    simpl; auto.
Qed.

(** C10. The written-amount converter returns one of 0, 200000, 1000000 and
    1200000, never a negative number, and the case of the letters does not
    count: a text converts to the same number as its lowercase form, as the
    text in capitals by the table of the 26 letters, and as any text that
    differs from it in the case of letters only. *)
Theorem text_amount_to_number_range (s : string) :
  In (text_amount_to_number s) [0; 200000; 1000000; 1200000]
  /\ 0 <= text_amount_to_number s
  /\ text_amount_to_number (Str.lower s) = text_amount_to_number s
  /\ text_amount_to_number (capitals s) = text_amount_to_number s
  /\ (forall s' : string,
        same_letters s s' = true ->
        text_amount_to_number s' = text_amount_to_number s)
  /\ text_amount_to_number "ONE MILLION" = text_amount_to_number "one million"
  /\ text_amount_to_number "one million" = 1000000
  /\ text_amount_to_number "TWO HUNDRED THOUSAND" = 200000
  /\ Str.lower "One Million DOLLARS" = "one million dollars".
Proof.
  split; [|split; [|split; [|split; [|split; [|repeat split]]]]].
  - apply text_amount_to_number_values.
  - rewrite text_amount_to_number_eq.
    destruct (Str.contains "one million" _), (Str.contains "two hundred thousand" _);
      lia.
  - rewrite !text_amount_to_number_eq. now rewrite lower_idempotent.
  - rewrite !text_amount_to_number_eq. now rewrite lower_capitals.
  - intros s' H. symmetry. now apply text_amount_same_letters.
Qed.

(** ** The county resolver *)

Lemma score_ltb_lt (a b : Q) : score_ltb a b = true <-> (a < b)%Q.
Proof.
  unfold score_ltb. rewrite negb_true_iff. split.
  - intros H. apply Qnot_le_lt. intros Hle.
    apply Qle_bool_iff in Hle. congruence.
  - intros H. destruct (Qle_bool b a) eqn:E; [|reflexivity].
    apply Qle_bool_iff in E. exfalso. exact (Qlt_not_le _ _ H E).
Qed.

Lemma score_ltb_ge (a b : Q) : score_ltb a b = false <-> (b <= a)%Q.
Proof.
  unfold score_ltb. rewrite negb_false_iff. apply Qle_bool_iff.
Qed.

(** [best_score] is an upper bound of the scores and one of them. *)
Lemma best_score_spec (scores : list Q) (b : Q) :
  best_score scores = Some b ->
  In b scores /\ forall s, In s scores -> (s <= b)%Q.
Proof.
  revert b; induction scores as [|s rest IH]; intros b; simpl; [discriminate|].
  destruct (best_score rest) as [b'|] eqn:E.
  - destruct (IH b' eq_refl) as [Hin Hub].
    destruct (score_ltb s b') eqn:L; intros [= <-].
    + split; [now right|]. intros x [<- | Hx]; [|now apply Hub].
      apply Qlt_le_weak. now apply score_ltb_lt.
    + split; [now left|]. intros x [<- | Hx]; [apply Qle_refl|].
      apply score_ltb_ge in L. eapply Qle_trans; [now apply Hub | exact L].
  - intros [= <-]. destruct rest; [|simpl in E; destruct (best_score rest); discriminate].
    split; [now left|]. intros x [<- | []]. apply Qle_refl.
Qed.

Lemma best_score_none (scores : list Q) :
  best_score scores = None <-> scores = [].
Proof.
  destruct scores as [|s rest]; simpl; [tauto|].
  destruct (best_score rest); split; discriminate.
Qed.

Section ResolverFacts.

Variable scorer : string -> string -> Q.

Lemma extractOne_loop_invariant (query : string) (choices seen : list string)
      (key : nat) (result : option (string * Q * nat)) :
  loop_invariant scorer query seen key result ->
  loop_invariant scorer query (seen ++ choices)%list (key + List.length choices)
                 (extractOne_loop scorer query choices key result).
Proof.
  revert seen key result.
  induction choices as [|choice rest IH]; intros seen key result Hinv.
  - simpl. now rewrite app_nil_r, Nat.add_0_r.
  - cbn [extractOne_loop].
    replace (seen ++ choice :: rest)%list with ((seen ++ [choice]) ++ rest)%list
      by now rewrite <- app_assoc.
    replace (key + List.length (choice :: rest))%nat
      with (S key + List.length rest)%nat by (simpl; lia).
    apply IH. destruct Hinv as [Hkey Hres]. split.
    { rewrite length_app. simpl. lia. }
    destruct result as [[[m sc] k]|].
    + destruct Hres as (Hsc & Hnth & Hub & Hfirst).
      destruct (score_ltb sc (scorer query choice)) eqn:L.
      * apply score_ltb_lt in L. split; [reflexivity|]. split; [|split].
        -- rewrite nth_error_app2 by lia. now rewrite Hkey, Nat.sub_diag.
        -- intros c Hc. apply in_app_or in Hc. destruct Hc as [Hc | [<- | []]].
           ++ eapply Qle_trans; [now apply Hub | now apply Qlt_le_weak].
           ++ apply Qle_refl.
        -- intros j c Hj Hc. rewrite nth_error_app1 in Hc by lia.
           eapply Qle_lt_trans; [|exact L]. apply Hub.
           eapply nth_error_In; eassumption.
      * apply score_ltb_ge in L. split; [assumption|]. split; [|split].
        -- assert (k < List.length seen)%nat
             by (apply nth_error_Some; congruence).
           now rewrite nth_error_app1.
        -- intros c Hc. apply in_app_or in Hc. destruct Hc as [Hc | [<- | []]];
             [now apply Hub | assumption].
        -- intros j c Hj Hc.
           assert (k < List.length seen)%nat
             by (apply nth_error_Some; congruence).
           rewrite nth_error_app1 in Hc by lia. eapply Hfirst; eassumption.
    + subst seen. simpl in Hkey. subst key. simpl.
      split; [reflexivity|]. split; [reflexivity|]. split.
      * intros c [<- | []]. apply Qle_refl.
      * intros j c Hj. lia.
Qed.

(** [extractOne] returns the first choice of greatest score. *)
Lemma extractOne_spec (query : string) (choices : list string) :
  match extractOne scorer query choices with
  | None => choices = []
  | Some (m, sc, k) =>
      sc = scorer query m
      /\ nth_error choices k = Some m
      /\ (forall c, In c choices -> (scorer query c <= sc)%Q)
      /\ (forall j c, (j < k)%nat -> nth_error choices j = Some c ->
                      (scorer query c < sc)%Q)
  end.
Proof.
  unfold extractOne.
  assert (H : loop_invariant scorer query [] 0 None) by (split; reflexivity).
  apply (extractOne_loop_invariant query choices) in H.
  destruct H as [_ H]. exact H.
Qed.

(** The score of the match is the greatest score over the choices. *)
Lemma extractOne_best_score (query : string) (choices : list string) :
  match extractOne scorer query choices,
        best_score (map (scorer query) choices) with
  | None, None => choices = []
  | Some (m, sc, _), Some b => In m choices /\ (sc == b)%Q
  | _, _ => False
  end.
Proof.
  pose proof (extractOne_spec query choices) as H.
  destruct (extractOne scorer query choices) as [[[m sc] k]|].
  - destruct H as (Hsc & Hnth & Hub & _).
    assert (Hin : In m choices) by (eapply nth_error_In; eassumption).
    destruct (best_score (map (scorer query) choices)) as [b|] eqn:E.
    + split; [assumption|].
      destruct (best_score_spec _ _ E) as [Hb Hbub].
      apply Qle_antisym.
      * apply Hbub. subst sc. now apply in_map.
      * apply in_map_iff in Hb. destruct Hb as (c & <- & Hc). now apply Hub.
    + apply best_score_none in E. destruct choices; [destruct Hin | discriminate].
  - subst choices. reflexivity.
Qed.

End ResolverFacts.

Lemma normalize_county_bounds_aux (scorer : string -> string -> Q)
      (input : string) (counties : list county_record) :
  match normalize_county scorer input counties with
  | Ok best_match => In best_match (map name counties)
  | Raise e => e = NoMatchError input \/ (e = UnpackNoneError /\ counties = [])
  end.
Proof.
  unfold normalize_county.
  pose proof (extractOne_spec scorer input (map name counties)) as H.
  destruct (extractOne scorer input (map name counties)) as [[[m sc] k]|].
  - destruct H as (_ & Hnth & _). apply nth_error_In in Hnth.
    destruct (score_ltb sc 70); [now left | assumption].
  - right. split; [reflexivity|]. now apply map_eq_nil in H.
Qed.

(** C3. The county resolver raises the unknown-county error exactly when the
    registry has names and the greatest score of the input against them is
    below 70; a name it returns is the name of a registry entry, and the only
    other way it ends is the unpacking error of an empty registry. *)
Theorem normalize_county_threshold (scorer : string -> string -> Q)
        (input : string) (counties : list county_record) :
  (normalize_county scorer input counties = Raise (NoMatchError input)
   <-> exists best : Q,
         best_score (map (scorer input) (map name counties)) = Some best
         /\ (best < 70)%Q)
  /\ match normalize_county scorer input counties with
     | Ok best_match => In best_match (map name counties)
     | Raise e => e = NoMatchError input \/ (e = UnpackNoneError /\ counties = [])
     end.
Proof.
  unfold normalize_county.
  pose proof (extractOne_best_score scorer input (map name counties)) as H.
  destruct (extractOne scorer input (map name counties)) as [[[m sc] k]|];
    destruct (best_score (map (scorer input) (map name counties))) as [b|];
    try contradiction.
  - destruct H as [Hin Heq].
    destruct (score_ltb sc 70) eqn:L.
    + apply score_ltb_lt in L. split; [|now left].
      split; [intros _ | reflexivity].
      exists b. split; [reflexivity|]. now rewrite <- Heq.
    + apply score_ltb_ge in L. split; [|assumption].
      split; [discriminate|].
      intros (b' & [= <-] & Hlt). rewrite <- Heq in Hlt.
      exfalso. exact (Qlt_not_le _ _ Hlt L).
  - split.
    + split; [discriminate | intros (b' & Hb & _); discriminate].
    + right. split; [reflexivity|]. now apply map_eq_nil in H.
Qed.

(** C9. On a registry with at least one entry the county resolver returns
    the name of a registry entry or raises the unknown-county error; on the
    empty registry [extractOne] has no candidate and the resolver ends with
    the unpacking error, not with the unknown-county error. *)
Theorem normalize_county_needs_entries (scorer : string -> string -> Q)
        (input : string) (counties : list county_record) :
  match counties with
  | [] =>
      extractOne scorer input (map name counties) = None
      /\ normalize_county scorer input counties = Raise UnpackNoneError
      /\ normalize_county scorer input counties <> Raise (NoMatchError input)
  | _ :: _ =>
      (exists best_match,
          normalize_county scorer input counties = Ok best_match
          /\ In best_match (map name counties))
      \/ normalize_county scorer input counties = Raise (NoMatchError input)
  end.
Proof.
  destruct counties as [|c rest].
  - repeat split. discriminate.
  - pose proof (normalize_county_bounds_aux scorer input (c :: rest)) as H.
    destruct (normalize_county scorer input (c :: rest)) as [m|e].
    + left. now exists m.
    + destruct H as [-> | [_ H]]; [now right | discriminate].
Qed.

(** The sample scorer gives 100 to a string against itself, at most 99 to
    two different strings. *)
Lemma agreeing_le (a b : string) :
  (Sample.agreeing a b <= Nat.max (String.length a) (String.length b))%nat.
Proof.
  revert b; induction a as [|x a IH]; intros [|y b]; simpl; try lia.
  specialize (IH b). destruct (Ascii.eqb x y); lia.
Qed.

Lemma sample_scorer_cases (a b : string) :
  (a = b /\ Sample.scorer a b = 100%Q)
  \/ (a <> b /\ exists z : Z, Sample.scorer a b = inject_Z z /\ z <= 99).
Proof.
  unfold Sample.scorer. destruct (String.eqb a b) eqn:E.
  - left. split; [now apply String.eqb_eq | reflexivity].
  - right. split; [now apply String.eqb_neq|].
    eexists. split; [reflexivity|].
    pose proof (agreeing_le a b) as H.
    set (n := Nat.max _ _) in *. set (k := Sample.agreeing a b) in *.
    destruct (Z.eq_dec (Z.of_nat n) 0) as [-> | Hn].
    + rewrite Z.div_0_r. lia.
    + apply Z.div_le_upper_bound; lia.
Qed.

Lemma sample_scorer_self (s : string) : (Sample.scorer s s == 100)%Q.
Proof.
  destruct (sample_scorer_cases s s) as [[_ ->] | [H _]];
    [reflexivity | contradiction].
Qed.

Lemma sample_scorer_bound (a b : string) : (Sample.scorer a b <= 100)%Q.
Proof.
  destruct (sample_scorer_cases a b) as [[_ ->] | [_ (z & -> & Hz)]].
  - apply Qle_refl.
  - change 100%Q with (inject_Z 100). rewrite <- Zle_Qle. lia.
Qed.

Lemma sample_scorer_perfect (a b : string) :
  (Sample.scorer a b == 100)%Q -> a = b.
Proof.
  destruct (sample_scorer_cases a b) as [[H _] | [_ (z & -> & Hz)]];
    [intros _; exact H|].
  change 100%Q with (inject_Z 100). rewrite inject_Z_injective. lia.
Qed.

(** The sample scorer that gives 0 to an empty string: 100 to a string that
    is not empty against itself, at most 99 to two different strings. *)
Lemma scorer_empty_zero_self (s : string) :
  s <> "" -> (Sample.scorer_empty_zero s s == 100)%Q.
Proof.
  intros Hs. unfold Sample.scorer_empty_zero.
  destruct (String.eqb_spec s ""); [contradiction|]. apply sample_scorer_self.
Qed.

Lemma scorer_empty_zero_bound (a b : string) :
  (Sample.scorer_empty_zero a b <= 100)%Q.
Proof.
  unfold Sample.scorer_empty_zero.
  destruct (String.eqb a "" || String.eqb b ""); [discriminate|].
  apply sample_scorer_bound.
Qed.

Lemma scorer_empty_zero_perfect (a b : string) :
  (Sample.scorer_empty_zero a b == 100)%Q -> a = b.
Proof.
  unfold Sample.scorer_empty_zero.
  destruct (String.eqb a "" || String.eqb b ""); [discriminate|].
  apply sample_scorer_perfect.
Qed.

Lemma scorer_empty_zero_empty (a : string) :
  (Sample.scorer_empty_zero a "" == 0)%Q.
Proof.
  unfold Sample.scorer_empty_zero. simpl. rewrite orb_true_r. reflexivity.
Qed.

(** A registry name resolves to itself with the score 100, when the scorer
    gives 100 to that name against itself, no more than 100 to any pair, and
    100 to no two different strings. *)
Lemma registry_name_fixed (scorer : string -> string -> Q)
      (counties : list county_record) (n : string) :
  (scorer n n == 100)%Q ->
  (forall a b, scorer a b <= 100)%Q ->
  (forall a b, (scorer a b == 100)%Q -> a = b) ->
  In n (map name counties) ->
  normalize_county scorer n counties = Ok n
  /\ exists score : Q,
       match_score scorer n counties = Some score /\ (score == 100)%Q.
Proof.
  intros Hself Hbound Hperfect Hin. unfold normalize_county, match_score.
  pose proof (extractOne_spec scorer n (map name counties)) as H.
  destruct (extractOne scorer n (map name counties)) as [[[m sc] k]|].
  - destruct H as (Hsc & _ & Hub & _).
    assert (Hsc100 : (sc == 100)%Q).
    { apply Qle_antisym; [subst sc; apply Hbound|].
      rewrite <- Hself. now apply Hub. }
    assert (m = n) by (symmetry; apply Hperfect; now rewrite <- Hsc).
    subst m. split.
    + destruct (score_ltb sc 70) eqn:L; [|reflexivity].
      apply score_ltb_lt in L. rewrite Hsc100 in L. discriminate.
    + now exists sc.
  - subst. destruct (map name counties); [destruct Hin | discriminate].
Qed.

(** C6, as amended. With a scorer that gives 100 to a string that is not
    empty against itself, never more than 100, and 100 to no two different
    strings, as the scorer of the library does, resolving the name of a
    registry entry, when that name is not empty, returns that name, and the
    score of the match is 100. *)
Theorem normalize_county_exact_name (scorer : string -> string -> Q)
        (counties : list county_record) (c : county_record) :
  (forall s, s <> "" -> scorer s s == 100)%Q ->
  (forall a b, scorer a b <= 100)%Q ->
  (forall a b, (scorer a b == 100)%Q -> a = b) ->
  In c counties ->
  name c <> "" ->
  normalize_county scorer (name c) counties = Ok (name c)
  /\ exists score : Q,
       match_score scorer (name c) counties = Some score /\ (score == 100)%Q.
Proof.
  intros Hself Hbound Hperfect Hin Hname.
  apply registry_name_fixed; try assumption.
  - now apply Hself.
  - now apply in_map.
Qed.

Lemma normalize_county_exact_name_witness :
  normalize_county Sample.scorer_empty_zero "Santa Cruz" Sample.counties
  = Ok "Santa Cruz"
  /\ exists score : Q,
       match_score Sample.scorer_empty_zero "Santa Cruz" Sample.counties
       = Some score
       /\ (score == 100)%Q.
Proof.
  apply (normalize_county_exact_name Sample.scorer_empty_zero Sample.counties
           (mk_county_record "Santa Cruz" (Float.of_decimal 125 4))
           scorer_empty_zero_self scorer_empty_zero_bound
           scorer_empty_zero_perfect).
  - simpl. right. left. reflexivity.
  - discriminate.
Defined.

(** C6, as stated, fails on a registry entry whose name is empty: the
    scorer gives 0 to an empty string against any string, itself included,
    so the entry is in the registry and resolving its name ends with the
    error of an unknown county, the best score being 0. *)
Lemma normalize_county_empty_name :
  In (mk_county_record "" (Float.of_decimal 1 2))
     [mk_county_record "Santa Clara" (Float.of_decimal 1 2);
      mk_county_record "" (Float.of_decimal 1 2)]
  /\ normalize_county Sample.scorer_empty_zero ""
       [mk_county_record "Santa Clara" (Float.of_decimal 1 2);
        mk_county_record "" (Float.of_decimal 1 2)]
     = Raise (NoMatchError "")
  /\ match_score Sample.scorer_empty_zero ""
       [mk_county_record "Santa Clara" (Float.of_decimal 1 2);
        mk_county_record "" (Float.of_decimal 1 2)]
     = Some 0%Q.
Proof.
  split; [right; left; reflexivity | split; reflexivity].
Qed.

(** The same for every scorer that gives less than 70 to an empty string
    against itself. *)
Lemma normalize_county_unscored_empty (scorer : string -> string -> Q)
      (tax_rate : Float.float) :
  (scorer "" "" < 70)%Q ->
  normalize_county scorer "" [mk_county_record "" tax_rate]
  = Raise (NoMatchError "").
Proof.
  intros H. unfold normalize_county. cbn.
  now rewrite (proj2 (score_ltb_lt _ _) H).
Qed.

Example normalize_county_sample :
  normalize_county Sample.scorer "Santa Clarra" Sample.counties = Ok "Santa Clara"
  /\ normalize_county Sample.scorer "Sacramento" Sample.counties
     = Raise (NoMatchError "Sacramento")
  /\ normalize_county Sample.scorer "Santa Clara" [] = Raise UnpackNoneError.
Proof. repeat split. Qed.

(** ** The order of the dates *)

Lemma parse_date_ok (parse : string -> option Date.datetime)
      (text : string) (dt : Date.datetime) :
  parse text = Some dt -> parse_date parse text = Ok dt.
Proof. unfold parse_date. now intros ->. Qed.

(** [validate_dates] on two strings that parse: it compares the two
    datetimes, all fields of them. *)
Lemma validate_dates_parsed (parse : string -> option Date.datetime)
      (date_signed date_recorded : string) (signed recorded : Date.datetime) :
  parse date_signed = Some signed ->
  parse date_recorded = Some recorded ->
  validate_dates parse date_signed date_recorded =
  match Date.ltb recorded signed with
  | None => Raise NaiveAwareError
  | Some true => Raise (DateOrderError (Date.date signed) (Date.date recorded))
  | Some false => Ok tt
  end.
Proof.
  intros Hs Hr. unfold validate_dates.
  now rewrite (parse_date_ok _ _ _ Hs), (parse_date_ok _ _ _ Hr).
Qed.

(** Two datetimes without time zone, or at the same offset, compare by
    their fields. *)
Lemma ltb_same_offset (a b : Date.datetime) :
  Date.utcoffset a = Date.utcoffset b ->
  Date.ltb a b =
  Some match Date.lex_compare (Date.fields a) (Date.fields b) with
       | Lt => true
       | _ => false
       end.
Proof.
  unfold Date.ltb, Date.compare. intros ->.
  destruct (Date.utcoffset b) as [o|]; [rewrite Z.eqb_refl|];
    destruct (Date.lex_compare (Date.fields a) (Date.fields b)); reflexivity.
Qed.

(** Two such datetimes with the same time of day compare as their dates. *)
Lemma ltb_same_time (a b : Date.datetime) :
  Date.utcoffset a = Date.utcoffset b ->
  Date.hour a = Date.hour b -> Date.minute a = Date.minute b ->
  Date.second a = Date.second b -> Date.microsecond a = Date.microsecond b ->
  (Date.ltb a b = Some false <-> Date.date_le (Date.date b) (Date.date a))
  /\ (Date.ltb a b = Some true <-> ~ Date.date_le (Date.date b) (Date.date a)).
Proof.
  intros Ho. rewrite (ltb_same_offset a b Ho). clear Ho.
  destruct a as [ya ma da ha mia sa ua oa], b as [yb mb db hb mib sb ub ob]; simpl.
  intros -> -> -> ->. unfold Date.fields, Date.date_le. cbn.
  rewrite !Z.compare_refl.
  destruct (Z.compare_spec ya yb), (Z.compare_spec ma mb), (Z.compare_spec da db);
    (split; split; intros Hcmp; try reflexivity; try discriminate;
     solve [lia | exfalso; lia]).
Qed.

(** When both strings are read as dates at the same time of day and the
    same offset, as two dates without a time are, [validate_dates] succeeds
    exactly when the recorded date is on or after the signed date, and
    otherwise raises the date-order error with both dates. *)
Lemma validate_dates_same_time (parse : string -> option Date.datetime)
      (date_signed date_recorded : string) (signed recorded : Date.datetime) :
  parse date_signed = Some signed ->
  parse date_recorded = Some recorded ->
  Date.utcoffset recorded = Date.utcoffset signed ->
  Date.hour recorded = Date.hour signed ->
  Date.minute recorded = Date.minute signed ->
  Date.second recorded = Date.second signed ->
  Date.microsecond recorded = Date.microsecond signed ->
  (validate_dates parse date_signed date_recorded = Ok tt
   <-> Date.date_le (Date.date signed) (Date.date recorded))
  /\ (validate_dates parse date_signed date_recorded = Ok tt
      \/ validate_dates parse date_signed date_recorded
         = Raise (DateOrderError (Date.date signed) (Date.date recorded))).
Proof.
  intros Hs Hr Ho Hh Hm Hsec Hu.
  rewrite (validate_dates_parsed _ _ _ _ _ Hs Hr).
  destruct (ltb_same_time recorded signed Ho Hh Hm Hsec Hu) as [Hf Ht].
  rewrite (ltb_same_offset recorded signed Ho) in *.
  destruct (Date.lex_compare (Date.fields recorded) (Date.fields signed)).
  - split; [|now left]. split; [intros _; now apply Hf | reflexivity].
  - split; [|now right]. split; [discriminate|].
    intros Hle. exfalso. now apply (proj1 Ht).
  - split; [|now left]. split; [intros _; now apply Hf | reflexivity].
Qed.

Example validate_dates_recorded_before_signed :
  validate_dates Iso.parse "2024-01-15" "2024-01-10"
  = Raise (DateOrderError (2024, 1, 15) (2024, 1, 10)).
Proof. reflexivity. Qed.

Example validate_dates_recorded_after_signed :
  validate_dates Iso.parse "2024-01-10" "2024-01-15" = Ok tt.
Proof. reflexivity. Qed.

(** C1. On a signed datetime of 15 January 2024 at 10:00 and a recorded
    datetime of the same day at 09:00, the recorded calendar date is on or
    after the signed one, and [validate_dates] raises the date-order error,
    carrying twice the same date: it compares the times of day along with
    the dates. *)
Theorem validate_dates_compares_time_of_day :
  Iso.parse "2024-01-15 10:00" = Some (Date.mk_datetime 2024 1 15 10 0 0 0 None)
  /\ Iso.parse "2024-01-15 09:00" = Some (Date.mk_datetime 2024 1 15 9 0 0 0 None)
  /\ Date.date_le (2024, 1, 15) (2024, 1, 15)
  /\ validate_dates Iso.parse "2024-01-15 10:00" "2024-01-15 09:00"
     = Raise (DateOrderError (2024, 1, 15) (2024, 1, 15)).
Proof.
  repeat split. unfold Date.date_le. lia.
Qed.

(** ** Dates that cannot be read *)

Lemma digit_of_digit_char (n : Z) : Iso.digit (Iso.digit_char n) = Some (n mod 10).
Proof.
  unfold Iso.digit_char.
  assert (H : 0 <= n mod 10 < 10) by (apply Z.mod_pos_bound; lia).
  destruct (n mod 10) as [|p|p]; [reflexivity | | lia].
  do 4 (destruct p as [p|p|]; try lia; try reflexivity).
Qed.

Lemma two_of_show2 (n : Z) :
  0 <= n < 100 ->
  Iso.two (Iso.digit_char (n / 10)) (Iso.digit_char n) = Some n.
Proof.
  intros H. unfold Iso.two. rewrite !digit_of_digit_char. f_equal.
  Z.to_euclidean_division_equations. lia.
Qed.

Lemma four_of_show2 (n : Z) :
  0 <= n < 10000 ->
  Iso.four (Iso.digit_char (n / 100 / 10)) (Iso.digit_char (n / 100))
           (Iso.digit_char (n / 10)) (Iso.digit_char n) = Some n.
Proof.
  intros H. unfold Iso.four, Iso.two. rewrite !digit_of_digit_char. f_equal.
  Z.to_euclidean_division_equations. lia.
Qed.

(** The reader of ISO dates reads the text [YYYY-MM-DD] of every date of the
    calendar, as that date at midnight. *)
Lemma iso_parse_show_date (y m d : Z) :
  Date.valid_date y m d = true ->
  Iso.parse (Iso.show_date y m d) = Some (Date.mk_datetime y m d 0 0 0 0 None).
Proof.
  intros Hvalid. pose proof Hvalid as Hv. unfold Date.valid_date in Hv.
  rewrite !andb_true_iff, !Z.leb_le in Hv.
  assert (Hd : d <= 31).
  { destruct Hv as [_ Hv]. unfold Date.days_in_month in Hv.
    destruct (m =? 2); [destruct (Date.leap y); lia|].
    destruct ((m =? 4) || (m =? 6) || (m =? 9) || (m =? 11)); lia. }
  unfold Iso.parse, Iso.show_date, Iso.show2.
  change (Ascii.eqb "-" "-") with true. cbv beta iota. simpl andb.
  rewrite four_of_show2, !two_of_show2 by lia.
  cbv beta iota. simpl Iso.parse_time. cbv beta iota.
  rewrite Hvalid. reflexivity.
Qed.

(** C8. When the parser cannot read the signed-date string or cannot read
    the recorded-date string, [validate_dates] raises the date-parse error
    for the first of the two strings that cannot be read; and the reader of
    ISO dates reads [YYYY-MM-DD] for every date of the calendar. *)
Theorem validate_dates_unparseable (parse : string -> option Date.datetime)
        (date_signed date_recorded : string) (y m d : Z) :
  (parse date_signed = None \/ parse date_recorded = None ->
   exists text : string,
     validate_dates parse date_signed date_recorded = Raise (DateParseError text)
     /\ parse text = None
     /\ (text = date_signed
         \/ (text = date_recorded /\ parse date_signed <> None)))
  /\ (Date.valid_date y m d = true ->
      Iso.parse (Iso.show_date y m d) = Some (Date.mk_datetime y m d 0 0 0 0 None)).
Proof.
  split; [|apply iso_parse_show_date].
  unfold validate_dates, parse_date. intros H.
  destruct (parse date_signed) as [signed|] eqn:Es.
  - destruct H as [H | H]; [discriminate|].
    exists date_recorded. rewrite H. simpl. repeat split; auto.
    right. split; [reflexivity | discriminate].
  - exists date_signed. simpl. auto.
Qed.

Lemma validate_dates_unparseable_witness :
  (exists text : string,
     validate_dates Iso.parse "2024-01-15" "not a date"
     = Raise (DateParseError text)
     /\ Iso.parse text = None
     /\ (text = "2024-01-15"
         \/ (text = "not a date" /\ Iso.parse "2024-01-15" <> None)))
  /\ Iso.parse (Iso.show_date 2024 2 29)
     = Some (Date.mk_datetime 2024 2 29 0 0 0 0 None).
Proof.
  destruct (validate_dates_unparseable Iso.parse "2024-01-15" "not a date"
              2024 2 29) as [H1 H2].
  split; [apply H1; right; reflexivity | apply H2; reflexivity].
Defined.

(** * Binary64 arithmetic

    What the validators need of binary64 rounding: the shape of the result
    of [binary_round_aux], that the numbers read from decimal numerals are
    binary64 numbers, and that the comparison with one of a rounded
    difference agrees with the exact difference. *)

(** ** Binary64 numbers: the number of binary digits *)

Lemma digits2_pos_bounds (p : positive) :
  2 ^ (Zpos (digits2_pos p) - 1) <= Zpos p < 2 ^ Zpos (digits2_pos p).
Proof.
  induction p as [p IH | p IH |]; cbn [digits2_pos].
  - rewrite Pos2Z.inj_succ.
    replace (Z.succ (Zpos (digits2_pos p)) - 1) with (Z.succ (Zpos (digits2_pos p) - 1)) by lia.
    rewrite !Z.pow_succ_r by lia. lia.
  - rewrite Pos2Z.inj_succ.
    replace (Z.succ (Zpos (digits2_pos p)) - 1) with (Z.succ (Zpos (digits2_pos p) - 1)) by lia.
    rewrite !Z.pow_succ_r by lia. lia.
  - simpl. lia.
Qed.

Lemma Zdigits2_bounds (z : Z) :
  0 < z -> 2 ^ (Zdigits2 z - 1) <= z < 2 ^ Zdigits2 z.
Proof.
  destruct z as [|p|p]; try lia. intros _. apply digits2_pos_bounds.
Qed.

Lemma Zdigits2_nonneg (z : Z) : 0 <= Zdigits2 z.
Proof. destruct z; simpl; lia. Qed.

Lemma Zdigits2_pos (z : Z) : 0 < z -> 0 < Zdigits2 z.
Proof. destruct z; simpl; lia. Qed.

(** The number of digits of a number between two powers of two. *)
Lemma Zdigits2_unique (z d : Z) :
  2 ^ (d - 1) <= z < 2 ^ d -> 0 < z -> Zdigits2 z = d.
Proof.
  intros [Hlo Hhi] Hz.
  destruct (Zdigits2_bounds z Hz) as [Hlo' Hhi'].
  pose proof (Zdigits2_pos z Hz) as Hd.
  assert (Hd0 : 0 < d).
  { destruct (Z_lt_le_dec 0 d) as [|Hle]; [assumption|].
    destruct (Z.eq_dec d 0) as [-> | Hne]; [simpl in Hhi; lia|].
    rewrite (Z.pow_neg_r 2 d) in Hhi by lia. lia. }
  destruct (Z.lt_trichotomy (Zdigits2 z) d) as [Hlt | [Heq | Hgt]]; [|assumption|].
  - assert (2 ^ Zdigits2 z <= 2 ^ (d - 1)) by (apply Z.pow_le_mono_r; lia). lia.
  - assert (2 ^ d <= 2 ^ (Zdigits2 z - 1)) by (apply Z.pow_le_mono_r; lia). lia.
Qed.

Lemma Zdigits2_le (z d : Z) : 0 <= z -> 0 <= d -> z < 2 ^ d -> Zdigits2 z <= d.
Proof.
  intros Hz0 Hd Hz. destruct (Z.eq_dec z 0) as [-> | Hne]; [simpl; lia|].
  assert (Hpos : 0 < z) by lia.
  destruct (Zdigits2_bounds z Hpos) as [Hlo _].
  destruct (Z_lt_le_dec d (Zdigits2 z)) as [Hlt|]; [|assumption].
  assert (2 ^ d <= 2 ^ (Zdigits2 z - 1)) by (apply Z.pow_le_mono_r; lia). lia.
Qed.

Lemma fexp_fexp64 (e : Z) : fexp Float.prec Float.emax e = Float.fexp64 e.
Proof. reflexivity. Qed.

(** ** Binary64 numbers: shifting to the right *)

Lemma shr_1_m (mrs : shr_record) :
  0 <= shr_m mrs -> shr_m (shr_1 mrs) = shr_m mrs / 2.
Proof.
  destruct mrs as [m r s]. cbn [shr_m shr_1]. intros Hm.
  destruct m as [|[p|p|]|p]; try lia; cbn [shr_m].
  - reflexivity.
  - rewrite Pos2Z.inj_xI. Z.to_euclidean_division_equations. lia.
  - rewrite Pos2Z.inj_xO. Z.to_euclidean_division_equations. lia.
  - reflexivity.
Qed.

Lemma iter_shr_1_m (n : positive) (mrs : shr_record) :
  0 <= shr_m mrs ->
  shr_m (iter_pos shr_1 n mrs) = shr_m mrs / 2 ^ Zpos n.
Proof.
  revert mrs. induction n as [n IH | n IH |]; intros mrs Hm; cbn [iter_pos].
  - assert (Hp : 0 < 2 ^ Zpos n) by (apply Z.pow_pos_nonneg; lia).
    assert (H1 : 0 <= shr_m (shr_1 mrs))
      by (rewrite shr_1_m by assumption; apply Z.div_pos; lia).
    assert (H2 : 0 <= shr_m (iter_pos shr_1 n (shr_1 mrs)))
      by (rewrite IH by assumption; apply Z.div_pos; lia).
    rewrite IH, IH, shr_1_m by assumption.
    rewrite !Z.div_div by lia.
    replace (2 ^ Zpos n~1) with (2 * (2 ^ Zpos n * 2 ^ Zpos n)); [reflexivity|].
    rewrite <- Z.pow_add_r, <- Z.pow_succ_r by lia. f_equal. lia.
  - assert (Hp : 0 < 2 ^ Zpos n) by (apply Z.pow_pos_nonneg; lia).
    assert (H2 : 0 <= shr_m (iter_pos shr_1 n mrs))
      by (rewrite IH by assumption; apply Z.div_pos; lia).
    rewrite IH, IH by assumption.
    rewrite !Z.div_div by lia.
    replace (2 ^ Zpos n~0) with (2 ^ Zpos n * 2 ^ Zpos n); [reflexivity|].
    rewrite <- Z.pow_add_r by lia. f_equal. lia.
  - rewrite shr_1_m by assumption. reflexivity.
Qed.

Lemma shr_spec (mrs : shr_record) (e n : Z) :
  0 <= shr_m mrs -> 0 <= n ->
  shr_m (fst (shr mrs e n)) = shr_m mrs / 2 ^ n /\ snd (shr mrs e n) = e + n.
Proof.
  intros Hm Hn. destruct n as [|p|p]; try lia; simpl.
  - rewrite Z.div_1_r. lia.
  - split; [|reflexivity]. now apply iter_shr_1_m.
Qed.

Lemma shr_none (mrs : shr_record) (e n : Z) : n <= 0 -> shr mrs e n = (mrs, e).
Proof. destruct n; try lia; reflexivity. Qed.

Lemma round_nearest_even_cases (m : Z) (l : location) :
  round_nearest_even m l = m \/ round_nearest_even m l = m + 1.
Proof.
  destruct l as [|[]]; simpl; auto. destruct (Z.even m); auto.
Qed.

Lemma shr_m_record_of_loc (m : Z) (l : location) :
  shr_m (shr_record_of_loc m l) = m.
Proof. destruct l as [|[]]; reflexivity. Qed.

(** ** Binary64 numbers: rounding *)

(** The second shift of [binary_round_aux] and its packaging. *)
Lemma round_aux_pack (s : bool) (m e : Z) :
  0 <= m <= 2 ^ 53 -> -1074 <= e ->
  (let '(mrs, e') := shr_fexp Float.prec Float.emax m e loc_Exact in
   match shr_m mrs with
   | Z0 => S754_zero s
   | Zpos p => if e' <=? Float.emax - Float.prec then S754_finite s p e'
               else S754_infinity s
   | Zneg _ => S754_nan
   end) = Float.pack s m e.
Proof.
  intros Hm He. unfold shr_fexp, Float.pack. rewrite fexp_fexp64. unfold Float.fexp64.
  change (Float.emax - Float.prec) with 971.
  destruct (Z.eqb_spec m 0) as [-> | Hne].
  - rewrite shr_none by (simpl; lia). reflexivity.
  - destruct (Z.ltb_spec m (2 ^ 53)) as [Hlt | Hge].
    + assert (Hd : Zdigits2 m <= 53) by (apply Zdigits2_le; lia).
      rewrite shr_none by lia. simpl shr_m.
      destruct m as [|p|p]; try lia. reflexivity.
    + assert (m = 2 ^ 53) by lia. subst m.
      replace (Z.max (Zdigits2 (2 ^ 53) + e - 53) (-1074) - e) with 1
        by (change (Zdigits2 (2 ^ 53)) with 54; lia).
      reflexivity.
Qed.

Lemma binary_round_aux_shape (s : bool) (mx ex : Z) (lx : location) :
  0 <= mx -> ex <= Float.fexp64 (Zdigits2 mx + ex) ->
  let e1 := Float.fexp64 (Zdigits2 mx + ex) in
  let m1 := mx / 2 ^ (e1 - ex) in
  exists m1' : Z,
    (m1' = m1 \/ m1' = m1 + 1)
    /\ (lx = loc_Exact -> e1 = ex -> m1' = mx)
    /\ 0 <= m1 < 2 ^ 53
    /\ (-1074 < e1 -> 2 ^ 52 <= m1)
    /\ binary_round_aux Float.prec Float.emax s mx ex lx = Float.pack s m1' e1.
Proof.
  intros Hmx Hex e1 m1.
  assert (He1 : -1074 <= e1) by (unfold e1, Float.fexp64; lia).
  assert (Hpow : 0 < 2 ^ (e1 - ex)) by (apply Z.pow_pos_nonneg; lia).
  assert (Hm1 : 0 <= m1 < 2 ^ 53).
  { split; [apply Z.div_pos; lia|].
    apply Z.div_lt_upper_bound; [assumption|].
    destruct (Z.eq_dec mx 0) as [-> | Hne]; [lia|].
    destruct (Zdigits2_bounds mx) as [_ Hhi]; [lia|].
    rewrite <- Z.pow_add_r by lia.
    eapply Z.lt_le_trans; [exact Hhi|].
    apply Z.pow_le_mono_r; [lia|]. unfold e1, Float.fexp64. lia. }
  assert (Hnormal : -1074 < e1 -> 2 ^ 52 <= m1).
  { intros Hgt. apply Z.div_le_lower_bound; [assumption|].
    assert (Hd : e1 = Zdigits2 mx + ex - 53) by (unfold e1, Float.fexp64 in *; lia).
    destruct (Z.eq_dec mx 0) as [-> | Hne].
    { exfalso. simpl in Hd. lia. }
    destruct (Zdigits2_bounds mx) as [Hlo _]; [lia|].
    rewrite Z.mul_comm, <- Z.pow_add_r by lia.
    replace (52 + (e1 - ex)) with (Zdigits2 mx - 1) by lia. exact Hlo. }
  unfold binary_round_aux.
  unfold shr_fexp at 1. rewrite fexp_fexp64. fold e1.
  destruct (shr_spec (shr_record_of_loc mx lx) ex (e1 - ex)) as [Hm He].
  { now rewrite shr_m_record_of_loc. } { lia. }
  rewrite shr_m_record_of_loc in Hm. fold m1 in Hm.
  destruct (shr (shr_record_of_loc mx lx) ex (e1 - ex)) as [mrs' e'] eqn:Eshr.
  simpl in Hm, He. subst e'. replace (ex + (e1 - ex)) with e1 by lia.
  set (m1' := round_nearest_even (shr_m mrs') (loc_of_shr_record mrs')).
  exists m1'.
  assert (Hcases : m1' = m1 \/ m1' = m1 + 1).
  { unfold m1'. rewrite Hm. apply round_nearest_even_cases. }
  split; [exact Hcases|]. split.
  { intros -> Heq. unfold m1'.
    rewrite shr_none in Eshr by lia. injection Eshr as <-. reflexivity. }
  split; [exact Hm1|]. split; [exact Hnormal|].
  apply round_aux_pack; lia.
Qed.

Lemma iter_xO (m d : positive) : Zpos (Pos.iter xO m d) = Zpos m * 2 ^ Zpos d.
Proof.
  induction d as [|d IH] using Pos.peano_ind.
  - simpl. lia.
  - rewrite Pos.iter_succ, Pos2Z.inj_xO, IH, Pos2Z.inj_succ, Z.pow_succ_r by lia. lia.
Qed.

Lemma shl_align_spec (mx : positive) (ex ex' : Z) :
  (ex' < ex ->
   Zpos (fst (shl_align mx ex ex')) = Zpos mx * 2 ^ (ex - ex')
   /\ snd (shl_align mx ex ex') = ex')
  /\ (ex <= ex' -> shl_align mx ex ex' = (mx, ex)).
Proof.
  unfold shl_align. split; intros H.
  - destruct (ex' - ex) as [|d|d] eqn:E; try lia. cbn [fst snd].
    rewrite iter_xO. split; [|reflexivity].
    replace (ex - ex') with (Zpos d) by lia. reflexivity.
  - destruct (ex' - ex) as [|d|d] eqn:E; try lia; reflexivity.
Qed.

Lemma shl_align_le (mx : positive) (ex ex' : Z) :
  ex' <= ex -> Zpos (fst (shl_align mx ex ex')) = Zpos mx * 2 ^ (ex - ex').
Proof.
  intros H. destruct (shl_align_spec mx ex ex') as [Hlt Hge].
  destruct (Z.eq_dec ex' ex) as [-> | Hne].
  - rewrite Hge by lia. simpl. rewrite Z.sub_diag. simpl. lia.
  - apply Hlt. lia.
Qed.

Lemma Zdigits2_mul_pow (m n : Z) :
  0 < m -> 0 <= n -> Zdigits2 (m * 2 ^ n) = Zdigits2 m + n.
Proof.
  intros Hm Hn. assert (Hp : 0 < 2 ^ n) by (apply Z.pow_pos_nonneg; lia).
  destruct (Zdigits2_bounds m Hm) as [Hlo Hhi].
  pose proof (Zdigits2_pos m Hm) as Hd.
  apply Zdigits2_unique; [|nia].
  replace (Zdigits2 m + n - 1) with (Zdigits2 m - 1 + n) by lia.
  rewrite !Z.pow_add_r by lia. nia.
Qed.

(** The result of [binary_round] on a mantissa [K] and an exponent [ez]. *)
Lemma binary_round_shape (s : bool) (K : positive) (ez : Z) :
  -1074 <= ez ->
  let e1 := Float.fexp64 (Zdigits2 (Zpos K) + ez) in
  exists m1' : Z,
    binary_round Float.prec Float.emax s K ez = Float.pack s m1' e1
    /\ 0 < m1' <= 2 ^ 53
    /\ (-1074 < e1 -> 2 ^ 52 <= m1')
    /\ (e1 <= ez -> m1' = Zpos K * 2 ^ (ez - e1))
    /\ (ez < e1 ->
        Zpos K / 2 ^ (e1 - ez) <= m1' <= Zpos K / 2 ^ (e1 - ez) + 1).
Proof.
  intros Hez e1. unfold binary_round. rewrite fexp_fexp64.
  change (Zpos (digits2_pos K)) with (Zdigits2 (Zpos K)). fold e1.
  destruct (shl_align_spec K ez e1) as [Hlt Hge].
  destruct (Z_lt_le_dec e1 ez) as [Hcase | Hcase].
  - destruct (Hlt Hcase) as [HM HE]. clear Hlt Hge.
    destruct (shl_align K ez e1) as [M E]. cbn [fst snd] in HM, HE. subst E.
    assert (Hdig : Zdigits2 (Zpos M) + e1 = Zdigits2 (Zpos K) + ez).
    { rewrite HM, Zdigits2_mul_pow by lia. lia. }
    destruct (binary_round_aux_shape s (Zpos M) e1 loc_Exact) as (m1' & _ & Hexact & _ & _ & Heq).
    { lia. } { rewrite Hdig. fold e1. lia. }
    rewrite Hdig in Hexact, Heq. fold e1 in Hexact, Heq.
    specialize (Hexact eq_refl eq_refl). subst m1'.
    exists (Zpos M). split; [exact Heq|].
    assert (Hpow : 0 < 2 ^ (ez - e1)) by (apply Z.pow_pos_nonneg; lia).
    assert (Hd53 : Zdigits2 (Zpos M) <= 53) by (unfold e1, Float.fexp64 in *; lia).
    destruct (Zdigits2_bounds (Zpos M)) as [Hlo Hhi]; [lia|].
    split; [split; [lia|]|].
    { assert (2 ^ Zdigits2 (Zpos M) <= 2 ^ 53) by (apply Z.pow_le_mono_r; lia). lia. }
    split.
    { intros Hn. assert (Zdigits2 (Zpos M) = 53) by (unfold e1, Float.fexp64 in *; lia).
      replace 52 with (Zdigits2 (Zpos M) - 1) by lia. exact Hlo. }
    split; [intros _; exact HM | lia].
  - rewrite (Hge Hcase). clear Hlt Hge.
    destruct (binary_round_aux_shape s (Zpos K) ez loc_Exact) as (m1' & Hc & Hexact & Hm1 & Hn & Heq).
    { lia. } { fold e1. lia. }
    fold e1 in Hc, Hexact, Hm1, Hn, Heq.
    exists m1'. split; [exact Heq|].
    destruct (Z.eq_dec e1 ez) as [Hsame | Hdiff].
    + specialize (Hexact eq_refl Hsame). subst m1'.
      rewrite Hsame, Z.sub_diag in *. simpl (2 ^ 0) in *. rewrite Z.div_1_r in *.
      split; [lia|]. split; [lia|]. split; [lia|lia].
    + assert (Hgt : -1074 < e1) by lia. specialize (Hn Hgt).
      split; [lia|]. split; [lia|]. split; [lia|]. intros _. lia.
Qed.

(** What [Float.pack] builds is a binary64 number. *)
Lemma pack_valid (s : bool) (m e : Z) :
  0 <= m <= 2 ^ 53 -> -1074 <= e -> (-1074 < e -> 2 ^ 52 <= m) ->
  valid_binary Float.prec Float.emax (Float.pack s m e) = true.
Proof.
  intros Hm He Hn. unfold Float.pack.
  destruct (Z.eqb_spec m 0); [reflexivity|].
  destruct (Z.ltb_spec m (2 ^ 53)) as [Hlt | Hge].
  - destruct (Z.leb_spec e 971); [|reflexivity].
    cbn [valid_binary]. unfold bounded, canonical_mantissa.
    rewrite fexp_fexp64. change (Float.emax - Float.prec) with 971.
    change (Zpos (digits2_pos (Z.to_pos m))) with (Zdigits2 (Zpos (Z.to_pos m))).
    rewrite Z2Pos.id by lia.
    apply andb_true_intro. split; [|apply Z.leb_le; lia].
    apply Z.eqb_eq. unfold Float.fexp64.
    assert (Zdigits2 m <= 53) by (apply Zdigits2_le; lia).
    destruct (Z.eq_dec e (-1074)) as [-> | Hne]; [lia|].
    assert (Zdigits2 m = 53) by (apply Zdigits2_unique; lia). lia.
  - assert (m = 2 ^ 53) by lia. subst m.
    destruct (Z.leb_spec (e + 1) 971); [|reflexivity].
    cbn [valid_binary]. unfold bounded, canonical_mantissa.
    rewrite fexp_fexp64. change (Float.emax - Float.prec) with 971.
    change (Zpos (digits2_pos (Z.to_pos (2 ^ 53 / 2)))) with 53.
    apply andb_true_intro. split; [|apply Z.leb_le; lia].
    apply Z.eqb_eq. unfold Float.fexp64. lia.
Qed.

Lemma fexp64_mono (a b : Z) : a <= b -> Float.fexp64 a <= Float.fexp64 b.
Proof. unfold Float.fexp64. lia. Qed.

Lemma Zdigits2_ge (z x : Z) : 0 <= x -> 2 ^ x <= z -> x + 1 <= Zdigits2 z.
Proof.
  intros Hx Hz. assert (Hpos : 0 < z) by (pose proof (Z.pow_pos_nonneg 2 x); lia).
  destruct (Zdigits2_bounds z Hpos) as [_ Hhi].
  destruct (Z_lt_le_dec (Zdigits2 z) (x + 1)) as [Hlt|]; [|assumption].
  assert (2 ^ Zdigits2 z <= 2 ^ x)
    by (apply Z.pow_le_mono_r; pose proof (Zdigits2_nonneg z); lia).
  lia.
Qed.

Lemma pack_nonneg (m e : Z) :
  0 <= m <= 2 ^ 53 -> -1074 <= e -> (-1074 < e -> 2 ^ 52 <= m) ->
  Float.is_nonneg (Float.pack false m e).
Proof.
  intros Hm He Hn. pose proof (pack_valid false m e Hm He Hn) as Hv.
  unfold Float.pack in *.
  destruct (m =? 0); [reflexivity|].
  destruct (m <? 2 ^ 53).
  - destruct (e <=? 971); [|reflexivity]. split; [reflexivity | exact Hv].
  - destruct (e + 1 <=? 971); [|reflexivity]. split; [reflexivity | exact Hv].
Qed.

(** Rounding a mantissa that is wide enough gives a binary64 number. *)
Lemma binary_round_aux_nonneg (mx ex : Z) (lx : location) :
  0 <= mx -> ex <= Float.fexp64 (Zdigits2 mx + ex) ->
  Float.is_nonneg (binary_round_aux Float.prec Float.emax false mx ex lx).
Proof.
  intros Hmx Hex.
  destruct (binary_round_aux_shape false mx ex lx Hmx Hex)
    as (m1' & Hc & _ & Hm1 & Hn & ->).
  apply pack_nonneg.
  - lia.
  - unfold Float.fexp64. lia.
  - intros H. specialize (Hn H). lia.
Qed.

(** The quotient [SFdiv] hands to the rounding is wide enough. *)
Lemma SFdiv_core_wide (mx my : positive) (ex ey : Z) :
  let '(q, e', l) :=
    SFdiv_core_binary Float.prec Float.emax (Zpos mx) ex (Zpos my) ey in
  0 <= q /\ e' <= Float.fexp64 (Zdigits2 q + e').
Proof.
  unfold SFdiv_core_binary. rewrite fexp_fexp64.
  set (d1 := Zdigits2 (Zpos mx)). set (d2 := Zdigits2 (Zpos my)).
  set (e' := Z.min (Float.fexp64 (d1 + ex - (d2 + ey))) (ex - ey)).
  set (sh := ex - ey - e').
  assert (Hsh : 0 <= sh) by (unfold sh, e'; lia).
  assert (Hm' : match sh with
                | Zpos _ => Z.shiftl (Zpos mx) sh
                | Z0 => Zpos mx
                | Zneg _ => 0
                end = Zpos mx * 2 ^ sh).
  { clearbody sh. destruct sh as [|p|p]; try lia.
    rewrite Z.shiftl_mul_pow2 by lia. reflexivity. }
  rewrite Hm'. clear Hm'. set (m' := Zpos mx * 2 ^ sh).
  assert (Hm' : m' = Zpos mx * 2 ^ sh) by reflexivity. clearbody m'.
  pose proof (Z_div_mod m' (Zpos my) eq_refl) as Hdiv.
  assert (Hq : fst (Z.div_eucl m' (Zpos my)) = m' / Zpos my) by reflexivity.
  destruct (Z.div_eucl m' (Zpos my)) as [q r]. cbn [fst] in Hq. subst q.
  assert (Hp : 0 < 2 ^ sh) by (apply Z.pow_pos_nonneg; lia).
  assert (Hq0 : 0 <= m' / Zpos my) by (apply Z.div_pos; lia).
  split; [assumption|].
  destruct (Zdigits2_bounds (Zpos mx)) as [Hlo1 _]; [lia|]. fold d1 in Hlo1.
  destruct (Zdigits2_bounds (Zpos my)) as [_ Hhi2]; [lia|]. fold d2 in Hhi2.
  assert (Hd1 : 0 < d1) by (apply Zdigits2_pos; lia).
  assert (Hd2 : 0 < d2) by (apply Zdigits2_pos; lia).
  destruct (Z_lt_le_dec (d1 + sh - d2) 1) as [Hsmall | Hbig].
  - (* the quotient may have no digit: the exponent is the least one *)
    assert (e' <= -1074) by (unfold e', sh, Float.fexp64 in *; lia).
    unfold Float.fexp64. lia.
  - assert (Hge : 2 ^ (d1 - 1 + sh - d2) <= m' / Zpos my).
    { apply Z.div_le_lower_bound; [lia|].
      assert (Zpos my * 2 ^ (d1 - 1 + sh - d2) <= 2 ^ d2 * 2 ^ (d1 - 1 + sh - d2)).
      { apply Z.mul_le_mono_nonneg_r; [apply Z.pow_nonneg|]; lia. }
      rewrite <- Z.pow_add_r in H by lia.
      replace (d2 + (d1 - 1 + sh - d2)) with (d1 - 1 + sh) in H by lia.
      rewrite Z.pow_add_r in H by lia. subst m'. nia. }
    apply Zdigits2_ge in Hge; [|lia].
    transitivity (Float.fexp64 (d1 + ex - (d2 + ey))); [unfold e'; lia|].
    apply fexp64_mono. unfold sh in *. lia.
Qed.

Lemma of_decimal_nonneg (n : Z) (k : nat) : Float.is_nonneg (Float.of_decimal n k).
Proof.
  unfold Float.of_decimal. destruct n as [|p|p]; try reflexivity.
  unfold SFdiv.
  pose proof (SFdiv_core_wide p (Z.to_pos (10 ^ Z.of_nat k)) 0 0) as H.
  destruct (SFdiv_core_binary _ _ _ _ _ _) as [[q e'] l].
  destruct H as [Hq He]. cbn [xorb]. now apply binary_round_aux_nonneg.
Qed.

Lemma of_string_nonneg (s : string) (x : Float.float) :
  Float.of_string s = Some x -> Float.is_nonneg x.
Proof.
  unfold Float.of_string. destruct (Float.split_point s) as [whole [frac|]].
  - destruct (_ && _); [|discriminate]. intros [= <-]. apply of_decimal_nonneg.
  - destruct (_ && _); [|discriminate]. intros [= <-]. apply of_decimal_nonneg.
Qed.

(** ** Binary64 numbers: exact values *)

(** The difference of a binary64 number and an integer, as a fraction with
    a power of two for denominator. *)
Lemma to_Q_minus_scaled (m : positive) (e t ez : Z) :
  ez <= e -> ez <= 0 ->
  (Float.to_Q (S754_finite false m e) - inject_Z t ==
   Qmake (Zpos m * 2 ^ (e - ez) - t * 2 ^ (- ez)) (Z.to_pos (2 ^ (- ez))))%Q.
Proof.
  intros He Hz.
  assert (HP : 0 < 2 ^ (- ez)) by (apply Z.pow_pos_nonneg; lia).
  unfold Float.to_Q. destruct (Z.leb_spec 0 e) as [Hpos | Hneg].
  - unfold Qeq, Qminus, Qplus, Qopp, inject_Z. cbn [Qnum Qden].
    rewrite Z2Pos.id by assumption.
    replace (e - ez) with (e + - ez) by lia. rewrite Z.pow_add_r by lia.
    change (Zpos (1 * 1)) with 1. ring.
  - assert (HE : 0 < 2 ^ (- e)) by (apply Z.pow_pos_nonneg; lia).
    unfold Qeq, Qminus, Qplus, Qopp, inject_Z. cbn [Qnum Qden].
    rewrite Pos.mul_1_r, !Z2Pos.id by assumption.
    replace (- ez) with (- e + (e - ez)) by lia. rewrite Z.pow_add_r by lia.
    ring.
Qed.

Lemma exceeds_scaled (m : positive) (e t ez : Z) :
  ez <= e -> ez <= 0 ->
  (1 < Qabs (Float.to_Q (S754_finite false m e) - inject_Z t))%Q
  <-> 2 ^ (- ez) < Z.abs (Zpos m * 2 ^ (e - ez) - t * 2 ^ (- ez)).
Proof.
  intros He Hz.
  assert (HP : 0 < 2 ^ (- ez)) by (apply Z.pow_pos_nonneg; lia).
  rewrite (to_Q_minus_scaled m e t ez He Hz).
  unfold Qabs, Qlt. cbn [Qnum Qden]. rewrite Z2Pos.id by assumption. lia.
Qed.

(** ** Binary64 numbers: comparison with one *)

Lemma of_Z_1 : Float.of_Z 1 = S754_finite false (2 ^ 52) (-52).
Proof. reflexivity. Qed.

Lemma ltb_one_finite (m : positive) (e : Z) :
  Float.ltb (Float.of_Z 1) (S754_finite false m e) = true
  <-> -52 < e \/ (e = -52 /\ 2 ^ 52 < Zpos m).
Proof.
  rewrite of_Z_1. unfold Float.ltb, SFltb, SFcompare.
  destruct (Z.compare_spec (-52) e) as [<- | Hlt | Hgt].
  - change (Pos.compare_cont Eq (2 ^ 52) m) with ((2 ^ 52 ?= m)%positive).
    destruct (Pos.compare_spec (2 ^ 52) m) as [<- | H | H].
    + split; [discriminate | intros [? | [_ ?]]; lia].
    + split; [intros _; right; split; [reflexivity|] | reflexivity].
      change (2 ^ 52) with (Zpos (2 ^ 52)). lia.
    + split; [discriminate|]. intros [? | [_ H']]; [lia|].
      change (2 ^ 52) with (Zpos (2 ^ 52)) in H'. lia.
  - split; [intros _; now left | reflexivity].
  - split; [discriminate | intros [? | [? _]]; lia].
Qed.

Lemma ltb_one_pack (m e : Z) :
  0 < m <= 2 ^ 53 ->
  Float.ltb (Float.of_Z 1) (Float.pack false m e) = true
  <-> -52 < e \/ (e = -52 /\ 2 ^ 52 < m).
Proof.
  intros Hm. unfold Float.pack.
  destruct (Z.eqb_spec m 0); [lia|].
  destruct (Z.ltb_spec m (2 ^ 53)) as [Hlt | Hge].
  - destruct (Z.leb_spec e 971).
    + rewrite ltb_one_finite, Z2Pos.id by lia. reflexivity.
    + split; [intros _; left; lia | reflexivity].
  - assert (m = 2 ^ 53) by lia. subst m.
    destruct (Z.leb_spec (e + 1) 971).
    + rewrite ltb_one_finite. change (Zpos (Z.to_pos (2 ^ 53 / 2))) with (2 ^ 52). lia.
    + split; [intros _; left; lia | reflexivity].
Qed.

Lemma abs_pack (s : bool) (m e : Z) : Float.abs (Float.pack s m e) = Float.pack false m e.
Proof.
  unfold Float.pack.
  destruct (m =? 0); [reflexivity|].
  destruct (m <? 2 ^ 53); [destruct (e <=? 971) | destruct (e + 1 <=? 971)];
    reflexivity.
Qed.

Lemma bounded_spec (m : positive) (e : Z) :
  bounded Float.prec Float.emax m e = true ->
  -1074 <= e <= 971 /\ Zpos m < 2 ^ 53 /\ (-1074 < e -> 2 ^ 52 <= Zpos m).
Proof.
  unfold bounded, canonical_mantissa. rewrite andb_true_iff, fexp_fexp64.
  change (Float.emax - Float.prec) with 971.
  change (Zpos (digits2_pos m)) with (Zdigits2 (Zpos m)).
  rewrite Z.eqb_eq, Z.leb_le. intros [Hc He].
  destruct (Zdigits2_bounds (Zpos m)) as [Hlo Hhi]; [lia|].
  assert (Hd : Zdigits2 (Zpos m) <= 53) by (unfold Float.fexp64 in Hc; lia).
  split; [unfold Float.fexp64 in Hc; lia|]. split.
  - assert (2 ^ Zdigits2 (Zpos m) <= 2 ^ 53)
      by (apply Z.pow_le_mono_r; lia). lia.
  - intros Hn. assert (Zdigits2 (Zpos m) = 53) by (unfold Float.fexp64 in Hc; lia).
    replace 52 with (Zdigits2 (Zpos m) - 1) by lia. exact Hlo.
Qed.

(** A binary64 number is above one exactly when its value is. *)
Lemma ltb_one_value (m : positive) (e : Z) :
  bounded Float.prec Float.emax m e = true ->
  Float.ltb (Float.of_Z 1) (S754_finite false m e) = true
  <-> (1 < Qabs (Float.to_Q (S754_finite false m e) - inject_Z 0))%Q.
Proof.
  intros Hb. destruct (bounded_spec m e Hb) as (He & Hhi & Hn).
  rewrite ltb_one_finite, (exceeds_scaled m e 0 (Z.min e 0)) by lia.
  rewrite Z.mul_0_l, Z.sub_0_r, Z.abs_eq
    by (apply Z.mul_nonneg_nonneg; [|apply Z.pow_nonneg]; lia).
  destruct (Z_le_gt_dec 0 e) as [Hpos | Hneg].
  - rewrite Z.min_r by lia. simpl (2 ^ (- 0)). rewrite Z.sub_0_r.
    assert (0 < 2 ^ e) by (apply Z.pow_pos_nonneg; lia).
    assert (2 ^ 52 <= Zpos m) by (apply Hn; lia).
    split; [intros _; nia | intros _; left; lia].
  - rewrite Z.min_l, Z.sub_diag by lia. simpl (2 ^ 0). rewrite Z.mul_1_r.
    destruct (Z.lt_trichotomy e (-52)) as [Hlt | [-> | Hgt]].
    + assert (2 ^ 53 <= 2 ^ (- e)) by (apply Z.pow_le_mono_r; lia).
      split; [intros [? | [? _]]; lia | lia].
    + simpl (2 ^ (- (-52))). split; [intros [? | [_ ?]]; lia | intros; right; lia].
    + assert (2 ^ 52 <= Zpos m) by (apply Hn; lia).
      assert (2 ^ (- e) < 2 ^ 52) by (apply Z.pow_lt_mono_r; lia).
      split; [intros _; lia | intros _; left; lia].
Qed.

(** ** Binary64 numbers: subtraction *)

Lemma sub_finite (m mt : positive) (e et : Z) :
  Float.sub (S754_finite false m e) (S754_finite false mt et)
  = binary_normalize Float.prec Float.emax
      (Zpos m * 2 ^ (e - Z.min e et) - Zpos mt * 2 ^ (et - Z.min e et))
      (Z.min e et) false.
Proof.
  unfold Float.sub, SFsub, cond_Zopp.
  rewrite !shl_align_le by lia. reflexivity.
Qed.

(** The rounded magnitude [Float.pack false m1' e1] of [K * 2 ^ ez] is above one
    exactly when [K * 2 ^ ez] is, provided that a magnitude that needs
    rounding is at least two. *)
Lemma rounded_above_one (K ez m1' : Z) :
  let e1 := Float.fexp64 (Zdigits2 K + ez) in
  0 < K -> -1074 <= ez <= 0 -> 0 < m1' <= 2 ^ 53 ->
  (-1074 < e1 -> 2 ^ 52 <= m1') ->
  (e1 <= ez -> m1' = K * 2 ^ (ez - e1)) ->
  (ez < e1 -> 2 ^ (1 - ez) <= K) ->
  (-52 < e1 \/ (e1 = -52 /\ 2 ^ 52 < m1')) <-> 2 ^ (- ez) < K.
Proof.
  intros e1 HK Hez Hm Hn Hexact Hround.
  assert (HP : 0 < 2 ^ (- ez)) by (apply Z.pow_pos_nonneg; lia).
  destruct (Z_le_gt_dec e1 ez) as [Hcase | Hcase].
  - specialize (Hexact Hcase).
    assert (HG : 0 < 2 ^ (ez - e1)) by (apply Z.pow_pos_nonneg; lia).
    assert (HPG : 2 ^ (- ez) * 2 ^ (ez - e1) = 2 ^ (- e1)).
    { rewrite <- Z.pow_add_r by lia. f_equal. lia. }
    set (P := 2 ^ (- ez)) in *. set (G := 2 ^ (ez - e1)) in *.
    destruct (Z.lt_trichotomy e1 (-52)) as [Hlt | [Heq | Hgt]].
    + assert (2 ^ 53 <= 2 ^ (- e1)) by (apply Z.pow_le_mono_r; lia).
      split; [intros [? | [? _]]; lia|]. intros HPK. exfalso. nia.
    + rewrite Heq in HPG. simpl (2 ^ (- (-52))) in HPG.
      split; [intros [? | [_ ?]]; [lia | nia] | intros; right; split; [lia | nia]].
    + assert (2 ^ 52 <= m1') by (apply Hn; lia).
      assert (2 ^ (- e1) < 2 ^ 52) by (apply Z.pow_lt_mono_r; lia).
      split; [intros _; nia | intros _; left; lia].
  - assert (Hgap : 2 ^ (1 - ez) <= K) by (apply Hround; lia).
    assert (Hd : 1 - ez + 1 <= Zdigits2 K) by (apply Zdigits2_ge; lia).
    assert (2 ^ (1 - ez) = 2 * 2 ^ (- ez)).
    { replace (1 - ez) with (Z.succ (- ez)) by lia. rewrite Z.pow_succ_r by lia. reflexivity. }
    split; [intros _; lia|]. intros _. left. unfold e1, Float.fexp64. lia.
Qed.

(** A difference that needs rounding is at least two, when the number
    subtracted is at least four. *)
Lemma rounding_needs_gap (m mt : positive) (e et : Z) :
  bounded Float.prec Float.emax m e = true ->
  2 ^ 52 <= Zpos mt < 2 ^ 53 -> -50 <= et <= 0 ->
  let ez := Z.min e et in
  let K := Z.abs (Zpos m * 2 ^ (e - ez) - Zpos mt * 2 ^ (et - ez)) in
  ez < Float.fexp64 (Zdigits2 K + ez) -> 2 ^ (1 - ez) <= K.
Proof.
  intros Hb Hmt Het ez K Hround.
  destruct (bounded_spec m e Hb) as (He & Hhi & Hn).
  assert (HK0 : 0 <= K) by apply Z.abs_nonneg.
  assert (HK53 : 2 ^ 53 <= K).
  { destruct (Z.eq_dec K 0) as [HK | HK].
    - rewrite HK in Hround. unfold Float.fexp64, ez in Hround. simpl in Hround. lia.
    - destruct (Zdigits2_bounds K) as [Hlo _]; [lia|].
      assert (54 <= Zdigits2 K) by (unfold Float.fexp64, ez in Hround; lia).
      assert (2 ^ 53 <= 2 ^ (Zdigits2 K - 1)) by (apply Z.pow_le_mono_r; lia).
      lia. }
  destruct (Z_le_gt_dec (-52) ez) as [Hbig | Hsmall].
  - assert (2 ^ (1 - ez) <= 2 ^ 53) by (apply Z.pow_le_mono_r; lia). lia.
  - assert (Hez : ez = e) by (unfold ez; lia).
    unfold K. rewrite Hez, Z.sub_diag. simpl (2 ^ 0). rewrite Z.mul_1_r.
    assert (H1 : 2 ^ (1 - e) = 2 * 2 ^ (- e)).
    { replace (1 - e) with (Z.succ (- e)) by lia. rewrite Z.pow_succ_r by lia. reflexivity. }
    assert (H2 : 2 ^ 53 <= 2 ^ (- e)) by (apply Z.pow_le_mono_r; lia).
    assert (H3 : 4 * 2 ^ (- e) <= 2 ^ 52 * 2 ^ (et - e)).
    { replace (4 * 2 ^ (- e)) with (2 ^ 52 * 2 ^ (- 50 - e)).
      - apply Z.mul_le_mono_nonneg_l; [lia|]. apply Z.pow_le_mono_r; lia.
      - rewrite <- Z.pow_add_r by lia. replace (52 + (-50 - e)) with (2 + - e) by lia.
        rewrite Z.pow_add_r by lia. reflexivity. }
    assert (H4 : 0 < 2 ^ (et - e)) by (apply Z.pow_pos_nonneg; lia).
    rewrite H1. nia.
Qed.

(** The test of [validate_money] on the difference of two binary64 numbers,
    the second at least four: it holds exactly when the exact difference is
    beyond one. *)
Lemma sub_above_one (m mt : positive) (e et : Z) :
  bounded Float.prec Float.emax m e = true ->
  2 ^ 52 <= Zpos mt < 2 ^ 53 -> -50 <= et <= 0 ->
  let ez := Z.min e et in
  Float.ltb (Float.of_Z 1)
            (Float.abs (Float.sub (S754_finite false m e)
                                  (S754_finite false mt et))) = true
  <-> 2 ^ (- ez) < Z.abs (Zpos m * 2 ^ (e - ez) - Zpos mt * 2 ^ (et - ez)).
Proof.
  intros Hb Hmt Het ez.
  destruct (bounded_spec m e Hb) as (He & _ & _).
  pose proof (rounding_needs_gap m mt e et Hb Hmt Het) as Hgap.
  cbv zeta in Hgap. fold ez in Hgap.
  rewrite sub_finite. fold ez.
  set (k := Zpos m * 2 ^ (e - ez) - Zpos mt * 2 ^ (et - ez)) in *.
  assert (HP : 0 < 2 ^ (- ez)) by (apply Z.pow_pos_nonneg; unfold ez; lia).
  assert (Hez : -1074 <= ez <= 0) by (unfold ez; lia).
  destruct k as [|K|K]; cbn [binary_normalize Z.abs] in *.
  - split; [discriminate | lia].
  - destruct (binary_round_shape false K ez) as (m1' & -> & Hm & Hn & Hex & Hr); [lia|].
    rewrite abs_pack, ltb_one_pack by lia.
    apply rounded_above_one; try assumption; lia.
  - destruct (binary_round_shape true K ez) as (m1' & -> & Hm & Hn & Hex & Hr); [lia|].
    rewrite abs_pack, ltb_one_pack by lia.
    apply rounded_above_one; try assumption; lia.
Qed.

(** The test of [validate_money] on a number read from the amount field and
    a value of the written-amount converter. *)
Lemma mismatch_test_exact (x : Float.float) (t : Z) :
  Float.is_nonneg x -> In t [0; 200000; 1000000; 1200000] ->
  Float.ltb (Float.of_Z 1) (Float.abs (Float.sub x (Float.of_Z t))) = true
  <-> exceeds_tolerance x t.
Proof.
  intros Hx Ht.
  assert (Hcases : t = 0 \/
            exists mt et, Float.of_Z t = S754_finite false mt et
                          /\ 2 ^ 52 <= Zpos mt < 2 ^ 53 /\ -50 <= et <= 0
                          /\ t * 2 ^ (- et) = Zpos mt).
  { simpl in Ht. destruct Ht as [<- | [<- | [<- | [<- | []]]]].
    - now left.
    - right. exists 6871947673600000%positive, (-35). repeat split; vm_compute; congruence.
    - right. exists 8589934592000000%positive, (-33). repeat split; vm_compute; congruence.
    - right. exists 5153960755200000%positive, (-32). repeat split; vm_compute; congruence. }
  destruct x as [s | s | | s m e]; cbn [Float.is_nonneg] in Hx; try contradiction.
  - (* zero *) subst s. destruct Hcases as [-> | (mt & et & -> & Hmt & Het & Hval)].
    + split; [discriminate|]. unfold exceeds_tolerance. vm_compute. discriminate.
    + cbn [Float.sub SFsub negb Float.abs SFabs].
      rewrite ltb_one_finite. unfold exceeds_tolerance, Float.to_Q.
      assert (Ht4 : 4 <= t).
      { assert (0 < 2 ^ (- et)) by (apply Z.pow_pos_nonneg; lia).
        assert (2 ^ (- et) <= 2 ^ 50) by (apply Z.pow_le_mono_r; lia).
        assert (2 ^ 50 * 4 = 2 ^ 52) by reflexivity. nia. }
      split.
      * intros _. unfold Qlt, Qabs, Qminus, Qplus, Qopp, inject_Z. cbn [Qnum Qden].
        change (Zpos (1 * 1)) with 1. lia.
      * intros _. lia.
  - (* infinity *) subst s.
    destruct Hcases as [-> | (mt & et & -> & _)]; split; intros; reflexivity.
  - (* finite *) destruct Hx as [-> Hb].
    destruct Hcases as [-> | (mt & et & -> & Hmt & Het & Hval)].
    + change (Float.of_Z 0) with (S754_zero false).
      cbn [Float.sub SFsub Float.abs SFabs]. now apply ltb_one_value.
    + destruct (bounded_spec m e Hb) as (He & _ & _).
      rewrite sub_above_one by assumption.
      unfold exceeds_tolerance.
      rewrite (exceeds_scaled m e t (Z.min e et)) by lia.
      replace (t * 2 ^ (- Z.min e et)) with (Zpos mt * 2 ^ (et - Z.min e et));
        [reflexivity|].
      rewrite <- Hval, <- Z.mul_assoc, <- Z.pow_add_r by lia.
      f_equal. f_equal. lia.
Qed.

(** * The amount and the tax *)

(** ** Binary64 numbers: the nearest number *)

Lemma loc_of_shr_record_of_loc (m : Z) (l : location) :
  loc_of_shr_record (shr_record_of_loc m l) = l.
Proof. destruct l as [|[]]; reflexivity. Qed.

Lemma new_location_located (q r : Z) :
  0 <= r < q -> located r q (new_location q r).
Proof.
  intros Hr. unfold new_location. destruct (Z.even q) eqn:E.
  - unfold new_location_even. destruct (Z.eqb_spec r 0); [assumption|].
    destruct (Z.compare_spec (2 * r) q); cbn [located]; lia.
  - unfold new_location_odd. destruct (Z.eqb_spec r 0); [assumption|].
    rewrite <- Z.negb_odd in E. apply negb_false_iff, Z.odd_spec in E.
    destruct E as [k Hk].
    destruct (Z.compare_spec (2 * r + 1) q); cbn [located]; lia.
Qed.

Lemma shr_1_located (N D : Z) (mrs : shr_record) :
  0 < D -> record_located N D mrs -> record_located N (2 * D) (shr_1 mrs).
Proof.
  intros HD. destruct mrs as [m r s]. unfold record_located.
  cbn [shr_m]. intros (Hm & HR & Hl).
  destruct m as [|[p|p|]|p]; try lia.
  - destruct r, s; cbn [shr_1 shr_m loc_of_shr_record located orb] in *; lia.
  - destruct r, s; cbn [shr_1 shr_m loc_of_shr_record located orb] in *;
      rewrite Pos2Z.inj_xI in *; lia.
  - destruct r, s; cbn [shr_1 shr_m loc_of_shr_record located orb] in *;
      rewrite Pos2Z.inj_xO in *; lia.
  - destruct r, s; cbn [shr_1 shr_m loc_of_shr_record located orb] in *; lia.
Qed.

Lemma pow2_xI (n : positive) : 2 ^ Zpos n~1 = 2 * (2 ^ Zpos n * 2 ^ Zpos n).
Proof.
  rewrite <- Z.pow_add_r, <- Z.pow_succ_r by lia. f_equal. lia.
Qed.

Lemma pow2_xO (n : positive) : 2 ^ Zpos n~0 = 2 ^ Zpos n * 2 ^ Zpos n.
Proof.
  rewrite <- Z.pow_add_r by lia. f_equal. lia.
Qed.

Lemma iter_shr_1_located (n : positive) (N D : Z) (mrs : shr_record) :
  0 < D -> record_located N D mrs ->
  record_located N (D * 2 ^ Zpos n) (iter_pos shr_1 n mrs).
Proof.
  revert D mrs. induction n as [n IH | n IH |]; intros D mrs HD H; cbn [iter_pos].
  - assert (Hp : 0 < 2 ^ Zpos n) by (apply Z.pow_pos_nonneg; lia).
    replace (D * 2 ^ Zpos n~1) with (2 * D * 2 ^ Zpos n * 2 ^ Zpos n)
      by (rewrite pow2_xI; ring).
    apply IH; [nia|]. apply IH; [lia|]. now apply shr_1_located.
  - assert (Hp : 0 < 2 ^ Zpos n) by (apply Z.pow_pos_nonneg; lia).
    replace (D * 2 ^ Zpos n~0) with (D * 2 ^ Zpos n * 2 ^ Zpos n)
      by (rewrite pow2_xO; ring).
    apply IH; [nia|]. now apply IH.
  - replace (D * 2 ^ 1) with (2 * D) by (change (2 ^ 1) with 2; ring).
    now apply shr_1_located.
Qed.

Lemma shr_located (N D : Z) (mrs : shr_record) (e n : Z) :
  0 < D -> record_located N D mrs ->
  record_located N (D * 2 ^ Z.max n 0) (fst (shr mrs e n)).
Proof.
  intros HD H. destruct n as [|p|p]; cbn [shr fst].
  - now rewrite Z.mul_1_r.
  - rewrite Z.max_l by lia. now apply iter_shr_1_located.
  - now rewrite Z.mul_1_r.
Qed.

Lemma round_nearest_even_located (m R D : Z) (l : location) :
  located R D l -> 0 <= R < D ->
  (round_nearest_even m l = m
   /\ (2 * R < D \/ (2 * R = D /\ Z.even m = true)))
  \/ (round_nearest_even m l = m + 1
      /\ (D < 2 * R \/ (2 * R = D /\ Z.even m = false))).
Proof.
  intros Hl HR. destruct l as [|[]]; cbn [located round_nearest_even] in *.
  - left. split; [reflexivity | lia].
  - destruct (Z.even m); [left | right]; (split; [reflexivity | right; now split]).
  - left. split; [reflexivity | lia].
  - right. split; [reflexivity | lia].
Qed.

(** What [binary_round_aux] gives for a quotient [N / D] cut at [mx] with
    the location [lx]: the quotient of [N] by [D1], the divisor scaled to
    the exponent of the result, rounded to the nearest integer, to the even
    one of two. *)
Lemma binary_round_aux_nearest (s : bool) (mx ex : Z) (lx : location) (N D : Z) :
  0 < D -> 0 <= mx -> ex <= Float.fexp64 (Zdigits2 mx + ex) ->
  0 <= N - mx * D < D -> located (N - mx * D) D lx ->
  let e1 := Float.fexp64 (Zdigits2 mx + ex) in
  let D1 := D * 2 ^ (e1 - ex) in
  exists m1 m1' : Z,
    binary_round_aux Float.prec Float.emax s mx ex lx = Float.pack s m1' e1
    /\ 0 <= m1 < 2 ^ 53
    /\ (-1074 < e1 -> 2 ^ 52 <= m1)
    /\ 0 <= N - m1 * D1 < D1
    /\ ((m1' = m1
         /\ (2 * (N - m1 * D1) < D1
             \/ (2 * (N - m1 * D1) = D1 /\ Z.even m1 = true)))
        \/ (m1' = m1 + 1
            /\ (D1 < 2 * (N - m1 * D1)
                \/ (2 * (N - m1 * D1) = D1 /\ Z.even m1 = false)))).
Proof.
  intros HD Hmx Hex HR Hl e1 D1.
  destruct (binary_round_aux_shape s mx ex lx Hmx Hex) as (_ & _ & _ & Hm1 & Hn & _).
  fold e1 in Hm1, Hn. set (m1 := mx / 2 ^ (e1 - ex)) in *.
  assert (He1 : -1074 <= e1) by (unfold e1, Float.fexp64; lia).
  unfold binary_round_aux. unfold shr_fexp at 1. rewrite fexp_fexp64. fold e1.
  destruct (shr_spec (shr_record_of_loc mx lx) ex (e1 - ex)) as [Hm He].
  { now rewrite shr_m_record_of_loc. } { lia. }
  rewrite shr_m_record_of_loc in Hm. fold m1 in Hm.
  assert (Hloc : record_located N D1 (fst (shr (shr_record_of_loc mx lx) ex (e1 - ex)))).
  { unfold D1. replace (e1 - ex) with (Z.max (e1 - ex) 0) at 1 by lia.
    apply shr_located; [assumption|]. unfold record_located.
    rewrite shr_m_record_of_loc, loc_of_shr_record_of_loc. auto. }
  destruct (shr (shr_record_of_loc mx lx) ex (e1 - ex)) as [mrs' e'].
  cbn [fst snd] in Hm, He, Hloc. subst e'. replace (ex + (e1 - ex)) with e1 by lia.
  destruct Hloc as (_ & HR1 & Hl1). rewrite Hm in HR1, Hl1.
  pose proof (round_nearest_even_located (shr_m mrs') _ _ _ Hl1 HR1) as Hcases.
  rewrite Hm in Hcases.
  set (m1' := round_nearest_even m1 (loc_of_shr_record mrs')) in *.
  exists m1, m1'. rewrite Hm. fold m1'.
  split; [apply round_aux_pack; lia|].
  repeat (split; [assumption || lia|]). exact Hcases.
Qed.

Lemma to_Q_scaled (s : bool) (m : positive) (e : Z) :
  -1074 <= e ->
  (Float.to_Q (S754_finite s m e)
   == Qmake ((if s then -1 else 1) * (Zpos m * 2 ^ (e + 1074)))
            (Z.to_pos (2 ^ 1074)))%Q.
Proof.
  intros He.
  assert (HW : 0 < 2 ^ 1074) by (apply Z.pow_pos_nonneg; lia).
  unfold Float.to_Q. destruct (Z.leb_spec 0 e) as [Hpos | Hneg].
  - destruct s; unfold Qeq, Qopp, inject_Z; cbn [Qnum Qden];
      rewrite Z2Pos.id by assumption; rewrite Z.pow_add_r by lia; ring.
  - assert (HE : 0 < 2 ^ (- e)) by (apply Z.pow_pos_nonneg; lia).
    assert (Hsplit : 2 ^ 1074 = 2 ^ (e + 1074) * 2 ^ (- e)).
    { rewrite <- Z.pow_add_r by lia. f_equal. lia. }
    destruct s; unfold Qeq, Qopp; cbn [Qnum Qden];
      rewrite !Z2Pos.id by assumption; rewrite Hsplit; ring.
Qed.

Lemma Qabs_dist_scaled (X Y p : Z) (W q : positive) :
  (Qabs (Qmake X W - Qmake p q) <= Qabs (Qmake Y W - Qmake p q))%Q
  <-> Z.abs (X * Zpos q - p * Zpos W) <= Z.abs (Y * Zpos q - p * Zpos W).
Proof.
  unfold Qminus, Qplus, Qopp, Qabs, Qle. cbn [Qnum Qden].
  rewrite <- Z.mul_le_mono_pos_r by reflexivity.
  replace (X * Zpos q + - p * Zpos W) with (X * Zpos q - p * Zpos W) by ring.
  replace (Y * Zpos q + - p * Zpos W) with (Y * Zpos q - p * Zpos W) by ring.
  reflexivity.
Qed.

(** The value of what [Float.pack] builds, when it is not infinite. *)
Lemma to_Q_pack (m e : Z) :
  0 <= m <= 2 ^ 53 -> -1074 <= e ->
  match Float.pack false m e with
  | S754_infinity _ => True
  | x => (Float.to_Q x == Qmake (m * 2 ^ (e + 1074)) (Z.to_pos (2 ^ 1074)))%Q
  end.
Proof.
  intros Hm He. unfold Float.pack.
  destruct (Z.eqb_spec m 0) as [-> | Hne]; [reflexivity|].
  destruct (Z.ltb_spec m (2 ^ 53)) as [Hlt | Hge].
  - destruct (e <=? 971); [|exact I].
    rewrite to_Q_scaled by assumption. rewrite Z2Pos.id by lia.
    now rewrite Z.mul_1_l.
  - destruct (e + 1 <=? 971); [|exact I].
    rewrite to_Q_scaled by lia. assert (m = 2 ^ 53) by lia. subst m.
    change (Zpos (Z.to_pos (2 ^ 53 / 2))) with (2 ^ 52).
    replace (e + 1 + 1074) with (Z.succ (e + 1074)) by lia.
    rewrite Z.pow_succ_r by lia. rewrite Z.mul_1_l.
    change (2 ^ 53) with (2 ^ 52 * 2).
    unfold Qeq. cbn [Qnum Qden]. ring.
Qed.

(** No integer is nearer to a quotient than the one it rounds to. *)
Lemma rounded_integer_nearest (N D m1 m1' k : Z) :
  0 <= N - m1 * D < D ->
  (m1' = m1 /\ 2 * (N - m1 * D) <= D) \/ (m1' = m1 + 1 /\ D <= 2 * (N - m1 * D)) ->
  Z.abs (m1' * D - N) <= Z.abs (k * D - N).
Proof.
  intros HR Hrule.
  destruct (Z_le_gt_dec k m1) as [Hk | Hk].
  - assert (Hle : k * D <= m1 * D) by nia.
    destruct Hrule as [[-> H] | [-> H]]; lia.
  - assert (Hle : (m1 + 1) * D <= k * D) by nia.
    destruct Hrule as [[-> H] | [-> H]]; lia.
Qed.

(** No binary64 number is nearer to a quotient than the mantissa it rounds
    to, at the exponent of the rounding. *)
Lemma rounded_mantissa_nearest (N D P q m1 m1' e1 : Z) (y : Float.float) (W : positive) :
  -1074 <= e1 -> P = 2 ^ (e1 + 1074) -> 0 < q -> D = q * P ->
  (-1074 < e1 -> 2 ^ 52 <= m1) ->
  0 <= N - m1 * D < D ->
  (m1' = m1 /\ 2 * (N - m1 * D) <= D) \/ (m1' = m1 + 1 /\ D <= 2 * (N - m1 * D)) ->
  finite_number y ->
  exists Y : Z,
    (Float.to_Q y == Qmake Y (Z.to_pos (2 ^ 1074)))%Q
    /\ Z.abs (m1' * P * q - N) <= Z.abs (Y * q - N).
Proof.
  intros He1 HP Hq HD Hn HR Hrule Hy.
  assert (HP0 : 0 < P) by (subst P; apply Z.pow_pos_nonneg; lia).
  destruct y as [sy | sy | | sy my ey]; try contradiction.
  - exists 0. split; [reflexivity|].
    replace (m1' * P * q - N) with (m1' * D - N) by (subst D; ring).
    replace (0 * q - N) with (0 * D - N) by ring.
    now apply rounded_integer_nearest with (m1 := m1).
  - cbn [finite_number] in Hy. apply bounded_spec in Hy.
    destruct Hy as (Hey & Hmy & _).
    exists ((if sy then -1 else 1) * (Zpos my * 2 ^ (ey + 1074))).
    split; [apply to_Q_scaled; lia|].
    destruct (Z_le_gt_dec e1 ey) as [Hcase | Hcase].
    + assert (Hsplit : 2 ^ (ey + 1074) = 2 ^ (ey - e1) * P).
      { subst P. rewrite <- Z.pow_add_r by lia. f_equal. lia. }
      rewrite Hsplit.
      replace (m1' * P * q - N) with (m1' * D - N) by (subst D; ring).
      replace ((if sy then -1 else 1) * (Zpos my * (2 ^ (ey - e1) * P)) * q - N)
        with (((if sy then -1 else 1) * Zpos my * 2 ^ (ey - e1)) * D - N)
        by (subst D; ring).
      now apply rounded_integer_nearest with (m1 := m1).
    + assert (Hm1 : 2 ^ 52 <= m1) by (apply Hn; lia).
      set (F := 2 ^ (ey + 1074)).
      assert (HF0 : 0 < F) by (apply Z.pow_pos_nonneg; lia).
      assert (HF : 2 * F <= P).
      { unfold F. rewrite <- Z.pow_succ_r by lia. subst P.
        apply Z.pow_le_mono_r; lia. }
      assert (HY : Zpos my * F * q <= m1 * D).
      { subst D. change (2 ^ 53) with (2 * 2 ^ 52) in Hmy.
        assert (Zpos my * F <= m1 * P) by nia. nia. }
      replace (m1' * P * q - N) with (m1' * D - N) by (subst D; ring).
      destruct sy.
      * assert (-1 * (Zpos my * F) * q <= m1 * D) by nia.
        destruct Hrule as [[-> H'] | [-> H']]; lia.
      * replace (1 * (Zpos my * F) * q) with (Zpos my * F * q) by ring.
        destruct Hrule as [[-> H'] | [-> H']]; lia.
Qed.

(** [Float.pack] on a quotient rounded to the nearest mantissa, the even one
    of two, gives the nearest binary64 number, or infinity from the
    threshold of overflow on. *)
Lemma pack_nearest_to (p q : positive) (m1 m1' e1 : Z) :
  -1074 <= e1 ->
  0 <= m1 < 2 ^ 53 ->
  (-1074 < e1 -> 2 ^ 52 <= m1) ->
  let D := Zpos q * 2 ^ (e1 + 1074) in
  let N := Zpos p * 2 ^ 1074 in
  0 <= N - m1 * D < D ->
  (m1' = m1 /\ (2 * (N - m1 * D) < D \/ (2 * (N - m1 * D) = D /\ Z.even m1 = true)))
  \/ (m1' = m1 + 1
      /\ (D < 2 * (N - m1 * D) \/ (2 * (N - m1 * D) = D /\ Z.even m1 = false))) ->
  nearest_to (Qmake (Zpos p) q) (Float.pack false m1' e1).
Proof.
  intros He1 Hm1 Hn D N HR Hrule.
  set (P := 2 ^ (e1 + 1074)) in *.
  assert (HP0 : 0 < P) by (apply Z.pow_pos_nonneg; lia).
  assert (HW0 : 0 < 2 ^ 1074) by (apply Z.pow_pos_nonneg; lia).
  assert (Hm1' : 0 <= m1' <= 2 ^ 53) by lia.
  assert (Hn' : -1074 < e1 -> 2 ^ 52 <= m1') by (intros H; specialize (Hn H); lia).
  assert (Hweak : (m1' = m1 /\ 2 * (N - m1 * D) <= D)
                  \/ (m1' = m1 + 1 /\ D <= 2 * (N - m1 * D))) by lia.
  pose proof (pack_nonneg m1' e1 Hm1' He1 Hn') as Hnn.
  pose proof (to_Q_pack m1' e1 Hm1' He1) as HQ. fold P in HQ.
  assert (Hnear : forall x : Float.float,
             (Float.to_Q x == Qmake (m1' * P) (Z.to_pos (2 ^ 1074)))%Q ->
             forall y : Float.float, finite_number y ->
             (Qabs (Float.to_Q x - Qmake (Zpos p) q)
              <= Qabs (Float.to_Q y - Qmake (Zpos p) q))%Q).
  { intros x Hx y Hy.
    destruct (rounded_mantissa_nearest N D P (Zpos q) m1 m1' e1 y 1%positive)
      as (Y & HY & Hdist); try assumption; try reflexivity; try lia.
    rewrite Hx, HY. apply Qabs_dist_scaled.
    rewrite Z2Pos.id by assumption. exact Hdist. }
  (* the threshold of overflow *)
  set (S := 2 ^ 970).
  assert (HS0 : 0 < S) by (apply Z.pow_pos_nonneg; lia).
  assert (Hth : overflow_threshold = (2 ^ 54 - 1) * S) by reflexivity.
  assert (Hbelow : forall x : Z, (Qmake (Zpos p) q < inject_Z x)%Q <-> Zpos p < x * Zpos q).
  { intros x. unfold Qlt, inject_Z. cbn [Qnum Qden]. lia. }
  assert (Habove : forall x : Z, (inject_Z x <= Qmake (Zpos p) q)%Q <-> x * Zpos q <= Zpos p).
  { intros x. unfold Qle, inject_Z. cbn [Qnum Qden]. lia. }
  assert (Hlow : e1 <= 970 -> Zpos p < overflow_threshold * Zpos q).
  { intros Hle. rewrite Hth.
    assert (HPle : P <= S * 2 ^ 1074).
    { unfold P, S. rewrite <- Z.pow_add_r by lia. apply Z.pow_le_mono_r; lia. }
    assert (H1 : N < (m1 + 1) * D) by lia. unfold N, D in H1.
    assert (H2 : (m1 + 1) * (Zpos q * P) <= 2 ^ 53 * (Zpos q * (S * 2 ^ 1074))).
    { apply Z.mul_le_mono_nonneg; [lia | lia | nia |].
      apply Z.mul_le_mono_nonneg_l; lia. }
    assert (H3 : Zpos p * 2 ^ 1074 < (2 ^ 53 * S * Zpos q) * 2 ^ 1074).
    { eapply Z.lt_le_trans; [exact H1|]. eapply Z.le_trans; [exact H2|].
      apply Z.eq_le_incl. ring. }
    apply Z.mul_lt_mono_pos_r in H3; [|assumption].
    change (2 ^ 54) with (2 * 2 ^ 53). nia. }
  assert (Hat : e1 = 971 -> P = 2 * S * 2 ^ 1074).
  { intros ->. unfold P, S. reflexivity. }
  assert (Hhigh : 971 <= e1 -> 2 * S * 2 ^ 1074 <= P).
  { intros Hge. unfold P, S.
    change 2 with (2 ^ 1) at 1. rewrite <- !Z.pow_add_r by lia.
    apply Z.pow_le_mono_r; lia. }
  unfold nearest_to, Float.pack in *.
  destruct (Z.eqb_spec m1' 0) as [Hz | Hnz].
  - (* zero *)
    split; [exact Hnn|]. split.
    + apply Hbelow. apply Hlow.
      destruct (Z_le_gt_dec e1 970); [assumption|].
      assert (2 ^ 52 <= m1') by (apply Hn'; lia). lia.
    + apply Hnear. exact HQ.
  - destruct (Z.ltb_spec m1' (2 ^ 53)) as [Hlt | Hge].
    + destruct (Z.leb_spec e1 971) as [Hle | Hgt].
      * (* a mantissa below [2 ^ 53] *)
        split; [exact Hnn|]. split; [|apply Hnear; exact HQ].
        apply Hbelow.
        destruct (Z_le_gt_dec e1 970) as [Hlo | Hhi]; [now apply Hlow|].
        assert (He : e1 = 971) by lia. specialize (Hat He).
        rewrite Hth. unfold N, D in *. fold P in HR, Hrule. rewrite Hat in *.
        set (W := 2 ^ 1074) in *. clearbody W. clearbody S.
        assert (Hcut : Zpos p * W < (2 ^ 54 - 1) * S * Zpos q * W).
        { destruct (Z.eq_dec m1 (2 ^ 53 - 1)) as [Hmax | Hnot].
          - destruct Hrule as [[_ [Hr | [_ Hev]]] | [Hup _]].
            + subst m1. nia.
            + subst m1. vm_compute in Hev. discriminate.
            + lia.
          - assert (Hm : m1 + 1 <= 2 ^ 53 - 1) by lia.
            assert (H1 : Zpos p * W < (m1 + 1) * (Zpos q * (2 * S * W))) by lia.
            assert (H2 : (m1 + 1) * (Zpos q * (2 * S * W))
                         <= (2 ^ 53 - 1) * (Zpos q * (2 * S * W))).
            { apply Z.mul_le_mono_nonneg_r; [nia | lia]. }
            change (2 ^ 54) with (2 * 2 ^ 53). nia. }
        apply Z.mul_lt_mono_pos_r in Hcut; assumption.
      * (* overflow at a mantissa below [2 ^ 53] *)
        split; [reflexivity|]. apply Habove. rewrite Hth.
        assert (Hm : 2 ^ 52 <= m1) by (apply Hn; lia).
        assert (HPge : 4 * S * 2 ^ 1074 <= P).
        { unfold P, S. change 4 with (2 ^ 2) at 1. rewrite <- !Z.pow_add_r by lia.
          apply Z.pow_le_mono_r; lia. }
        unfold N, D in HR. fold P in HR.
        set (W := 2 ^ 1074) in *. clearbody W. clearbody S. clearbody P.
        assert (H1 : m1 * (Zpos q * P) <= Zpos p * W) by lia.
        assert (H2 : 2 ^ 52 * (Zpos q * (4 * S * W)) <= m1 * (Zpos q * P)).
        { apply Z.mul_le_mono_nonneg; [lia | lia | nia |].
          apply Z.mul_le_mono_nonneg_l; lia. }
        assert (Hcut : (2 ^ 54 - 1) * S * Zpos q * W <= Zpos p * W).
        { change (2 ^ 54) with (4 * 2 ^ 52). nia. }
        apply Z.mul_le_mono_pos_r in Hcut; assumption.
    + assert (Hm' : m1' = 2 ^ 53) by lia.
      assert (Hm : m1 = 2 ^ 53 - 1) by lia.
      destruct (Z.leb_spec (e1 + 1) 971) as [Hle | Hgt].
      * (* the mantissa [2 ^ 53] *)
        split; [exact Hnn|]. split; [|apply Hnear; exact HQ].
        apply Hbelow. apply Hlow. lia.
      * (* overflow at the mantissa [2 ^ 53] *)
        split; [reflexivity|]. apply Habove. rewrite Hth.
        assert (HPge : 2 * S * 2 ^ 1074 <= P) by (apply Hhigh; lia).
        unfold N, D in HR, Hweak. fold P in HR, Hweak.
        set (W := 2 ^ 1074) in *. clearbody W. clearbody S. clearbody P.
        destruct Hweak as [[Hsame _] | [_ Hup]]; [lia|].
        assert (H1 : (2 * m1 + 1) * (Zpos q * P) <= 2 * (Zpos p * W)) by lia.
        assert (H2 : (2 * m1 + 1) * (Zpos q * (2 * S * W))
                     <= (2 * m1 + 1) * (Zpos q * P)).
        { apply Z.mul_le_mono_nonneg_l; [lia|].
          apply Z.mul_le_mono_nonneg_l; lia. }
        assert (Hcut : (2 ^ 54 - 1) * S * Zpos q * W <= Zpos p * W).
        { subst m1. change (2 ^ 54) with (2 * 2 ^ 53). nia. }
        apply Z.mul_le_mono_pos_r in Hcut; assumption.
Qed.

(** The quotient [SFdiv] hands to the rounding, for two integers. *)
Lemma SFdiv_core_quotient (mx my : positive) :
  let '(q0, e', l) :=
    SFdiv_core_binary Float.prec Float.emax (Zpos mx) 0 (Zpos my) 0 in
  e' <= 0
  /\ 0 <= q0
  /\ 0 <= Zpos mx * 2 ^ (- e') - q0 * Zpos my < Zpos my
  /\ located (Zpos mx * 2 ^ (- e') - q0 * Zpos my) (Zpos my) l
  /\ e' <= Float.fexp64 (Zdigits2 q0 + e').
Proof.
  pose proof (SFdiv_core_wide mx my 0 0) as Hwide.
  unfold SFdiv_core_binary in *. rewrite fexp_fexp64 in *.
  set (e' := Z.min (Float.fexp64 (Zdigits2 (Zpos mx) + 0 - (Zdigits2 (Zpos my) + 0)))
                   (0 - 0)) in *.
  assert (He' : e' <= 0) by (unfold e'; lia).
  replace (0 - 0 - e') with (- e') in * by lia.
  assert (Hm' : match - e' with
                | Zpos _ => Z.shiftl (Zpos mx) (- e')
                | Z0 => Zpos mx
                | Zneg _ => 0
                end = Zpos mx * 2 ^ (- e')).
  { clearbody e'. destruct (- e') as [|s|s] eqn:E; try lia.
    rewrite Z.shiftl_mul_pow2 by lia. reflexivity. }
  rewrite Hm' in *. clear Hm'.
  pose proof (Z_div_mod (Zpos mx * 2 ^ (- e')) (Zpos my) eq_refl) as Hdiv.
  destruct (Z.div_eucl (Zpos mx * 2 ^ (- e')) (Zpos my)) as [q0 r].
  destruct Hdiv as [Heq Hr]. destruct Hwide as [Hq0 Hw].
  split; [assumption|]. split; [assumption|].
  replace (Zpos mx * 2 ^ (- e') - q0 * Zpos my) with r by lia.
  split; [assumption|]. split; [now apply new_location_located | assumption].
Qed.

(** [Float.of_decimal n k] is the nearest binary64 number to [n / 10 ^ k]. *)
Lemma of_decimal_nearest (n : Z) (k : nat) :
  0 <= n ->
  nearest_to (Qmake n (Z.to_pos (10 ^ Z.of_nat k))) (Float.of_decimal n k).
Proof.
  intros Hn. unfold Float.of_decimal. destruct n as [|p|p]; [| |lia].
  - (* no digit but 0 *)
    cbn [nearest_to]. split; [reflexivity|]. split; [reflexivity|].
    intros y _. unfold Float.to_Q at 1.
    setoid_replace (0 - Qmake 0 (Z.to_pos (10 ^ Z.of_nat k)))%Q with 0%Q
      by (unfold Qeq; reflexivity).
    apply Qabs_nonneg.
  - set (q := Z.to_pos (10 ^ Z.of_nat k)). unfold SFdiv.
    pose proof (SFdiv_core_quotient p q) as H.
    destruct (SFdiv_core_binary Float.prec Float.emax (Zpos p) 0 (Zpos q) 0)
      as [[q0 e'] l].
    destruct H as (He' & Hq0 & HR & Hl & Hwide). cbn [xorb].
    destruct (binary_round_aux_nearest false q0 e' l (Zpos p * 2 ^ (- e')) (Zpos q))
      as (m1 & m1' & -> & Hm1 & Hnorm & HR1 & Hrule); try assumption; [lia|].
    set (e1 := Float.fexp64 (Zdigits2 q0 + e')) in *.
    assert (He1 : -1074 <= e1) by (unfold e1, Float.fexp64; lia).
    (* from the scale of the division to the scale of [2 ^ 1074] *)
    set (A := 2 ^ (- e')) in *. set (T := 2 ^ (e1 - e')) in *.
    set (P := 2 ^ (e1 + 1074)). set (W := 2 ^ 1074).
    assert (HA : 0 < A) by (apply Z.pow_pos_nonneg; lia).
    assert (HT : 0 < T) by (apply Z.pow_pos_nonneg; lia).
    assert (HP : 0 < P) by (apply Z.pow_pos_nonneg; lia).
    assert (HW : 0 < W) by (apply Z.pow_pos_nonneg; lia).
    assert (Hscale : P * A = W * T).
    { unfold P, A, W, T. rewrite <- !Z.pow_add_r by lia. f_equal. lia. }
    set (R1 := Zpos p * A - m1 * (Zpos q * T)) in *.
    set (R := Zpos p * W - m1 * (Zpos q * P)).
    assert (HRs : A * R = W * R1).
    { unfold R, R1.
      replace (A * (Zpos p * W - m1 * (Zpos q * P)))
        with (Zpos p * A * W - m1 * Zpos q * (P * A)) by ring.
      rewrite Hscale. ring. }
    assert (HDs : A * (Zpos q * P) = W * (Zpos q * T)).
    { replace (A * (Zpos q * P)) with (Zpos q * (P * A)) by ring.
      rewrite Hscale. ring. }
    apply pack_nearest_to with (m1 := m1); try assumption.
    + fold P W R. clearbody R R1 A T P W. nia.
    + fold P W R. clearbody R R1 A T P W.
      destruct Hrule as [[-> Hr] | [-> Hr]]; [left | right];
        (split; [reflexivity|]);
        (destruct Hr as [Hr | [Hr Hev]]; [left; nia | right; split; [nia | assumption]]).
Qed.

(** ** The numeric amount *)

Lemma strip_amount_app (a b : string) :
  strip_amount (a ++ b) = strip_amount a ++ strip_amount b.
Proof.
  unfold strip_amount. induction a as [|c a IH]; simpl; [reflexivity|].
  destruct (kept c); simpl; now rewrite IH.
Qed.

Lemma strip_amount_kept (s : string) :
  Str.forallb kept (strip_amount s) = true.
Proof.
  unfold strip_amount. induction s as [|c s IH]; simpl; [reflexivity|].
  destruct (kept c) eqn:E; simpl; [now rewrite E|assumption].
Qed.

Lemma split_point_none (s whole : string) :
  Float.split_point s = (whole, None) -> whole = s.
Proof.
  revert whole; induction s as [|c s IH]; intros whole; simpl.
  - now intros [= <-].
  - destruct (Str.is_dot c); [discriminate|].
    destruct (Float.split_point s) as [a b]. intros [= <- ->].
    now rewrite (IH a eq_refl).
Qed.

Lemma split_point_some (s whole frac : string) :
  Float.split_point s = (whole, Some frac) -> s = whole ++ String "." frac.
Proof.
  revert whole; induction s as [|c s IH]; intros whole; simpl; [discriminate|].
  destruct (Str.is_dot c) eqn:E.
  - intros [= <- <-]. apply Ascii.eqb_eq in E. now subst c.
  - destruct (Float.split_point s) as [a b]. intros [= <- ->].
    simpl. now rewrite (IH a eq_refl).
Qed.

Lemma split_point_digits (whole rest : string) :
  Str.forallb Str.is_digit whole = true ->
  Float.split_point (whole ++ String "." rest) = (whole, Some rest).
Proof.
  induction whole as [|c whole IH]; simpl; [reflexivity|].
  rewrite andb_true_iff. intros [Hc H]. rewrite (IH H).
  destruct (Str.is_dot c) eqn:E; [|reflexivity].
  apply Ascii.eqb_eq in E. subst c. discriminate.
Qed.

Lemma split_point_no_point (whole : string) :
  Str.forallb Str.is_digit whole = true ->
  Float.split_point whole = (whole, None).
Proof.
  induction whole as [|c whole IH]; simpl; [reflexivity|].
  rewrite andb_true_iff. intros [Hc H]. rewrite (IH H).
  destruct (Str.is_dot c) eqn:E; [|reflexivity].
  apply Ascii.eqb_eq in E. subst c. discriminate.
Qed.

Lemma existsb_app (f : ascii -> bool) (a b : string) :
  Str.existsb f (a ++ b) = Str.existsb f a || Str.existsb f b.
Proof.
  induction a as [|c a IH]; simpl; [reflexivity|].
  now rewrite IH, orb_assoc.
Qed.

Lemma digits_exist (s : string) :
  Str.forallb Str.is_digit s = true -> String.eqb s "" = false ->
  Str.existsb Str.is_digit s = true.
Proof.
  destruct s as [|c s]; simpl; [discriminate|].
  rewrite andb_true_iff. now intros [-> _] _.
Qed.

(** [float] reads no number from a string without a digit. *)
Lemma of_string_no_digit (s : string) :
  Str.existsb Str.is_digit s = false -> Float.of_string s = None.
Proof.
  intros Hno. unfold Float.of_string.
  destruct (Float.split_point s) as [whole [frac|]] eqn:E.
  - apply split_point_some in E. subst s.
    rewrite existsb_app in Hno. simpl in Hno.
    apply orb_false_iff in Hno. destruct Hno as [Hw Hf].
    destruct (Str.forallb Str.is_digit whole) eqn:Dw; [|reflexivity].
    destruct (Str.forallb Str.is_digit frac) eqn:Df; [|reflexivity].
    destruct (String.eqb whole "") eqn:Ew.
    + destruct (String.eqb frac "") eqn:Ef; [reflexivity|].
      rewrite (digits_exist frac Df Ef) in Hf. discriminate.
    + rewrite (digits_exist whole Dw Ew) in Hw. discriminate.
  - apply split_point_none in E. subst whole.
    destruct (Str.forallb Str.is_digit s) eqn:D; [|reflexivity].
    destruct (String.eqb s "") eqn:Es; [reflexivity|].
    rewrite (digits_exist s D Es) in Hno. discriminate.
Qed.

Lemma length_app (a b : string) :
  String.length (a ++ b) = (String.length a + String.length b)%nat.
Proof.
  induction a as [|c a IH]; simpl; [reflexivity | now rewrite IH].
Qed.

Lemma digits_value_positional (acc : Z) (s : string) :
  Float.digits_value acc s
  = acc * 10 ^ Z.of_nat (String.length s) + positional s.
Proof.
  revert acc; induction s as [|c s IH]; intros acc.
  - simpl. lia.
  - cbn [Float.digits_value positional String.length]. rewrite IH.
    rewrite Nat2Z.inj_succ, Z.pow_succ_r by lia. ring.
Qed.

Lemma positional_app (a b : string) :
  positional (a ++ b)
  = positional a * 10 ^ Z.of_nat (String.length b) + positional b.
Proof.
  induction a as [|c a IH].
  - simpl. lia.
  - cbn [append positional String.length]. rewrite IH, length_app.
    rewrite Nat2Z.inj_add, Z.pow_add_r by lia. ring.
Qed.

Lemma is_digit_value (c : ascii) :
  Str.is_digit c = true -> 0 <= Z.of_N (Str.ord c) - 48 <= 9.
Proof.
  unfold Str.is_digit. rewrite andb_true_iff, !N.leb_le. lia.
Qed.

Lemma positional_nonneg (s : string) :
  Str.forallb Str.is_digit s = true -> 0 <= positional s.
Proof.
  induction s as [|c s IH]; simpl; [lia|].
  rewrite andb_true_iff. intros [Hc Hs]. apply is_digit_value in Hc.
  specialize (IH Hs).
  assert (0 < 10 ^ Z.of_nat (String.length s)) by (apply Z.pow_pos_nonneg; lia).
  nia.
Qed.

(** The value of a numeral is its digits read in a row, over the power of
    ten of the number of digits after the point. *)
Lemma decimal_value_digits (whole frac : string) :
  (decimal_value whole frac
   == Qmake (Float.digits_value 0 (whole ++ frac))
            (Z.to_pos (10 ^ Z.of_nat (String.length frac))))%Q.
Proof.
  unfold decimal_value. rewrite digits_value_positional, positional_app.
  assert (0 < 10 ^ Z.of_nat (String.length frac)) by (apply Z.pow_pos_nonneg; lia).
  unfold Qeq, Qplus, inject_Z. cbn [Qnum Qden].
  rewrite Pos.mul_1_l, Z2Pos.id by assumption. ring.
Qed.

Lemma nearest_to_wd (v v' : Q) (x : Float.float) :
  (v == v')%Q -> nearest_to v x -> nearest_to v' x.
Proof.
  intros Hv. unfold nearest_to.
  destruct x as [s | s | | s m e]; [| intros [Hs Hle]; now rewrite <- Hv | trivial |].
  - intros (Hn & Hlt & Hy). rewrite <- Hv. split; [assumption|].
    split; [assumption|]. intros y Hf. rewrite <- Hv. now apply Hy.
  - intros (Hn & Hlt & Hy). rewrite <- Hv. split; [assumption|].
    split; [assumption|]. intros y Hf. rewrite <- Hv. now apply Hy.
Qed.

(** What [float] reads from a numeral is the nearest binary64 number to the
    value of the numeral. *)
Lemma of_decimal_nearest_value (whole frac : string) :
  Str.forallb Str.is_digit whole = true ->
  Str.forallb Str.is_digit frac = true ->
  nearest_to (decimal_value whole frac)
             (Float.of_decimal (Float.digits_value 0 (whole ++ frac))
                               (String.length frac)).
Proof.
  intros Hw Hf.
  apply (nearest_to_wd _ _ _ (Qeq_sym _ _ (decimal_value_digits whole frac))).
  apply of_decimal_nearest.
  rewrite digits_value_positional, positional_app.
  pose proof (positional_nonneg whole Hw). pose proof (positional_nonneg frac Hf).
  assert (0 < 10 ^ Z.of_nat (String.length frac)) by (apply Z.pow_pos_nonneg; lia).
  nia.
Qed.

Lemma append_empty (s : string) : s ++ "" = s.
Proof.
  induction s as [|c s IH]; simpl; [reflexivity | now rewrite IH].
Qed.

(** C7. [validate_money] reads the numeric amount from what is left of the
    field once every character other than a digit or a point is removed: the
    removal keeps the digits and points in their order and nothing else; what
    is left is read as a decimal numeral, and the number read is the nearest
    binary64 number to the value of the numeral, each digit counting with
    the weight of its place before or after the point; and when no digit is
    left, [validate_money] raises the malformed-amount error. *)
Theorem validate_money_numeric_value
        (amount_numeric amount_text before after whole frac : string) :
  (Str.forallb kept (strip_amount amount_numeric) = true
   /\ strip_amount (before ++ after) = strip_amount before ++ strip_amount after
   /\ (forall c : ascii,
         strip_amount (String c "") = if kept c then String c "" else ""))
  /\ (Str.forallb Str.is_digit whole = true ->
      Str.forallb Str.is_digit frac = true ->
      String.eqb whole "" && String.eqb frac "" = false ->
      strip_amount amount_numeric = whole ++ String "." frac ->
      numeric_value_of amount_numeric
      = Ok (Float.of_decimal (Float.digits_value 0 (whole ++ frac))
                             (String.length frac))
      /\ exists numeric_value : Float.float,
           numeric_value_of amount_numeric = Ok numeric_value
           /\ nearest_to (decimal_value whole frac) numeric_value)
  /\ (Str.forallb Str.is_digit whole = true ->
      String.eqb whole "" = false ->
      strip_amount amount_numeric = whole ->
      numeric_value_of amount_numeric
      = Ok (Float.of_decimal (Float.digits_value 0 whole) 0)
      /\ exists numeric_value : Float.float,
           numeric_value_of amount_numeric = Ok numeric_value
           /\ nearest_to (inject_Z (positional whole)) numeric_value)
  /\ (Str.existsb Str.is_digit (strip_amount amount_numeric) = false ->
      validate_money amount_numeric amount_text
      = Raise (MalformedAmountError (strip_amount amount_numeric)))
  /\ (numeric_value_of "$1,250,000.00"
      = Ok (S754_finite false 5368709120000000 (-32))
      /\ (Float.to_Q (S754_finite false 5368709120000000 (-32)) == 1250000)%Q)
  /\ (numeric_value_of "USD 12.5" = Ok (S754_finite false 7036874417766400 (-49))
      /\ (Float.to_Q (S754_finite false 7036874417766400 (-49)) == Qmake 25 2)%Q)
  /\ (numeric_value_of "0.1" = Ok (S754_finite false 7205759403792794 (-56))
      /\ (Qabs (Float.to_Q (S754_finite false 7205759403792794 (-56)) - Qmake 1 10)
          <= Qmake 1 (2 ^ 57))%Q)
  /\ numeric_value_of "9007199254740993"
     = Ok (S754_finite false 4503599627370496 1).
Proof.
  split; [|split; [|split; [|split; [|repeat split; try reflexivity]]]].
  - split; [apply strip_amount_kept|]. split; [apply strip_amount_app|].
    intros c. unfold strip_amount. simpl. now destruct (kept c).
  - intros Hw Hf Hne Hs.
    assert (Hv : numeric_value_of amount_numeric
                 = Ok (Float.of_decimal (Float.digits_value 0 (whole ++ frac))
                                        (String.length frac))).
    { unfold numeric_value_of, Float.of_string.
      rewrite Hs, (split_point_digits _ _ Hw), Hw, Hf, Hne. reflexivity. }
    split; [exact Hv|]. eexists. split; [exact Hv|].
    now apply of_decimal_nearest_value.
  - intros Hw Hne Hs.
    assert (Hv : numeric_value_of amount_numeric
                 = Ok (Float.of_decimal (Float.digits_value 0 whole) 0)).
    { unfold numeric_value_of, Float.of_string.
      rewrite Hs, (split_point_no_point _ Hw), Hw, Hne. reflexivity. }
    split; [exact Hv|]. eexists. split; [exact Hv|].
    pose proof (of_decimal_nearest_value whole "" Hw eq_refl) as H.
    rewrite append_empty in H.
    apply (nearest_to_wd (decimal_value whole "")); [|exact H].
    unfold decimal_value. cbn [positional String.length].
    change (Z.to_pos (10 ^ Z.of_nat 0)) with 1%positive. apply Qplus_0_r.
  - intros Hno. unfold validate_money, numeric_value_of.
    now rewrite (of_string_no_digit _ Hno).
  - vm_compute. discriminate.
Qed.

Lemma validate_money_numeric_value_witness :
  (numeric_value_of "$1,250,000.00" = Ok (Float.of_decimal 125000000 2)
   /\ exists numeric_value : Float.float,
        numeric_value_of "$1,250,000.00" = Ok numeric_value
        /\ nearest_to (decimal_value "1250000" "00") numeric_value)
  /\ (numeric_value_of "USD 42" = Ok (Float.of_decimal 42 0)
      /\ exists numeric_value : Float.float,
           numeric_value_of "USD 42" = Ok numeric_value
           /\ nearest_to (inject_Z 42) numeric_value)
  /\ validate_money "N/A." "One Million Dollars" = Raise (MalformedAmountError ".").
Proof.
  split; [|split].
  - destruct (validate_money_numeric_value
                "$1,250,000.00" "" "" "" "1250000" "00") as (_ & H & _).
    apply H; reflexivity.
  - destruct (validate_money_numeric_value
                "USD 42" "" "" "" "42" "") as (_ & _ & H & _).
    apply H; reflexivity.
  - destruct (validate_money_numeric_value
                "N/A." "One Million Dollars" "" "" "" "") as (_ & _ & _ & H & _).
    apply H; reflexivity.
Defined.

Example numeric_value_sample :
  numeric_value_of "$1,250,000.00" = Ok (S754_finite false 5368709120000000 (-32))
  /\ (Float.to_Q (S754_finite false 5368709120000000 (-32)) == 1250000)%Q.
Proof. split; reflexivity. Qed.

Example numeric_value_two_points :
  numeric_value_of "1.250.000" = Raise (MalformedAmountError "1.250.000").
Proof. reflexivity. Qed.

(** ** The reconciliation of the two amounts *)

Lemma numeric_value_of_nonneg (amount_numeric : string) (x : Float.float) :
  numeric_value_of amount_numeric = Ok x -> Float.is_nonneg x.
Proof.
  unfold numeric_value_of.
  destruct (Float.of_string (strip_amount amount_numeric)) as [y|] eqn:E;
    [|discriminate].
  intros [= <-]. exact (of_string_nonneg _ _ E).
Qed.

(** C2. When the numeric amount field yields a number, [validate_money]
    raises the money-mismatch error, carrying that number and the value of
    the written amount, exactly when the two differ by more than 1 in exact
    arithmetic, and returns normally otherwise; "$1,250,000.00" against "One
    Million Two Hundred Thousand Dollars" raises it with 1250000 and
    1200000. *)
Theorem validate_money_tolerance
        (amount_numeric amount_text : string) (numeric_value : Float.float) :
  numeric_value_of amount_numeric = Ok numeric_value ->
  (validate_money amount_numeric amount_text
   = Raise (MoneyMismatchError numeric_value
                               (text_amount_to_number amount_text))
   <-> exceeds_tolerance numeric_value (text_amount_to_number amount_text))
  /\ (validate_money amount_numeric amount_text = Ok tt
      <-> ~ exceeds_tolerance numeric_value (text_amount_to_number amount_text))
  /\ validate_money "$1,250,000.00" "One Million Two Hundred Thousand Dollars"
     = Raise (MoneyMismatchError (Float.of_decimal 1250000 0) 1200000)
  /\ (Float.to_Q (Float.of_decimal 1250000 0) == 1250000)%Q.
Proof.
  intros Hx.
  pose proof (mismatch_test_exact numeric_value
                (text_amount_to_number amount_text)
                (numeric_value_of_nonneg _ _ Hx)
                (text_amount_to_number_values amount_text)) as Htest.
  unfold validate_money. rewrite Hx. cbn [bind].
  destruct (Float.ltb (Float.of_Z 1) _).
  - split; [|split; [|split; reflexivity]].
    + split; [intros _; now apply Htest | reflexivity].
    + split; [discriminate|]. intros Hno. exfalso. apply Hno. now apply Htest.
  - split; [|split; [|split; reflexivity]].
    + split; [discriminate|]. intros H. apply Htest in H. discriminate.
    + split; [|reflexivity]. intros _ H. apply Htest in H. discriminate.
Qed.

Lemma validate_money_tolerance_witness :
  numeric_value_of "$1,250,000.00" = Ok (Float.of_decimal 1250000 0)
  /\ exceeds_tolerance (Float.of_decimal 1250000 0) 1200000.
Proof.
  split; [reflexivity|].
  apply (proj1 (proj1 (validate_money_tolerance
                         "$1,250,000.00"
                         "One Million Two Hundred Thousand Dollars"
                         (Float.of_decimal 1250000 0) eq_refl))).
  reflexivity.
Defined.

Example validate_money_within_tolerance :
  validate_money "USD 1,200,000.75" "one million two hundred thousand" = Ok tt
  /\ validate_money "1,200,001.00" "ONE MILLION TWO HUNDRED THOUSAND" = Ok tt
  /\ validate_money "1,200,001.01" "One Million Two Hundred Thousand"
     = Raise (MoneyMismatchError (Float.of_decimal 120000101 2) 1200000).
Proof. repeat split. Qed.

(** ** The tax *)

Lemma bind_ok {A B : Type} (r : result A) (k : A -> result B) (b : B) :
  bind r k = Ok b -> exists a, r = Ok a /\ k a = Ok b.
Proof.
  destruct r as [a|e]; simpl; [|discriminate]. intros H. now exists a.
Qed.

(** A run of [process_deed] that succeeds went through each of its steps. *)
Lemma process_deed_ok (parse : string -> option Date.datetime)
      (scorer : string -> string -> Q) (data : deed) (counties : list county_record)
      (s : summary) :
  process_deed parse scorer data counties = Ok s
  <-> normalize_county scorer (county data) counties
        = Ok (normalized_county s)
      /\ next_tax_rate (normalized_county s) counties = Ok (rate s)
      /\ validate_dates parse (date_signed data) (date_recorded data) = Ok tt
      /\ validate_money (amount_numeric data) (amount_text data) = Ok tt
      /\ calculate_tax (amount_numeric data) (rate s) = Ok (tax_due s).
Proof.
  unfold process_deed. split.
  - intros H.
    apply bind_ok in H. destruct H as (n & Hn & H).
    apply bind_ok in H. destruct H as (r & Hr & H).
    apply bind_ok in H. destruct H as ([] & Hd & H).
    apply bind_ok in H. destruct H as ([] & Hm & H).
    apply bind_ok in H. destruct H as (t & Ht & H).
    injection H as <-. simpl. auto.
  - intros (Hn & Hr & Hd & Hm & Ht).
    rewrite Hn; simpl. rewrite Hr; simpl. rewrite Hd; simpl.
    rewrite Hm; simpl. rewrite Ht; simpl. destruct s; reflexivity.
Qed.



Example process_deed_sample_dates :
  process_deed Iso.parse Sample.scorer
    (mk_deed "DEED-TRUST-0042" "Santa Clara" "CA" "2024-01-15" "2024-01-10"
             "T.E.S.L.A. Holdings LLC" "John & Sarah Connor"
             "$1,250,000.00" "One Million Two Hundred Thousand Dollars"
             "992-001-XA" "PRELIMINARY")
    Sample.counties
  = Raise (DateOrderError (2024, 1, 15) (2024, 1, 10)).
Proof. reflexivity. Qed.

Example process_deed_sample_amounts :
  process_deed Iso.parse Sample.scorer
    (mk_deed "DEED-TRUST-0042" "Santa Clara" "CA" "2024-01-10" "2024-01-15"
             "T.E.S.L.A. Holdings LLC" "John & Sarah Connor"
             "$1,250,000.00" "One Million Two Hundred Thousand Dollars"
             "992-001-XA" "PRELIMINARY")
    Sample.counties
  = Raise (MoneyMismatchError (Float.of_decimal 1250000 0) 1200000).
Proof. reflexivity. Qed.

(** * Further properties *)

(** ** The run of [process_deed] *)

Lemma next_tax_rate_first (pre post : list county_record) (c : county_record) :
  (forall c', In c' pre -> name c' <> name c) ->
  next_tax_rate (name c) (pre ++ c :: post) = Ok (tax_rate c).
Proof.
  induction pre as [|c' pre IH]; intros Hpre; simpl.
  - now rewrite String.eqb_refl.
  - destruct (String.eqb_spec (name c') (name c)) as [Heq | _].
    + exfalso. apply (Hpre c'); [now left | assumption].
    + apply IH. intros c'' Hin. apply Hpre. now right.
Qed.

Lemma first_named (n : string) (counties : list county_record) :
  In n (map name counties) ->
  exists pre c post,
    counties = (pre ++ c :: post)%list /\ name c = n
    /\ forall c', In c' pre -> name c' <> n.
Proof.
  induction counties as [|c rest IH]; simpl; [intros []|].
  destruct (String.eqb_spec (name c) n) as [Heq | Hne].
  - intros _. exists [], c, rest. repeat split; [assumption | intros c' []].
  - intros [Heq | Hin]; [contradiction|].
    destruct (IH Hin) as (pre & c0 & post & -> & Hn & Hpre).
    exists (c :: pre), c0, post. repeat split; [assumption|].
    intros c' [<- | Hc']; [assumption | now apply Hpre].
Qed.

Lemma resolved_name_has_rate (scorer : string -> string -> Q)
      (input : string) (counties : list county_record) (normalized : string) :
  normalize_county scorer input counties = Ok normalized ->
  exists r, next_tax_rate normalized counties = Ok r.
Proof.
  intros H.
  pose proof (normalize_county_bounds_aux scorer input counties) as Hin.
  rewrite H in Hin.
  destruct (first_named normalized counties Hin) as (pre & c & post & -> & Hn & Hpre).
  exists (tax_rate c). subst normalized. now apply next_tax_rate_first.
Qed.

(** X1. Once [normalize_county] has returned a name, the lookup of the tax
    rate in [process_deed] finds an entry: it returns the rate of the first
    registry entry that bears the name, whatever later entries of the same
    name hold, and does not end in [StopIteration]. *)
Theorem tax_rate_of_first_entry (scorer : string -> string -> Q)
        (input : string) (counties : list county_record) (normalized : string) :
  normalize_county scorer input counties = Ok normalized ->
  exists pre c post,
    counties = (pre ++ c :: post)%list
    /\ name c = normalized
    /\ (forall c', In c' pre -> name c' <> normalized)
    /\ next_tax_rate normalized counties = Ok (tax_rate c).
Proof.
  intros H.
  pose proof (normalize_county_bounds_aux scorer input counties) as Hin.
  rewrite H in Hin.
  destruct (first_named normalized counties Hin) as (pre & c & post & -> & Hn & Hpre).
  exists pre, c, post. repeat split; try assumption.
  subst normalized. now apply next_tax_rate_first.
Qed.

Lemma tax_rate_of_first_entry_witness :
  exists pre c post,
    [ mk_county_record "Santa Clara" (Float.of_decimal 1 2);
      mk_county_record "Santa Cruz" (Float.of_decimal 125 4);
      mk_county_record "Santa Cruz" (Float.of_decimal 5 1) ]
    = (pre ++ c :: post)%list
    /\ name c = "Santa Cruz"
    /\ (forall c', In c' pre -> name c' <> "Santa Cruz")
    /\ next_tax_rate "Santa Cruz"
         [ mk_county_record "Santa Clara" (Float.of_decimal 1 2);
           mk_county_record "Santa Cruz" (Float.of_decimal 125 4);
           mk_county_record "Santa Cruz" (Float.of_decimal 5 1) ]
       = Ok (tax_rate c).
Proof.
  apply (tax_rate_of_first_entry Sample.scorer "Santa Cruz"). reflexivity.
Defined.

(** After [validate_money] has returned, [calculate_tax] on the same field
    returns too. *)
Lemma calculate_tax_after_validate_money
      (amount_numeric amount_text : string) (rate : Float.float) :
  validate_money amount_numeric amount_text = Ok tt ->
  exists x, numeric_value_of amount_numeric = Ok x
            /\ calculate_tax amount_numeric rate = Ok (Float.mul x rate).
Proof.
  unfold validate_money, calculate_tax.
  destruct (numeric_value_of amount_numeric) as [x|e]; simpl; [|discriminate].
  intros _. now exists x.
Qed.

(** X2. [process_deed] ends with the first failure among the resolution of
    the county, the order of the dates and the reconciliation of the
    amounts, in that order, and succeeds when none fails: the lookup of the
    tax rate and [calculate_tax] never fail after them, so a run never ends
    in [StopIteration]. *)
Theorem process_deed_first_failure (parse : string -> option Date.datetime)
        (scorer : string -> string -> Q) (data : deed)
        (counties : list county_record) :
  match normalize_county scorer (county data) counties with
  | Raise e => process_deed parse scorer data counties = Raise e
  | Ok normalized =>
      match validate_dates parse (date_signed data) (date_recorded data) with
      | Raise e => process_deed parse scorer data counties = Raise e
      | Ok _ =>
          match validate_money (amount_numeric data) (amount_text data) with
          | Raise e => process_deed parse scorer data counties = Raise e
          | Ok _ =>
              exists r x,
                next_tax_rate normalized counties = Ok r
                /\ numeric_value_of (amount_numeric data) = Ok x
                /\ process_deed parse scorer data counties
                   = Ok (mk_summary normalized r (Float.mul x r))
          end
      end
  end
  /\ process_deed parse scorer data counties <> Raise StopIteration.
Proof.
  assert (Hmain :
    match normalize_county scorer (county data) counties with
    | Raise e => process_deed parse scorer data counties = Raise e
                 /\ e <> StopIteration
    | Ok normalized =>
        exists r, next_tax_rate normalized counties = Ok r
        /\ process_deed parse scorer data counties
           = (validate_dates parse (date_signed data) (date_recorded data) ;;;
              validate_money (amount_numeric data) (amount_text data) ;;;
              due <- calculate_tax (amount_numeric data) r ;;
              Ok (mk_summary normalized r due))
    end).
  { unfold process_deed.
    pose proof (normalize_county_bounds_aux scorer (county data) counties) as Hb.
    destruct (normalize_county scorer (county data) counties) as [n|e] eqn:En.
    - destruct (resolved_name_has_rate scorer _ _ _ En) as (r & Hr).
      exists r. split; [assumption|]. simpl. now rewrite Hr.
    - split; [reflexivity|]. destruct Hb as [-> | [-> _]]; discriminate. }
  destruct (normalize_county scorer (county data) counties) as [n|e].
  - destruct Hmain as (r & Hr & Hp). rewrite Hp.
    unfold validate_dates, parse_date.
    destruct (parse (date_signed data)) as [sd|]; [|split; [reflexivity | discriminate]].
    destruct (parse (date_recorded data)) as [rd|]; [|split; [reflexivity | discriminate]].
    cbn [bind].
    destruct (Date.ltb rd sd) as [[|]|];
      [split; [reflexivity | discriminate] | | split; [reflexivity | discriminate]].
    cbn [bind].
    destruct (validate_money (amount_numeric data) (amount_text data)) as [[]|e] eqn:Em.
    + destruct (calculate_tax_after_validate_money _ _ r Em) as (x & Hx & Hc).
      cbn [bind]. rewrite Hc. cbn [bind].
      split; [|discriminate]. now exists r, x.
    + cbn [bind]. split; [reflexivity|].
      unfold validate_money in Em.
      destruct (numeric_value_of (amount_numeric data)) as [x|e'] eqn:Ex.
      * cbn [bind] in Em. destruct (Float.ltb _ _); inversion Em. discriminate.
      * cbn [bind] in Em. inversion Em. subst e.
        unfold numeric_value_of in Ex. destruct (Float.of_string _); inversion Ex.
        discriminate.
  - destruct Hmain as [Hp Hne]. split; [assumption|]. rewrite Hp. congruence.
Qed.

(** ** The choice among registry names *)

(** X3. The name [normalize_county] returns scores at least 70 against the
    input, no registry name scores more, and every name that comes before
    it in the registry scores strictly less: among names of equal best score
    the first in registry order is returned. *)
Theorem normalize_county_first_best (scorer : string -> string -> Q)
        (input : string) (counties : list county_record) (best_match : string) :
  normalize_county scorer input counties = Ok best_match ->
  exists position : nat,
    nth_error (map name counties) position = Some best_match
    /\ (70 <= scorer input best_match)%Q
    /\ (forall c, In c counties ->
                  (scorer input (name c) <= scorer input best_match)%Q)
    /\ (forall earlier n, (earlier < position)%nat ->
                          nth_error (map name counties) earlier = Some n ->
                          (scorer input n < scorer input best_match)%Q).
Proof.
  unfold normalize_county.
  pose proof (extractOne_spec scorer input (map name counties)) as H.
  destruct (extractOne scorer input (map name counties)) as [[[m sc] k]|];
    [|discriminate].
  destruct H as (Hsc & Hnth & Hub & Hfirst).
  destruct (score_ltb sc 70) eqn:L; [discriminate|].
  intros [= <-]. apply score_ltb_ge in L. subst sc.
  exists k. repeat split; try assumption.
  intros c Hc. apply Hub. now apply in_map.
Qed.

Lemma normalize_county_first_best_witness :
  exists position : nat,
    nth_error (map name Sample.counties) position = Some "Santa Cruz"
    /\ (70 <= Sample.scorer "Santa Cruz" "Santa Cruz")%Q
    /\ (forall c, In c Sample.counties ->
                  (Sample.scorer "Santa Cruz" (name c)
                   <= Sample.scorer "Santa Cruz" "Santa Cruz")%Q)
    /\ (forall earlier n, (earlier < position)%nat ->
                          nth_error (map name Sample.counties) earlier = Some n ->
                          (Sample.scorer "Santa Cruz" n
                           < Sample.scorer "Santa Cruz" "Santa Cruz")%Q).
Proof.
  apply (normalize_county_first_best Sample.scorer "Santa Cruz" Sample.counties).
  reflexivity.
Defined.

Lemma scorer_empty_zero_low (a : string) :
  (Sample.scorer_empty_zero a "" < 70)%Q.
Proof.
  rewrite scorer_empty_zero_empty. reflexivity.
Qed.

(** X4. Resolving twice is resolving once: for a scorer that gives 100 to a
    string that is not empty against itself, less than 70 to any string
    against the empty one, no more than 100, and 100 to no two different
    strings, as the scorer of the library does, the name [normalize_county]
    returns for an input is returned again when it is itself the input. *)
Theorem normalize_county_idempotent (scorer : string -> string -> Q)
        (input : string) (counties : list county_record) (normalized : string) :
  (forall s, s <> "" -> scorer s s == 100)%Q ->
  (forall a, scorer a "" < 70)%Q ->
  (forall a b, scorer a b <= 100)%Q ->
  (forall a b, (scorer a b == 100)%Q -> a = b) ->
  normalize_county scorer input counties = Ok normalized ->
  normalize_county scorer normalized counties = Ok normalized.
Proof.
  intros Hself Hempty Hbound Hperfect H.
  pose proof (normalize_county_bounds_aux scorer input counties) as Hin.
  rewrite H in Hin.
  assert (Hne : normalized <> "").
  { intros ->. revert H. unfold normalize_county.
    pose proof (extractOne_spec scorer input (map name counties)) as Hs.
    destruct (extractOne scorer input (map name counties)) as [[[m sc] k]|];
      [|discriminate].
    destruct Hs as (Hsc & _).
    destruct (score_ltb sc 70) eqn:L; [discriminate|].
    intros [= ->]. apply score_ltb_ge in L. rewrite Hsc in L.
    apply (Qlt_irrefl 70). eapply Qle_lt_trans; [exact L | apply Hempty]. }
  apply registry_name_fixed; try assumption. now apply Hself.
Qed.

Lemma normalize_county_idempotent_witness :
  normalize_county Sample.scorer_empty_zero "Santa Clara" Sample.counties
  = Ok "Santa Clara".
Proof.
  apply (normalize_county_idempotent Sample.scorer_empty_zero "Santa Clarra"
           Sample.counties "Santa Clara" scorer_empty_zero_self
           scorer_empty_zero_low
           scorer_empty_zero_bound scorer_empty_zero_perfect).
  reflexivity.
Defined.

(** ** The order of two datetimes *)

Lemma lex_compare_antisym (a b : list Z) :
  Date.lex_compare b a = CompOpp (Date.lex_compare a b).
Proof.
  revert b; induction a as [|x a IH]; intros [|y b]; simpl; try reflexivity.
  rewrite (Z.compare_antisym x y).
  destruct (x ?= y); simpl; [apply IH | reflexivity | reflexivity].
Qed.

Lemma lex_compare_refl (a : list Z) : Date.lex_compare a a = Eq.
Proof.
  induction a as [|x a IH]; simpl; [reflexivity|]. now rewrite Z.compare_refl.
Qed.

Lemma compare_antisym (a b : Date.datetime) :
  Date.compare b a = option_map CompOpp (Date.compare a b).
Proof.
  unfold Date.compare.
  destruct (Date.utcoffset a) as [oa|], (Date.utcoffset b) as [ob|];
    try reflexivity.
  - rewrite (Z.eqb_sym ob oa). destruct (oa =? ob); cbn [option_map].
    + now rewrite (lex_compare_antisym (Date.fields a) (Date.fields b)).
    + now rewrite (Z.compare_antisym (Date.instant a oa) (Date.instant b ob)).
  - cbn [option_map].
    now rewrite (lex_compare_antisym (Date.fields a) (Date.fields b)).
Qed.

Lemma ltb_asym (a b : Date.datetime) :
  Date.ltb a b = Some true -> Date.ltb b a = Some false.
Proof.
  unfold Date.ltb. rewrite (compare_antisym a b).
  destruct (Date.compare a b) as [[]|]; simpl; congruence.
Qed.

Lemma ltb_irrefl (a : Date.datetime) : Date.ltb a a = Some false.
Proof.
  unfold Date.ltb, Date.compare.
  destruct (Date.utcoffset a) as [o|]; [rewrite Z.eqb_refl|];
    now rewrite lex_compare_refl.
Qed.

(** The order of the fields is the order of the dates, then of the times of
    day. *)
Lemma lex_compare_instants (a b : Date.datetime) :
  time_in_range a -> time_in_range b ->
  Date.lex_compare (Date.fields a) (Date.fields b) = Lt
  <-> date_lt (Date.date a) (Date.date b)
      \/ (Date.date a = Date.date b /\ time_of_day a < time_of_day b).
Proof.
  destruct a as [ya ma da ha mia sa ua oa], b as [yb mb db hb mib sb ub ob].
  unfold time_in_range, time_of_day, Date.fields, Date.date, date_lt.
  cbn. intros Ra Rb.
  assert (Hpair : forall x y z x' y' z' : Z,
             (x, y, z) = (x', y', z') <-> x = x' /\ y = y' /\ z = z').
  { intros. split; [intros [= -> -> ->]; auto | intros (-> & -> & ->); reflexivity]. }
  rewrite Hpair.
  destruct (Z.compare_spec ya yb); [|split; [lia | reflexivity]|split; [discriminate | lia]].
  destruct (Z.compare_spec ma mb); [|split; [lia | reflexivity]|split; [discriminate | lia]].
  destruct (Z.compare_spec da db); [|split; [lia | reflexivity]|split; [discriminate | lia]].
  destruct (Z.compare_spec ha hb); [|split; [lia | reflexivity]|split; [discriminate | lia]].
  destruct (Z.compare_spec mia mib); [|split; [lia | reflexivity]|split; [discriminate | lia]].
  destruct (Z.compare_spec sa sb); [|split; [lia | reflexivity]|split; [discriminate | lia]].
  destruct (Z.compare_spec ua ub); [split; [discriminate | lia]|split; [lia | reflexivity]|split; [discriminate | lia]].
Qed.

(** The verdict of [validate_dates] on two datetimes that compare by their
    fields. *)
Lemma validate_dates_by_fields (parse : string -> option Date.datetime)
      (date_signed date_recorded : string) (signed recorded : Date.datetime) :
  parse date_signed = Some signed ->
  parse date_recorded = Some recorded ->
  time_in_range signed -> time_in_range recorded ->
  Date.utcoffset signed = Date.utcoffset recorded ->
  (validate_dates parse date_signed date_recorded = Ok tt
   <-> date_lt (Date.date signed) (Date.date recorded)
       \/ (Date.date signed = Date.date recorded
           /\ time_of_day signed <= time_of_day recorded))
  /\ (validate_dates parse date_signed date_recorded = Ok tt
      \/ (validate_dates parse date_signed date_recorded
          = Raise (DateOrderError (Date.date signed) (Date.date recorded))
          /\ Date.date_le (Date.date recorded) (Date.date signed))).
Proof.
  intros Hs Hr Rs Rr Ho.
  rewrite (validate_dates_parsed _ _ _ _ _ Hs Hr).
  rewrite (ltb_same_offset recorded signed (eq_sym Ho)).
  pose proof (lex_compare_instants recorded signed Rr Rs) as Hlt.
  pose proof (lex_compare_instants signed recorded Rs Rr) as Hgt.
  rewrite (lex_compare_antisym (Date.fields recorded) (Date.fields signed)) in Hgt.
  destruct (Date.lex_compare (Date.fields recorded) (Date.fields signed)) eqn:E;
    simpl in Hgt.
  - split; [|now left]. split; [intros _ | reflexivity].
    assert (Hn1 : ~ (date_lt (Date.date recorded) (Date.date signed)
                     \/ Date.date recorded = Date.date signed
                        /\ time_of_day recorded < time_of_day signed))
      by (intros Hc; apply Hlt in Hc; discriminate).
    assert (Hn2 : ~ (date_lt (Date.date signed) (Date.date recorded)
                     \/ Date.date signed = Date.date recorded
                        /\ time_of_day signed < time_of_day recorded))
      by (intros Hc; apply Hgt in Hc; discriminate).
    destruct (Date.date recorded) as [[yr mr] dr], (Date.date signed) as [[ys ms] ds].
    unfold date_lt in *.
    assert (Hp1 : (yr, mr, dr) = (ys, ms, ds) <-> yr = ys /\ mr = ms /\ dr = ds).
    { split; [intros [= -> -> ->]; auto | intros (-> & -> & ->); reflexivity]. }
    assert (Hp2 : (ys, ms, ds) = (yr, mr, dr) <-> yr = ys /\ mr = ms /\ dr = ds).
    { split; [intros [= -> -> ->]; auto | intros (-> & -> & ->); reflexivity]. }
    rewrite Hp1 in Hn1. rewrite Hp2 in Hn2. rewrite Hp2. lia.
  - destruct Hlt as [Hlt _]. specialize (Hlt eq_refl). split.
    + split; [discriminate|]. intros Hacc. exfalso.
      destruct (Date.date recorded) as [[yr mr] dr], (Date.date signed) as [[ys ms] ds].
      unfold date_lt in *.
      assert (Hp1 : (yr, mr, dr) = (ys, ms, ds) <-> yr = ys /\ mr = ms /\ dr = ds).
      { split; [intros [= -> -> ->]; auto | intros (-> & -> & ->); reflexivity]. }
      assert (Hp2 : (ys, ms, ds) = (yr, mr, dr) <-> yr = ys /\ mr = ms /\ dr = ds).
      { split; [intros [= -> -> ->]; auto | intros (-> & -> & ->); reflexivity]. }
      rewrite Hp1 in Hlt. rewrite Hp2 in Hacc. lia.
    + right. split; [reflexivity|].
      destruct (Date.date recorded) as [[yr mr] dr], (Date.date signed) as [[ys ms] ds].
      unfold date_lt in Hlt. unfold Date.date_le.
      assert (Hp1 : (yr, mr, dr) = (ys, ms, ds) <-> yr = ys /\ mr = ms /\ dr = ds).
      { split; [intros [= -> -> ->]; auto | intros (-> & -> & ->); reflexivity]. }
      rewrite Hp1 in Hlt. lia.
  - split; [|now left]. split; [intros _ | reflexivity].
    destruct Hgt as [Hgt _]. specialize (Hgt eq_refl).
    destruct Hgt as [Hd | [Hd Ht]]; [now left | right; split; [assumption | lia]].
Qed.

(** X5. What [validate_dates] decides on two strings that parse, by the
    time zones of the two datetimes. With no time zone on either, or the
    same offset on both, it accepts exactly when the recorded date is after
    the signed date, or the dates are the same and the recorded time of day
    is not earlier; when it rejects, the recorded date is on or before the
    signed one. With two different offsets it accepts exactly when the
    recorded instant is not before the signed instant, whatever the two
    calendar dates are. With a time zone on one only it raises the
    [TypeError] of the comparison. *)
Theorem validate_dates_orders_instants (parse : string -> option Date.datetime)
        (date_signed date_recorded : string) (signed recorded : Date.datetime) :
  parse date_signed = Some signed ->
  parse date_recorded = Some recorded ->
  time_in_range signed -> time_in_range recorded ->
  match Date.utcoffset signed, Date.utcoffset recorded with
  | Some offset_signed, Some offset_recorded =>
      if offset_signed =? offset_recorded then
        (validate_dates parse date_signed date_recorded = Ok tt
         <-> date_lt (Date.date signed) (Date.date recorded)
             \/ (Date.date signed = Date.date recorded
                 /\ time_of_day signed <= time_of_day recorded))
        /\ (validate_dates parse date_signed date_recorded = Ok tt
            \/ (validate_dates parse date_signed date_recorded
                = Raise (DateOrderError (Date.date signed) (Date.date recorded))
                /\ Date.date_le (Date.date recorded) (Date.date signed)))
      else
        (validate_dates parse date_signed date_recorded = Ok tt
         <-> Date.instant signed offset_signed
             <= Date.instant recorded offset_recorded)
        /\ (validate_dates parse date_signed date_recorded = Ok tt
            \/ validate_dates parse date_signed date_recorded
               = Raise (DateOrderError (Date.date signed) (Date.date recorded)))
  | None, None =>
      (validate_dates parse date_signed date_recorded = Ok tt
       <-> date_lt (Date.date signed) (Date.date recorded)
           \/ (Date.date signed = Date.date recorded
               /\ time_of_day signed <= time_of_day recorded))
      /\ (validate_dates parse date_signed date_recorded = Ok tt
          \/ (validate_dates parse date_signed date_recorded
              = Raise (DateOrderError (Date.date signed) (Date.date recorded))
              /\ Date.date_le (Date.date recorded) (Date.date signed)))
  | _, _ => validate_dates parse date_signed date_recorded = Raise NaiveAwareError
  end.
Proof.
  intros Hs Hr Rs Rr.
  pose proof (validate_dates_by_fields _ _ _ _ _ Hs Hr Rs Rr) as Hfields.
  pose proof (validate_dates_parsed _ _ _ _ _ Hs Hr) as Hv.
  unfold Date.ltb, Date.compare in Hv.
  destruct (Date.utcoffset signed) as [os|], (Date.utcoffset recorded) as [orr|].
  - destruct (Z.eqb_spec os orr) as [-> | Hne].
    + now apply Hfields.
    + rewrite (proj2 (Z.eqb_neq orr os)) in Hv by congruence.
      rewrite Hv.
      destruct (Z.compare_spec (Date.instant recorded orr) (Date.instant signed os)).
      * split; [|now left]. split; [lia | reflexivity].
      * split; [|now right]. split; [discriminate | lia].
      * split; [|now left]. split; [lia | reflexivity].
  - exact Hv.
  - exact Hv.
  - now apply Hfields.
Qed.

Lemma validate_dates_orders_instants_witness :
  ((validate_dates Iso.parse "2024-01-15 09:30" "2024-01-15 17:45:10" = Ok tt
    <-> date_lt (2024, 1, 15) (2024, 1, 15)
        \/ ((2024, 1, 15) = (2024, 1, 15) /\ 34200000000 <= 63910000000))
   /\ (validate_dates Iso.parse "2024-01-15 09:30" "2024-01-15 17:45:10" = Ok tt
       \/ (validate_dates Iso.parse "2024-01-15 09:30" "2024-01-15 17:45:10"
           = Raise (DateOrderError (2024, 1, 15) (2024, 1, 15))
           /\ Date.date_le (2024, 1, 15) (2024, 1, 15))))
  /\ ((validate_dates Iso.parse "2024-01-15 23:00-08:00" "2024-01-16 01:00+09:00"
       = Ok tt
       <-> Date.instant (Date.mk_datetime 2024 1 15 23 0 0 0 (Some (-28800)))
                        (-28800)
           <= Date.instant (Date.mk_datetime 2024 1 16 1 0 0 0 (Some 32400))
                           32400)
      /\ (validate_dates Iso.parse "2024-01-15 23:00-08:00" "2024-01-16 01:00+09:00"
          = Ok tt
          \/ validate_dates Iso.parse "2024-01-15 23:00-08:00"
                            "2024-01-16 01:00+09:00"
             = Raise (DateOrderError (2024, 1, 15) (2024, 1, 16))))
  /\ validate_dates Iso.parse "2024-01-15" "2024-01-16 01:00+09:00"
     = Raise NaiveAwareError.
Proof.
  split; [|split].
  - apply (validate_dates_orders_instants Iso.parse
             "2024-01-15 09:30" "2024-01-15 17:45:10"
             (Date.mk_datetime 2024 1 15 9 30 0 0 None)
             (Date.mk_datetime 2024 1 15 17 45 10 0 None));
      try reflexivity; unfold time_in_range; simpl; lia.
  - apply (validate_dates_orders_instants Iso.parse
             "2024-01-15 23:00-08:00" "2024-01-16 01:00+09:00"
             (Date.mk_datetime 2024 1 15 23 0 0 0 (Some (-28800)))
             (Date.mk_datetime 2024 1 16 1 0 0 0 (Some 32400)));
      try reflexivity; unfold time_in_range; simpl; lia.
  - apply (validate_dates_orders_instants Iso.parse
             "2024-01-15" "2024-01-16 01:00+09:00"
             (Date.mk_datetime 2024 1 15 0 0 0 0 None)
             (Date.mk_datetime 2024 1 16 1 0 0 0 (Some 32400)));
      try reflexivity; unfold time_in_range; simpl; lia.
Defined.

Example validate_dates_later_date_earlier_instant :
  validate_dates Iso.parse "2024-01-15 23:00-08:00" "2024-01-16 01:00+09:00"
  = Raise (DateOrderError (2024, 1, 15) (2024, 1, 16)).
Proof. reflexivity. Qed.

(** X6. The order [validate_dates] checks is strict one way only: a string
    that parses is accepted against itself, and when a pair is rejected for
    its order, the same two strings the other way round are accepted. *)
Theorem validate_dates_swap (parse : string -> option Date.datetime)
        (date_signed date_recorded : string) (signed recorded : Z * Z * Z) :
  validate_dates parse date_signed date_recorded
  = Raise (DateOrderError signed recorded) ->
  validate_dates parse date_recorded date_signed = Ok tt
  /\ validate_dates parse date_signed date_signed = Ok tt
  /\ validate_dates parse date_recorded date_recorded = Ok tt.
Proof.
  unfold validate_dates, parse_date.
  destruct (parse date_signed) as [s|]; [|discriminate].
  destruct (parse date_recorded) as [r|]; [|discriminate].
  cbn [bind]. destruct (Date.ltb r s) as [[|]|] eqn:E; try discriminate.
  intros _. rewrite (ltb_asym r s E), !ltb_irrefl. auto.
Qed.

Lemma validate_dates_swap_witness :
  validate_dates Iso.parse "2024-01-10" "2024-01-15" = Ok tt
  /\ validate_dates Iso.parse "2024-01-15" "2024-01-15" = Ok tt
  /\ validate_dates Iso.parse "2024-01-10" "2024-01-10" = Ok tt.
Proof.
  apply (validate_dates_swap Iso.parse "2024-01-15" "2024-01-10"
           (2024, 1, 15) (2024, 1, 10)).
  reflexivity.
Defined.

(** ** The amount field *)

Lemma strip_amount_digits (s : string) :
  Str.existsb Str.is_digit (strip_amount s) = Str.existsb Str.is_digit s.
Proof.
  unfold strip_amount, kept. induction s as [|c s IH]; simpl; [reflexivity|].
  destruct (Str.is_digit c) eqn:D; simpl; [now rewrite D|].
  destruct (Str.is_dot c); simpl; now rewrite ?D, IH.
Qed.

Lemma is_digit_not_dot (c : ascii) : Str.is_digit c = true -> Str.is_dot c = false.
Proof.
  unfold Str.is_dot. destruct (Ascii.eqb_spec c "."); [subst; discriminate | reflexivity].
Qed.

Lemma strip_amount_points (s : string) :
  count_points (strip_amount s) = count_points s.
Proof.
  unfold strip_amount, kept. induction s as [|c s IH]; simpl; [reflexivity|].
  destruct (Str.is_digit c) eqn:D; simpl.
  - now rewrite IH.
  - destruct (Str.is_dot c) eqn:P; simpl; now rewrite ?P, IH.
Qed.

Lemma count_points_app (a b : string) :
  count_points (a ++ b) = (count_points a + count_points b)%nat.
Proof.
  induction a as [|c a IH]; simpl; [reflexivity|]. rewrite IH. lia.
Qed.

(** In a string of digits and points, the digits are all there is exactly
    when there is no point. *)
Lemma kept_digits_iff (s : string) :
  Str.forallb kept s = true ->
  Str.forallb Str.is_digit s = true <-> count_points s = 0%nat.
Proof.
  unfold kept. induction s as [|c s IH]; simpl; [tauto|].
  rewrite andb_true_iff. intros [Hc Hs]. specialize (IH Hs).
  destruct (Str.is_digit c) eqn:D; simpl.
  - rewrite (is_digit_not_dot c D). simpl. exact IH.
  - simpl in Hc. rewrite Hc. split; [discriminate | lia].
Qed.

Lemma split_point_whole (s whole : string) (rest : option string) :
  Float.split_point s = (whole, rest) -> count_points whole = 0%nat.
Proof.
  revert whole; induction s as [|c s IH]; intros whole; simpl.
  - now intros [= <- _].
  - destruct (Str.is_dot c) eqn:P; [now intros [= <- _]|].
    destruct (Float.split_point s) as [a b]. intros [= <- <-].
    simpl. rewrite P. now apply IH.
Qed.

Lemma forallb_app (f : ascii -> bool) (a b : string) :
  Str.forallb f (a ++ b) = Str.forallb f a && Str.forallb f b.
Proof.
  induction a as [|c a IH]; simpl; [reflexivity|]. now rewrite IH, andb_assoc.
Qed.

Lemma digits_existsb (s : string) :
  Str.forallb Str.is_digit s = true ->
  Str.existsb Str.is_digit s = negb (String.eqb s "").
Proof.
  destruct s as [|c s]; simpl; [reflexivity|].
  rewrite andb_true_iff. now intros [-> _].
Qed.

(** [float] reads a string of digits and points exactly when it has a
    digit and at most one point. *)
Lemma of_string_some_iff (s : string) :
  Str.forallb kept s = true ->
  (exists x, Float.of_string s = Some x)
  <-> Str.existsb Str.is_digit s = true /\ (count_points s <= 1)%nat.
Proof.
  intros Hk. unfold Float.of_string.
  destruct (Float.split_point s) as [whole [frac|]] eqn:E.
  - pose proof (split_point_whole _ _ _ E) as Hw0.
    apply split_point_some in E. subst s.
    rewrite forallb_app in Hk. simpl in Hk.
    apply andb_true_iff in Hk. destruct Hk as [Hkw Hkf].
    assert (Hw : Str.forallb Str.is_digit whole = true)
      by now apply kept_digits_iff.
    rewrite Hw, existsb_app, count_points_app, Hw0. simpl.
    pose proof (kept_digits_iff frac Hkf) as Hf.
    destruct (Str.forallb Str.is_digit frac) eqn:Df.
    + assert (Hf0 : count_points frac = 0%nat) by now apply Hf.
      rewrite Hf0, (digits_existsb whole Hw), (digits_existsb frac Df).
      destruct (String.eqb whole ""), (String.eqb frac ""); simpl;
        (split; [intros [x Hx]; first [discriminate | split; [reflexivity | lia]]
                | intros [Hd _]; first [discriminate | eexists; reflexivity]]).
    + simpl. split; [intros [x Hx]; discriminate|].
      intros [_ Hc]. exfalso.
      destruct (count_points frac); [|lia].
      assert (false = true) by now apply Hf. discriminate.
  - pose proof (split_point_whole _ _ _ E) as Hw0.
    apply split_point_none in E. subst whole.
    assert (Hw : Str.forallb Str.is_digit s = true) by now apply kept_digits_iff.
    rewrite Hw, Hw0, (digits_existsb s Hw).
    destruct (String.eqb s ""); simpl;
      (split; [intros [x Hx]; first [discriminate | split; [reflexivity | lia]]
              | intros [Hd _]; first [discriminate | eexists; reflexivity]]).
Qed.

(** X7. The amount field yields a number exactly when it has at least one
    digit and at most one point, whatever else it holds; otherwise reading
    it raises the malformed-amount error on what is left after stripping,
    in [validate_money] and in [calculate_tax] alike. *)
Theorem numeric_value_of_defined (amount_numeric amount_text : string)
        (rate : Float.float) :
  ((exists x, numeric_value_of amount_numeric = Ok x)
   <-> Str.existsb Str.is_digit amount_numeric = true
       /\ (count_points amount_numeric <= 1)%nat)
  /\ ((Str.existsb Str.is_digit amount_numeric = false
       \/ (2 <= count_points amount_numeric)%nat)
      <-> validate_money amount_numeric amount_text
          = Raise (MalformedAmountError (strip_amount amount_numeric)))
  /\ ((Str.existsb Str.is_digit amount_numeric = false
       \/ (2 <= count_points amount_numeric)%nat)
      <-> calculate_tax amount_numeric rate
          = Raise (MalformedAmountError (strip_amount amount_numeric))).
Proof.
  pose proof (of_string_some_iff (strip_amount amount_numeric)
                (strip_amount_kept amount_numeric)) as H.
  rewrite strip_amount_digits, strip_amount_points in H.
  unfold validate_money, calculate_tax, numeric_value_of.
  destruct (Float.of_string (strip_amount amount_numeric)) as [x|] eqn:E.
  - assert (Hok : Str.existsb Str.is_digit amount_numeric = true
                  /\ (count_points amount_numeric <= 1)%nat)
      by (apply H; now exists x).
    destruct Hok as [Hd Hc]. cbn [bind]. split; [|split].
    + split; [auto | intros _; now exists x].
    + split; [intros [Hn | Hn]; [congruence | lia]|].
      destruct (Float.ltb _ _); discriminate.
    + split; [intros [Hn | Hn]; [congruence | lia] | discriminate].
  - assert (Hno : ~ (Str.existsb Str.is_digit amount_numeric = true
                     /\ (count_points amount_numeric <= 1)%nat)).
    { intros Hc. apply H in Hc. destruct Hc as [x Hx]. discriminate. }
    assert (Hbad : Str.existsb Str.is_digit amount_numeric = false
                   \/ (2 <= count_points amount_numeric)%nat).
    { destruct (Str.existsb Str.is_digit amount_numeric); [right | now left].
      destruct (le_lt_dec (count_points amount_numeric) 1); [|lia].
      exfalso. apply Hno. auto. }
    cbn [bind]. split; [|split].
    + split; [intros [x Hx]; discriminate | intros Hc; contradiction].
    + split; [reflexivity | intros _; exact Hbad].
    + split; [reflexivity | intros _; exact Hbad].
Qed.

Example european_amount_is_malformed :
  validate_money "EUR 1.250.000,00" "One Million Two Hundred Thousand"
  = Raise (MalformedAmountError "1.250.00000").
Proof. reflexivity. Qed.

Lemma strip_amount_insert (before after : string) (c : ascii) :
  kept c = false ->
  strip_amount (before ++ String c after) = strip_amount (before ++ after).
Proof.
  intros Hc. rewrite !strip_amount_app. f_equal.
  unfold strip_amount. simpl. now rewrite Hc.
Qed.

Lemma strip_amount_idempotent (s : string) :
  strip_amount (strip_amount s) = strip_amount s.
Proof.
  unfold strip_amount. induction s as [|c s IH]; simpl; [reflexivity|].
  destruct (kept c) eqn:E; simpl; [now rewrite E, IH | assumption].
Qed.

(** X8. A character that is neither a digit nor a point changes nothing of
    what is read from the amount field, wherever it stands: currency
    symbols, separators, spaces, letters, and the minus sign, so that a
    negative amount is read as the positive one. The stripped field stands
    for the field in [validate_money] and in [calculate_tax]. *)
Theorem amount_ignores_other_characters
        (before after amount_text : string) (c : ascii) (rate : Float.float) :
  kept c = false ->
  validate_money (before ++ String c after) amount_text
  = validate_money (before ++ after) amount_text
  /\ calculate_tax (before ++ String c after) rate
     = calculate_tax (before ++ after) rate
  /\ validate_money (strip_amount (before ++ String c after)) amount_text
     = validate_money (before ++ String c after) amount_text
  /\ calculate_tax (strip_amount (before ++ String c after)) rate
     = calculate_tax (before ++ String c after) rate.
Proof.
  intros Hc. unfold validate_money, calculate_tax, numeric_value_of.
  rewrite strip_amount_idempotent, (strip_amount_insert _ _ _ Hc). auto.
Qed.

Lemma amount_ignores_other_characters_witness :
  validate_money "-1,200,000.00" "one million two hundred thousand"
  = validate_money "1,200,000.00" "one million two hundred thousand"
  /\ calculate_tax "-1,200,000.00" (Float.of_decimal 1 2)
     = calculate_tax "1,200,000.00" (Float.of_decimal 1 2).
Proof.
  destruct (amount_ignores_other_characters
              "" "1,200,000.00" "one million two hundred thousand" "-"
              (Float.of_decimal 1 2) eq_refl) as (H1 & H2 & _).
  split; [exact H1 | exact H2].
Defined.

(** ** The amounts that pass *)

(** What [validate_money] has accepted is a finite number. *)
Lemma validate_money_accepted_aux (amount_numeric amount_text : string) :
  validate_money amount_numeric amount_text = Ok tt ->
  exists x, numeric_value_of amount_numeric = Ok x /\ is_finite_nonneg x.
Proof.
  unfold validate_money.
  destruct (numeric_value_of amount_numeric) as [x|e] eqn:Ex; [|discriminate].
  cbn [bind].
  pose proof (numeric_value_of_nonneg _ _ Ex) as Hx.
  pose proof (mismatch_test_exact x _ Hx
                (text_amount_to_number_values amount_text)) as Htest.
  destruct (Float.ltb _ _); [discriminate|]. intros _.
  exists x. split; [reflexivity|]. split; [assumption|].
  intros ->. assert (false = true) by (now apply Htest). discriminate.
Qed.

(** X9. [validate_money] accepts a numeric amount only when it is within one
    unit, in exact arithmetic, of what the converter gives for the written
    amount, which is 0, 200000, 1000000 or 1200000: the amount read is then
    finite, not negative, and at most 1200001, whatever the two fields
    hold. *)
Theorem validate_money_accepted_amounts (amount_numeric amount_text : string) :
  validate_money amount_numeric amount_text = Ok tt ->
  exists x : Float.float,
    numeric_value_of amount_numeric = Ok x
    /\ is_finite_nonneg x
    /\ In (text_amount_to_number amount_text) [0; 200000; 1000000; 1200000]
    /\ (Qabs (Float.to_Q x - inject_Z (text_amount_to_number amount_text)) <= 1)%Q
    /\ (Float.to_Q x <= 1200001)%Q.
Proof.
  unfold validate_money.
  destruct (numeric_value_of amount_numeric) as [x|e] eqn:Ex; [|discriminate].
  cbn [bind].
  pose proof (numeric_value_of_nonneg _ _ Ex) as Hx.
  pose proof (text_amount_to_number_values amount_text) as Ht.
  pose proof (mismatch_test_exact x _ Hx Ht) as Htest.
  destruct (Float.ltb _ _); [discriminate|]. intros _.
  assert (Hno : ~ exceeds_tolerance x (text_amount_to_number amount_text)).
  { intros H. apply Htest in H. discriminate. }
  exists x. split; [reflexivity|].
  assert (Hfin : x <> S754_infinity false).
  { intros ->. apply Hno. exact I. }
  assert (Hle : (Qabs (Float.to_Q x - inject_Z (text_amount_to_number amount_text)) <= 1)%Q).
  { apply Qnot_lt_le. intros Hlt. apply Hno.
    destruct x as [s | s | | s m e]; cbn [Float.is_nonneg] in Hx;
      try contradiction; try exact Hlt.
    subst s. now contradiction Hfin. }
  split; [split; assumption|]. split; [assumption|]. split; [assumption|].
  apply Qabs_Qle_condition in Hle. destruct Hle as [_ Hle].
  assert (Hv : (inject_Z (text_amount_to_number amount_text) <= 1200000)%Q).
  { change 1200000%Q with (inject_Z 1200000). rewrite <- Zle_Qle.
    simpl in Ht. lia. }
  apply (Qplus_le_compat _ _ _ _ Hle) in Hv.
  ring_simplify in Hv. exact Hv.
Qed.

Lemma validate_money_accepted_amounts_witness :
  exists x : Float.float,
    numeric_value_of "$1,200,000.75" = Ok x
    /\ is_finite_nonneg x
    /\ In (text_amount_to_number "One Million Two Hundred Thousand")
          [0; 200000; 1000000; 1200000]
    /\ (Qabs (Float.to_Q x
              - inject_Z (text_amount_to_number "One Million Two Hundred Thousand"))
        <= 1)%Q
    /\ (Float.to_Q x <= 1200001)%Q.
Proof.
  apply (validate_money_accepted_amounts
           "$1,200,000.75" "One Million Two Hundred Thousand").
  reflexivity.
Defined.

(** ** The sign of the tax *)

Lemma Zdigits2_product (mx my : positive) :
  2 ^ 52 <= Zpos mx \/ 2 ^ 52 <= Zpos my -> 53 <= Zdigits2 (Zpos (mx * my)).
Proof.
  intros H. change 53 with (52 + 1). apply Zdigits2_ge; [lia|].
  rewrite Pos2Z.inj_mul. destruct H; nia.
Qed.

(** The product of two binary64 numbers that are zero or positive and
    finite is a binary64 number that is zero, positive or plus infinity. *)
Lemma mul_nonneg (x y : Float.float) :
  is_finite_nonneg x -> is_finite_nonneg y -> Float.is_nonneg (Float.mul x y).
Proof.
  intros [Hx Hxf] [Hy Hyf].
  destruct x as [sx | sx | | sx mx ex]; cbn [Float.is_nonneg] in Hx;
    try contradiction; [subst sx | subst sx; contradiction | destruct Hx as [-> Hbx]];
  (destruct y as [sy | sy | | sy my ey]; cbn [Float.is_nonneg] in Hy;
    try contradiction; [subst sy | subst sy; contradiction | destruct Hy as [-> Hby]]);
  try reflexivity.
  unfold Float.mul, SFmul. cbn [xorb].
  destruct (bounded_spec mx ex Hbx) as (Hex & _ & Hnx).
  destruct (bounded_spec my ey Hby) as (Hey & _ & Hny).
  apply binary_round_aux_nonneg; [lia|].
  unfold Float.fexp64.
  destruct (Z_le_gt_dec (ex + ey) (-1074)) as [Hlow | Hhigh]; [lia|].
  assert (Hd : 53 <= Zdigits2 (Zpos (mx * my))).
  { apply Zdigits2_product.
    destruct (Z.eq_dec ex (-1074)) as [-> | Hne]; [right; apply Hny; lia | left; apply Hnx; lia]. }
  lia.
Qed.

Lemma mul_zero_rate (x : Float.float) :
  is_finite_nonneg x -> Float.mul x (S754_zero false) = S754_zero false.
Proof.
  intros [Hx Hxf].
  destruct x as [sx | sx | | sx mx ex]; cbn [Float.is_nonneg] in Hx;
    try contradiction.
  - now subst sx.
  - subst sx. contradiction.
  - destruct Hx as [-> _]. reflexivity.
Qed.

(** X10. In a run of [process_deed] that succeeds with a tax rate that is
    finite and not negative, the tax due is a binary64 number that is zero,
    positive or plus infinity, never negative and never NaN; with the rate
    zero it is zero. *)
Theorem tax_due_nonneg (parse : string -> option Date.datetime)
        (scorer : string -> string -> Q) (data : deed)
        (counties : list county_record) (s : summary) :
  process_deed parse scorer data counties = Ok s ->
  is_finite_nonneg (rate s) ->
  Float.is_nonneg (tax_due s)
  /\ (rate s = S754_zero false -> tax_due s = S754_zero false).
Proof.
  intros H Hrate. apply process_deed_ok in H.
  destruct H as (_ & _ & _ & Hm & Ht).
  destruct (validate_money_accepted_aux _ _ Hm) as (x & Hx & Hfin).
  unfold calculate_tax in Ht. rewrite Hx in Ht. cbn [bind] in Ht.
  injection Ht as <-. split.
  - now apply mul_nonneg.
  - intros ->. now apply mul_zero_rate.
Qed.

Lemma tax_due_nonneg_witness :
  Float.is_nonneg (Float.of_decimal 1200001 2)
  /\ (Float.of_decimal 1 2 = S754_zero false ->
      Float.of_decimal 1200001 2 = S754_zero false).
Proof.
  apply (tax_due_nonneg Iso.parse Sample.scorer
           (mk_deed "DEED-TRUST-0042" "Santa Clara" "CA"
                    "2024-01-10" "2024-01-15" "T.E.S.L.A. Holdings LLC"
                    "John & Sarah Connor" "$1,200,001.00"
                    "One Million Two Hundred Thousand Dollars"
                    "992-001-XA" "PRELIMINARY")
           Sample.counties
           (mk_summary "Santa Clara" (Float.of_decimal 1 2)
                       (Float.of_decimal 1200001 2))).
  - reflexivity.
  - split; [|discriminate]. split; [reflexivity|]. reflexivity.
Defined.

(** ** Written amounts in context *)

Lemma append_assoc (a b c : string) : (a ++ b) ++ c = a ++ (b ++ c).
Proof.
  induction a as [|x a IH]; simpl; [reflexivity|]. now rewrite IH.
Qed.

Lemma occurs_in_context (phrase s before after : string) :
  occurs_in phrase s -> occurs_in phrase (before ++ s ++ after).
Proof.
  intros (pre & post & ->). exists (before ++ pre), (post ++ after).
  now rewrite !append_assoc.
Qed.

Lemma contains_context (phrase s before after : string) :
  Str.contains phrase (Str.lower s) = true ->
  Str.contains phrase (Str.lower (before ++ s ++ after)) = true.
Proof.
  rewrite !contains_spec, !lower_app. apply occurs_in_context.
Qed.

(** X11. Text around a written amount never lowers its value: the
    converter gives at least as much for a text placed between any two
    others, words and letters included, as for the text alone, since a
    phrase counts wherever it occurs, inside a longer word too. *)
Theorem text_amount_to_number_context (s before after : string) :
  text_amount_to_number s <= text_amount_to_number (before ++ s ++ after).
Proof.
  rewrite !text_amount_to_number_eq.
  pose proof (contains_context "one million" s before after) as H1.
  pose proof (contains_context "two hundred thousand" s before after) as H2.
  destruct (Str.contains "one million" (Str.lower s));
    destruct (Str.contains "two hundred thousand" (Str.lower s));
    rewrite ?(H1 eq_refl), ?(H2 eq_refl);
    destruct (Str.contains "one million" (Str.lower (before ++ s ++ after)));
    destruct (Str.contains "two hundred thousand" (Str.lower (before ++ s ++ after)));
    lia.
Qed.

Example text_amount_inside_words :
  text_amount_to_number "Twenty-One Million" = 1000000
  /\ text_amount_to_number "Forty-Two Hundred Thousand" = 200000.
Proof. split; reflexivity. Qed.

(** ** Reading the dictionaries *)

Lemma names_of_records (counties : list county_record) :
  Json.names_of (map Json.of_record counties) = Json.Returned (map name counties).
Proof.
  induction counties as [|c rest IH]; simpl; [reflexivity|]. now rewrite IH.
Qed.

Lemma next_tax_rate_records (normalized : string) (counties : list county_record) :
  Json.next_tax_rate normalized (map Json.of_record counties)
  = Json.call (next_tax_rate normalized counties).
Proof.
  induction counties as [|c rest IH]; simpl; [reflexivity|].
  destruct (String.eqb (name c) normalized); [reflexivity | exact IH].
Qed.

Lemma normalize_county_records (scorer : string -> string -> Q)
      (input : string) (counties : list county_record) :
  Json.normalize_county scorer input (map Json.of_record counties)
  = Json.call (normalize_county scorer input counties).
Proof.
  unfold Json.normalize_county, normalize_county.
  rewrite names_of_records. cbn [Json.and_then].
  destruct (extractOne scorer input (map name counties)) as [[[m sc] k]|];
    [|reflexivity].
  destruct (score_ltb sc 70); reflexivity.
Qed.

(** X12. When the dictionary holds the five keys [process_deed] reads and
    every registry entry holds its two, the run by keys is the run on the
    fields: the same result or the same exception, and no [KeyError]. The
    other keys of the dictionary, present or not, have no part in it. *)
Theorem process_deed_reads_five_keys (parse : string -> option Date.datetime)
        (scorer : string -> string -> Q) (data : Json.dict)
        (counties : list county_record)
        (county_v signed_v recorded_v numeric_v text_v : string) :
  Json.get data "county" = Some county_v ->
  Json.get data "date_signed" = Some signed_v ->
  Json.get data "date_recorded" = Some recorded_v ->
  Json.get data "amount_numeric" = Some numeric_v ->
  Json.get data "amount_text" = Some text_v ->
  Json.process_deed parse scorer data (map Json.of_record counties)
  = Json.call
      (process_deed parse scorer
         (mk_deed "" county_v "" signed_v recorded_v "" "" numeric_v text_v "" "")
         counties).
Proof.
  intros Hc Hs Hr Hn Ht.
  unfold Json.process_deed, process_deed, Json.item.
  rewrite Hc, Hs, Hr, Hn, Ht. cbn [Json.and_then county date_signed date_recorded
                                     amount_numeric amount_text].
  rewrite normalize_county_records.
  destruct (normalize_county scorer county_v counties) as [n|e]; [|reflexivity].
  cbn [Json.call Json.and_then bind]. rewrite next_tax_rate_records.
  destruct (next_tax_rate n counties) as [r|e]; [|reflexivity].
  cbn [Json.call Json.and_then bind].
  destruct (validate_dates parse signed_v recorded_v) as [[]|e]; [|reflexivity].
  cbn [Json.call Json.and_then bind].
  destruct (validate_money numeric_v text_v) as [[]|e]; [|reflexivity].
  cbn [Json.call Json.and_then bind].
  destruct (calculate_tax numeric_v r) as [due|e]; reflexivity.
Qed.

Lemma process_deed_reads_five_keys_witness :
  Json.process_deed Iso.parse Sample.scorer
    [ ("county", "Santa Clara"); ("date_signed", "2024-01-10");
      ("date_recorded", "2024-01-15"); ("amount_numeric", "$1,200,001.00");
      ("amount_text", "One Million Two Hundred Thousand Dollars") ]
    (map Json.of_record Sample.counties)
  = Json.call
      (process_deed Iso.parse Sample.scorer
         (mk_deed "" "Santa Clara" "" "2024-01-10" "2024-01-15" "" ""
                  "$1,200,001.00" "One Million Two Hundred Thousand Dollars"
                  "" "")
         Sample.counties).
Proof.
  apply (process_deed_reads_five_keys Iso.parse Sample.scorer); reflexivity.
Defined.

Lemma names_of_missing (counties : list Json.entry) :
  (exists c, In c counties /\ Json.entry_name c = None) ->
  Json.names_of counties = Json.KeyError "name".
Proof.
  induction counties as [|c rest IH]; intros (c0 & Hin & Hnone); [destruct Hin|].
  simpl. destruct (Json.entry_name c) as [n|] eqn:En; [|reflexivity].
  destruct Hin as [<- | Hin]; [congruence|].
  rewrite IH by (now exists c0). reflexivity.
Qed.

(** X13. Absent keys, in the order the run meets them. Without ["county"]
    the run ends in [KeyError] on it, whatever the registry. A registry
    entry without ["name"] ends the run in [KeyError] on it as soon as
    ["county"] is there, whatever the input and wherever the entry stands.
    Once the county is resolved and its rate found, both date keys are read
    before the dates are parsed: an absent ["date_recorded"] is reported
    even when the signed date is there and cannot be read. And the amount
    keys are read only after the dates are accepted: a failure of
    [validate_dates] comes before any absent amount key. *)
Theorem process_deed_absent_keys (parse : string -> option Date.datetime)
        (scorer : string -> string -> Q) (data : Json.dict)
        (counties : list Json.entry) :
  (Json.get data "county" = None ->
   Json.process_deed parse scorer data counties = Json.KeyError "county")
  /\ (Json.get data "county" <> None ->
      (exists c, In c counties /\ Json.entry_name c = None) ->
      Json.process_deed parse scorer data counties = Json.KeyError "name")
  /\ (forall county_v normalized r,
        Json.get data "county" = Some county_v ->
        Json.normalize_county scorer county_v counties = Json.Returned normalized ->
        Json.next_tax_rate normalized counties = Json.Returned r ->
        (Json.get data "date_signed" = None ->
         Json.process_deed parse scorer data counties
         = Json.KeyError "date_signed")
        /\ (Json.get data "date_signed" <> None ->
            Json.get data "date_recorded" = None ->
            Json.process_deed parse scorer data counties
            = Json.KeyError "date_recorded")
        /\ (forall signed_v recorded_v e,
              Json.get data "date_signed" = Some signed_v ->
              Json.get data "date_recorded" = Some recorded_v ->
              validate_dates parse signed_v recorded_v = Raise e ->
              Json.process_deed parse scorer data counties = Json.Failed e)
        /\ (forall signed_v recorded_v,
              Json.get data "date_signed" = Some signed_v ->
              Json.get data "date_recorded" = Some recorded_v ->
              validate_dates parse signed_v recorded_v = Ok tt ->
              (Json.get data "amount_numeric" = None ->
               Json.process_deed parse scorer data counties
               = Json.KeyError "amount_numeric")
              /\ (Json.get data "amount_numeric" <> None ->
                  Json.get data "amount_text" = None ->
                  Json.process_deed parse scorer data counties
                  = Json.KeyError "amount_text"))).
Proof.
  unfold Json.process_deed, Json.item. split; [|split].
  - intros ->. reflexivity.
  - intros Hc Hmiss. destruct (Json.get data "county") as [c|]; [|congruence].
    cbn [Json.and_then]. unfold Json.normalize_county.
    now rewrite (names_of_missing counties Hmiss).
  - intros county_v normalized r -> Hn Hr. cbn [Json.and_then].
    rewrite Hn. cbn [Json.and_then]. rewrite Hr. cbn [Json.and_then].
    split; [|split; [|split]].
    + intros ->. reflexivity.
    + intros Hs ->. destruct (Json.get data "date_signed"); [reflexivity | congruence].
    + intros signed_v recorded_v e -> -> Hd. cbn [Json.and_then].
      rewrite Hd. reflexivity.
    + intros signed_v recorded_v -> -> Hd. cbn [Json.and_then].
      rewrite Hd. cbn [Json.and_then Json.call]. split.
      * intros ->. reflexivity.
      * intros Ha ->.
        destruct (Json.get data "amount_numeric"); [reflexivity | congruence].
Qed.

Lemma process_deed_absent_keys_witness :
  Json.process_deed Iso.parse Sample.scorer
    [ ("doc_id", "DEED-TRUST-0042"); ("amount_numeric", "$1,250,000.00") ]
    (map Json.of_record Sample.counties)
  = Json.KeyError "county"
  /\ Json.process_deed Iso.parse Sample.scorer
       [ ("county", "Santa Clara") ]
       [ Json.mk_entry (Some "Santa Clara") (Some (Float.of_decimal 1 2));
         Json.mk_entry None (Some (Float.of_decimal 1 2)) ]
     = Json.KeyError "name"
  /\ Json.process_deed Iso.parse Sample.scorer
       [ ("county", "Santa Clara"); ("date_signed", "not a date") ]
       (map Json.of_record Sample.counties)
     = Json.KeyError "date_recorded"
  /\ Json.process_deed Iso.parse Sample.scorer
       [ ("county", "Santa Clara"); ("date_signed", "2024-01-15");
         ("date_recorded", "2024-01-10") ]
       (map Json.of_record Sample.counties)
     = Json.Failed (DateOrderError (2024, 1, 15) (2024, 1, 10)).
Proof.
  split; [|split; [|split]].
  - apply (proj1 (process_deed_absent_keys Iso.parse Sample.scorer _ _)).
    reflexivity.
  - apply (proj1 (proj2 (process_deed_absent_keys Iso.parse Sample.scorer _ _)));
      [discriminate|].
    exists (Json.mk_entry None (Some (Float.of_decimal 1 2))).
    split; [right; left; reflexivity | reflexivity].
  - destruct (proj2 (proj2 (process_deed_absent_keys Iso.parse Sample.scorer
                [ ("county", "Santa Clara"); ("date_signed", "not a date") ]
                (map Json.of_record Sample.counties)))
               "Santa Clara" "Santa Clara" (Float.of_decimal 1 2)
               eq_refl eq_refl eq_refl) as (_ & H & _).
    apply H; [discriminate | reflexivity].
  - destruct (proj2 (proj2 (process_deed_absent_keys Iso.parse Sample.scorer
                [ ("county", "Santa Clara"); ("date_signed", "2024-01-15");
                  ("date_recorded", "2024-01-10") ]
                (map Json.of_record Sample.counties)))
               "Santa Clara" "Santa Clara" (Float.of_decimal 1 2)
               eq_refl eq_refl eq_refl) as (_ & _ & H & _).
    apply (H "2024-01-15" "2024-01-10"); reflexivity.
Defined.

Lemma names_of_returned (counties : list Json.entry) (names : list string) :
  Json.names_of counties = Json.Returned names ->
  map Json.entry_name counties = map Some names.
Proof.
  revert names; induction counties as [|c rest IH]; intros names; simpl.
  - now intros [= <-].
  - destruct (Json.entry_name c) as [n|]; [|discriminate].
    destruct (Json.names_of rest) as [ns | k | e]; try discriminate.
    cbn [Json.and_then]. intros [= <-]. simpl. now rewrite (IH ns eq_refl).
Qed.

Lemma next_tax_rate_first_entry (normalized : string) (counties : list Json.entry)
      (names : list string) :
  map Json.entry_name counties = map Some names ->
  In normalized names ->
  exists pre c post,
    counties = (pre ++ c :: post)%list
    /\ Json.entry_name c = Some normalized
    /\ (forall c', In c' pre -> Json.entry_name c' <> Some normalized)
    /\ Json.next_tax_rate normalized counties
       = match Json.entry_tax_rate c with
         | Some r => Json.Returned r
         | None => Json.KeyError "tax_rate"
         end.
Proof.
  revert names; induction counties as [|c rest IH]; intros [|n names]; simpl;
    try discriminate; [intros _ []|].
  intros [= Hn Hrest] Hin. rewrite Hn.
  destruct (String.eqb_spec n normalized) as [-> | Hne].
  - exists [], c, rest. repeat split; [assumption | intros c' []].
  - destruct Hin as [Heq | Hin]; [contradiction|].
    destruct (IH names Hrest Hin) as (pre & c0 & post & -> & Hc0 & Hpre & Hnext).
    exists (c :: pre), c0, post. repeat split; try assumption.
    intros c' [<- | Hc']; [congruence | now apply Hpre].
Qed.

(** X14. The tax rate is read from one entry only. Once [normalize_county]
    has returned a name, the lookup stops at the first registry entry that
    bears it: it returns that entry's ["tax_rate"], or ends in [KeyError]
    when that entry has none; entries after it are not read, so that one
    without ["tax_rate"] there does no harm, and the lookup ends neither in
    [StopIteration] nor in [KeyError] on ["name"]. *)
Theorem tax_rate_read_from_first_entry (scorer : string -> string -> Q)
        (input : string) (counties : list Json.entry) (normalized : string) :
  Json.normalize_county scorer input counties = Json.Returned normalized ->
  exists pre c post,
    counties = (pre ++ c :: post)%list
    /\ Json.entry_name c = Some normalized
    /\ (forall c', In c' pre -> Json.entry_name c' <> Some normalized)
    /\ Json.next_tax_rate normalized counties
       = match Json.entry_tax_rate c with
         | Some r => Json.Returned r
         | None => Json.KeyError "tax_rate"
         end.
Proof.
  unfold Json.normalize_county.
  destruct (Json.names_of counties) as [names | k | e] eqn:En; try discriminate.
  cbn [Json.and_then].
  pose proof (extractOne_spec scorer input names) as H.
  destruct (extractOne scorer input names) as [[[m sc] k]|]; [|discriminate].
  destruct H as (_ & Hnth & _).
  destruct (score_ltb sc 70); [discriminate|]. intros [= <-].
  apply (next_tax_rate_first_entry m counties names).
  - now apply names_of_returned.
  - eapply nth_error_In. eassumption.
Qed.

Lemma tax_rate_read_from_first_entry_witness :
  exists pre c post,
    [ Json.mk_entry (Some "Santa Clara") None;
      Json.mk_entry (Some "Santa Cruz") (Some (Float.of_decimal 125 4));
      Json.mk_entry (Some "Santa Cruz") None ]
    = (pre ++ c :: post)%list
    /\ Json.entry_name c = Some "Santa Cruz"
    /\ (forall c', In c' pre -> Json.entry_name c' <> Some "Santa Cruz")
    /\ Json.next_tax_rate "Santa Cruz"
         [ Json.mk_entry (Some "Santa Clara") None;
           Json.mk_entry (Some "Santa Cruz") (Some (Float.of_decimal 125 4));
           Json.mk_entry (Some "Santa Cruz") None ]
       = match Json.entry_tax_rate c with
         | Some r => Json.Returned r
         | None => Json.KeyError "tax_rate"
         end.
Proof.
  apply (tax_rate_read_from_first_entry Sample.scorer "Santa Cruz").
  reflexivity.
Defined.
